(** * packages/draw/canvas.mjs: the scrolling canvas is checked against its specification

    The development follows the file top to bottom: the value extractor
    [getValue], the window and the frame filter of [Pattern.prototype.canvas],
    the webcam overlay [_canvas] with its [drawFrame] loop, and
    [getDrawOptions].

    JavaScript numbers are IEEE 754 binary64 values; they are modelled by
    Rocq's primitive floats, which compute and whose operations are
    specified by [SpecFloat].  The arithmetic of the window is written once,
    over an interface of the operations the source uses.  What is proved of
    the program is proved at [float]; the second instance, the exact
    rationals [Q], is not the program's arithmetic and only states what the
    formulas denote. *)

From Stdlib Require Import ZArith QArith Qabs Qround Qpower Floats Lia Lqa.
From stdpp Require Import base option strings list gmap pretty.

Set Warnings "-register-all,-inexact-float".

(** * The program *)

(** ** Numbers *)

(** The operations on numbers that canvas.mjs uses. *)
Class Number (N : Type) : Type := {
  lit : Q -> N;            (* a numeric literal of the source text *)
  neg : N -> N;            (* unary minus *)
  add : N -> N -> N;
  sub : N -> N -> N;
  mul : N -> N -> N;
  div : N -> N -> N;
  Math_abs : N -> N;
  strict_eq : N -> N -> bool;   (* === *)
  ge : N -> N -> bool;          (* >= *)
}.

Declare Scope js_scope.
Delimit Scope js_scope with js.
Notation "- x" := (neg x) : js_scope.
Infix "+" := add : js_scope.
Infix "-" := sub : js_scope.
Infix "*" := mul : js_scope.
Infix "/" := div : js_scope.
Infix "===" := strict_eq (at level 70, no associativity) : js_scope.
Notation "x !== y" := (negb (strict_eq x y)) (at level 70, no associativity) : js_scope.
Infix ">=" := ge : js_scope.

(** An integer as a binary64 value (exact below 2^53). *)
Definition float_of_Z (z : Z) : float :=
  match z with
  | Z0 => PrimFloat.zero
  | Zpos _ => PrimFloat.of_uint63 (Uint63.of_Z z)
  | Zneg p => PrimFloat.opp (PrimFloat.of_uint63 (Uint63.of_Z (Zpos p)))
  end.

(** A decimal literal [a/b] is the binary64 value nearest to it: one
    correctly rounded division of two exactly represented integers. *)
Definition float_lit (q : Q) : float :=
  PrimFloat.div (float_of_Z (Qnum q)) (float_of_Z (Zpos (Qden q))).

#[global] Instance float_Number : Number float := {|
  lit := float_lit;
  neg := PrimFloat.opp;
  add := PrimFloat.add;
  sub := PrimFloat.sub;
  mul := PrimFloat.mul;
  div := PrimFloat.div;
  Math_abs := PrimFloat.abs;
  strict_eq := PrimFloat.eqb;
  ge := fun x y => PrimFloat.leb y x;
|}.

(** Exact rational arithmetic: no rounding, no NaN, no infinities, and
    [x / 0 = 0].  The engine does not run it. *)
#[global] Instance Q_Number : Number Q := {|
  lit := fun q => q;
  neg := Qopp;
  add := Qplus;
  sub := Qminus;
  mul := Qmult;
  div := Qdiv;
  Math_abs := Qabs;
  strict_eq := Qeq_bool;
  ge := fun x y => Qle_bool y x;
|}.

(** ** Values *)

(** The values an event payload or an options object can hold: data, as
    controls and pattern values are.  An object is a plain object, its own
    enumerable properties under [Object.prototype]; an array is its items.
    Objects that carry conversion methods of their own are not among them. *)
Inductive value (N : Type) : Type :=
  | VUndefined
  | VNull
  | VBool (b : bool)
  | VNum (n : N)
  | VStr (s : string)
  | VObj (props : gmap string (value N))
  | VArr (items : list (value N)).
Arguments VUndefined {N}.
Arguments VNull {N}.
Arguments VBool {N} b.
Arguments VNum {N} n.
Arguments VStr {N} s.
Arguments VObj {N} props.
Arguments VArr {N} items.

(** What a call completes with: a value, or a thrown exception. *)
Inductive exception : Type :=
  | TypeError
  | Error (message : string).

Inductive completion (A : Type) : Type :=
  | Return (a : A)
  | Throw (e : exception).
Arguments Return {A} a.
Arguments Throw {A} e.

Definition typeof {N} (v : value N) : string :=
  match v with
  | VUndefined => "undefined"
  | VNull => "object"
  | VBool _ => "boolean"
  | VNum _ => "number"
  | VStr _ => "string"
  | VObj _ => "object"
  | VArr _ => "object"
  end.

(** A time span and an event ("hap") of the pattern engine. *)
Record TimeSpan (N : Type) : Type := { begin : N; end_ : N }.
Arguments begin {N} t.
Arguments end_ {N} t.

Record Hap (N : Type) : Type := { whole : TimeSpan N; hap_value : value N }.
Arguments whole {N} h.
Arguments hap_value {N} h.

(** What canvas.mjs imports from @strudel/core and takes from the language. *)
Class Core (N : Type) : Type := {
  noteToMidi : string -> completion N;
  freqToMidi : value N -> N;
  isWithinTime : Hap N -> N -> N -> bool;
  Number_toString : N -> string;
}.

Section Canvas.
Context {N : Type} {num : Number N} {core : Core N}.
Local Open Scope js_scope.

(** ToBoolean.  [n !== n] holds of NaN only. *)
Definition truthy (v : value N) : bool :=
  match v with
  | VUndefined | VNull => false
  | VBool b => b
  | VNum n => (n === n) && (n !== lit 0)
  | VStr s => negb (String.eqb s "")
  | VObj _ => true
  | VArr _ => true
  end.

(** ToString, as string concatenation applies it: a primitive by its kind;
    a plain object by [Object.prototype.toString]; an array by
    [Array.prototype.join], its items separated by commas, the null and the
    undefined ones left empty.  It is the conversion JavaScript makes of the
    values that [converts] admits. *)
Fixpoint ToString (v : value N) : string :=
  match v with
  | VUndefined => "undefined"
  | VNull => "null"
  | VBool b => if b then "true" else "false"
  | VNum n => Number_toString n
  | VStr s => s
  | VObj _ => "[object Object]"
  | VArr items =>
      (fix join (items : list (value N)) : string :=
         match items with
         | [] => ""
         | item :: items =>
             match item with VUndefined | VNull => "" | _ => ToString item end
             +:+ match items with [] => "" | _ :: _ => "," +:+ join items end
         end) items
  end.

(** The values whose conversion to a string ends in the methods of
    [Object.prototype] and [Array.prototype]: an own property named toString
    would stand in their way, and the values here hold data, nothing
    callable, so that the conversion of such an object throws a TypeError. *)
Fixpoint converts (v : value N) : bool :=
  match v with
  | VObj props => bool_decide (props !! "toString" = None)
  | VArr items => forallb converts items
  | _ => true
  end.

(** The source of an object pattern [let { a, b } = v]: null and undefined
    throw, an object gives its properties, a primitive is boxed and has
    none of its own, and an array has its indices and its length, none of
    which is a name read here. *)
Definition object_pattern (v : value N) : completion (gmap string (value N)) :=
  match v with
  | VUndefined | VNull => Throw TypeError
  | VObj props => Return props
  | _ => Return ∅
  end.

Definition prop (props : gmap string (value N)) (k : string) : value N :=
  default VUndefined (props !! k).

(** [a ?? b] *)
Definition nullish (a b : value N) : value N :=
  match a with
  | VUndefined | VNull => b
  | _ => a
  end.

Definition getValue (e : Hap N) : completion (value N) :=
  let value := hap_value e in
  let value :=
    if negb (String.eqb (typeof (hap_value e)) "object")
    then VObj {[ "value" := value ]}
    else value in
  match object_pattern value with
  | Throw err => Throw err
  | Return props =>
      let note := prop props "note" in
      let n := prop props "n" in
      let freq := prop props "freq" in
      let s := prop props "s" in
      if truthy freq then Return (VNum (freqToMidi freq))
      else
        let note := nullish note n in
        match note with
        | VStr name =>                      (* typeof note === 'string' *)
            match noteToMidi name with
            | Return midi => Return (VNum midi)
            | Throw _ => Return (VNum (lit 0))
            end
        | VNum _ => Return note             (* typeof note === 'number' *)
        | _ =>
            if truthy s then Return (VStr ("_" +:+ ToString s))
            else Return value
        end
  end.

(** The options [Pattern.prototype.canvas] destructures. *)
Record CanvasOptions : Type := {
  cycles : option N;
  playhead : option N;
  overscan : option N;
  hideNegative : option bool;
  id : option N;
}.

(** What [this.draw] is handed: the haps the painter receives on a tick, and
    the time to look behind and ahead. *)
Record Drawing : Type := {
  painted : list (Hap N) -> N -> list (Hap N);
  lookbehind : N;
  lookahead : N;
  draw_id : N;
}.

(** [from] and [to] of [Pattern.prototype.canvas]. *)
Definition canvas_window (options : CanvasOptions) : N * N :=
  let cycles := default (lit 4) (cycles options) in
  let playhead := default (lit 0.5) (playhead options) in
  let from := - cycles * playhead in
  let to := cycles * (lit 1 - playhead) in
  (from, to).

Definition inFrame (hideNegative : bool) (from to : N) (hap : Hap N) (t : N) : bool :=
  (negb hideNegative || (begin (whole hap) >= lit 0))
  && isWithinTime hap (t + from) (t + to).

Definition canvas (options : CanvasOptions) : Drawing :=
  let overscan := default (lit 0) (overscan options) in
  let hideNegative := default false (hideNegative options) in
  let id := default (lit 1) (id options) in
  let '(from, to) := canvas_window options in
  {| painted := fun haps time => filter (fun hap => inFrame hideNegative from to hap time = true) haps;
     lookbehind := from - overscan;
     lookahead := to + overscan;
     draw_id := id |}.

Definition getDrawOptions (drawTime : N * N) (options : gmap string (value N))
  : gmap string (value N) :=
  let '(lookbehind, lookahead) := drawTime in
  let lookbehind := Math_abs lookbehind in
  let cycles := lookahead + lookbehind in
  let playhead := if cycles !== lit 0 then lookbehind / cycles else lit 0 in
  (* { fold: 1, ...options, cycles, playhead } *)
  <["playhead" := VNum playhead]>
    (<["cycles" := VNum cycles]> (options ∪ {[ "fold" := VNum (lit 1) ]})).

End Canvas.

Arguments CanvasOptions N : clear implicits.
Arguments Drawing N : clear implicits.

(** ** The webcam overlay *)

(** The overlay computes in binary64 throughout ([Math.sqrt], [toFixed]). *)

(** The rational a finite binary64 value [m * 2^e] stands for. *)
Definition exact (m : positive) (e : Z) : Q := (inject_Z (Zpos m) * Qpower 2 e)%Q.

Fixpoint zeros (k : nat) : string :=
  match k with
  | O => ""
  | S k => "0" +:+ zeros k
  end.

(** The decimal digits of [n] with a point before the last [f] of them. *)
Definition fixed_point (n : Z) (f : nat) : string :=
  let m := pretty (Z.to_N n) in
  match f with
  | O => m
  | S _ =>
      let k := String.length m in
      let m := if (k <=? f)%nat then zeros (f + 1 - k) +:+ m else m in
      let k := if (k <=? f)%nat then (f + 1)%nat else k in
      let a := String.substring 0 (k - f) m in
      let b := String.substring (k - f) f m in
      a +:+ "." +:+ b
  end.

(** The integer [n] for which [n - y] is closest to zero, the larger one if
    there are two. *)
Definition nearest (y : Q) : Z := Qfloor (y + (1 # 2))%Q.

(** [Number.prototype.toFixed] (ECMA-262, 21.1.3.3) for 0 <= f <= 100: the
    integer [n] for which [n / 10^f - x] is closest to zero, the larger one of
    two, printed with [f] fractional digits; from 10^21 on, the number's own
    string. *)
Definition toFixed {core : Core float} (x : float) (f : nat) : string :=
  match Prim2SF x with
  | S754_nan => "NaN"
  | S754_infinity sign => if sign then "-Infinity" else "Infinity"
  | S754_zero _ => fixed_point 0 f
  | S754_finite sign m e =>
      let s := if sign then "-" else "" in
      let x' := exact m e in
      if Qle_bool (inject_Z (10 ^ 21)) x' then s +:+ Number_toString (PrimFloat.abs x)
      else
        let n := nearest (x' * inject_Z (10 ^ Z.of_nat f))%Q in
        s +:+ fixed_point n f
  end.

Record Keypoint : Type := { x : float; y : float }.

Record Hand : Type := {
  confidence : float;
  handedness : string;
  keypoints : list Keypoint;
}.

Definition MediaStream : Type := nat.

Record Video : Type := {
  srcObject : MediaStream;
  autoplay : bool;
  playsInline : bool;
}.

(** The module-level variables of canvas.mjs. *)
Record Webcam : Type := {
  webcamVideo : option Video;
  webcamStream : option MediaStream;
  webcamReady : bool;
  webcamDrawLoopStarted : bool;
  detectedHands : list Hand;
  handposeModel : bool;
}.

Definition module_scope : Webcam :=
  {| webcamVideo := None;
     webcamStream := None;
     webcamReady := false;
     webcamDrawLoopStarted := false;
     detectedHands := [];
     handposeModel := false |}.

(** What a call does to the world outside the module's variables, in order. *)
Inductive Effect : Type :=
  | getUserMedia
  | createElement (tag : string)
  | addEventListener (type : string)
  | console_error (message : string)
  | console_log (message : string)
  | ml5_handPose
  | detectStart
  | fillStyle (colour : string)
  | strokeStyle (colour : string)
  | lineWidth (width : float)
  | font (f : string)
  | fillRect (x0 y0 w h : float)
  | fillText (text : string) (x0 y0 : float)
  | drawImage (x0 y0 w h : float)
  | beginPath
  | moveTo (x0 y0 : float)
  | lineTo (x0 y0 : float)
  | stroke
  | callback (distance : value float) (hand : Hand)
  | requestAnimationFrame.

(** How [navigator.mediaDevices.getUserMedia] settles. *)
Inductive Camera : Type :=
  | Granted (stream : MediaStream)
  | Denied (err : string).

(** MediaPipe-style hand landmark connections *)
Definition handConnections : list (nat * nat) :=
  [ (0, 1); (1, 2); (2, 3); (3, 4);          (* Thumb *)
    (5, 6); (6, 7); (7, 8);                  (* Index *)
    (9, 10); (10, 11); (11, 12);             (* Middle *)
    (13, 14); (14, 15); (15, 16);            (* Ring *)
    (17, 18); (18, 19); (19, 20);            (* Pinky *)
    (0, 5); (5, 9); (9, 13); (13, 17); (17, 0) (* Palm *) ]%nat.

(** The listener [_canvas] adds for the video's 'loadedmetadata' event. *)
Definition loadedmetadata (st : Webcam) : Webcam :=
  {| webcamVideo := webcamVideo st;
     webcamStream := webcamStream st;
     webcamReady := true;
     webcamDrawLoopStarted := webcamDrawLoopStarted st;
     detectedHands := detectedHands st;
     handposeModel := handposeModel st |}.

(** The callback [setupHandPose] gives to [detectStart]. *)
Definition detected (results : list Hand) (st : Webcam) : Webcam :=
  {| webcamVideo := webcamVideo st;
     webcamStream := webcamStream st;
     webcamReady := webcamReady st;
     webcamDrawLoopStarted := webcamDrawLoopStarted st;
     detectedHands := results;
     handposeModel := handposeModel st |}.

Section Overlay.
Context {core : Core float}.
Local Open Scope float_scope.

Definition drawConnection (keypoints : list Keypoint) (c : nat * nat) : list Effect :=
  let '(startIdx, endIdx) := c in
  match keypoints !! startIdx, keypoints !! endIdx with
  | Some start, Some end' =>
      [moveTo (x start) (y start); lineTo (x end') (y end')]
  | _, _ => []
  end.

(** [distance]: the thumb to index distance, as it is computed. *)
Definition distance (thumbTip indexTip : Keypoint) : string :=
  let dx := x indexTip - x thumbTip in
  let dy := y indexTip - y thumbTip in
  toFixed (sqrt (dx * dx + dy * dy)) 1.

(** The thumb to index distance of one hand. *)
Definition drawDistance (has_callback : bool) (hand : Hand) : list Effect :=
  match keypoints hand !! 4%nat, keypoints hand !! 8%nat with
  | Some thumbTip, Some indexTip =>
      let distance := distance thumbTip indexTip in
      let midX := (x thumbTip + x indexTip) / 2 in
      let midY := (y thumbTip + y indexTip) / 2 in
      [strokeStyle "cyan"; beginPath;
       moveTo (x thumbTip) (y thumbTip); lineTo (x indexTip) (y indexTip); stroke;
       fillStyle "cyan"; font "16px sans-serif";
       fillText (distance +:+ "px") (midX + 5) (midY - 5)]
      ++ (if has_callback then [callback (VStr distance) hand] else [])
  | _, _ => []
  end.

(** The body of the loop over [detectedHands]. *)
Definition drawHand (has_callback : bool) (hand : Hand) : list Effect :=
  if 0.8 <? confidence hand then
    [lineWidth 5;
     strokeStyle (if String.eqb (handedness hand) "Left"
                  then "rgb(255, 0, 255)" else "rgb(255, 255, 0)");
     beginPath]
    ++ concat (map (drawConnection (keypoints hand)) handConnections)
    ++ [stroke]
    ++ drawDistance has_callback hand
  else [].

(** One run of [drawFrame]; it ends by asking for the next one. *)
Definition drawFrame (w h : float) (has_callback : bool) (st : Webcam) : list Effect :=
  (if webcamReady st then
     drawImage 0 0 w h
     :: (if (0 <? length (detectedHands st))%nat
         then concat (map (drawHand has_callback) (detectedHands st))
         else [])
   else [])
  ++ [requestAnimationFrame].

(** [setupHandPose(video)] as far as its first [await]: unless there is a
    model, [ml5.handPose] is called for one.  The function goes on when that
    promise resolves ([handPose_resolved]) and when the model it then waits
    for is there ([handPose_ready]). *)
Definition setupHandPose (st : Webcam) : list Effect :=
  if negb (handposeModel st) then [ml5_handPose] else [].

(** [handposeModel = await ml5.handPose(...)], resumed. *)
Definition handPose_resolved (st : Webcam) : Webcam :=
  {| webcamVideo := webcamVideo st;
     webcamStream := webcamStream st;
     webcamReady := webcamReady st;
     webcamDrawLoopStarted := webcamDrawLoopStarted st;
     detectedHands := detectedHands st;
     handposeModel := true |}.

(** [handposeModel.detectStart(video, ...)], once the wait is over. *)
Definition handPose_ready : list Effect := [detectStart].

(** [if (!webcamDrawLoopStarted) { ... }] *)
Definition startDrawLoop (w h : float) (has_callback : bool) (st : Webcam)
  : Webcam * list Effect :=
  if negb (webcamDrawLoopStarted st) then
    let st :=
      {| webcamVideo := webcamVideo st;
         webcamStream := webcamStream st;
         webcamReady := webcamReady st;
         webcamDrawLoopStarted := true;
         detectedHands := detectedHands st;
         handposeModel := handposeModel st |} in
    (st,
     (if bool_decide (is_Some (webcamVideo st))
      then console_log "Setting up handpose model..." :: setupHandPose st
      else [])
     ++ drawFrame w h has_callback st)
  else (st, []).

(** A call of [_canvas] as far as it runs at once.  Without a video it asks
    for the camera and is suspended at [await getUserMedia], with
    [webcamVideo] still null; with one it runs to its end. *)
Definition _canvas_call (w h : float) (has_callback : bool) (st : Webcam)
  : Webcam * list Effect * bool :=
  match webcamVideo st with
  | None => (st, [getUserMedia], true)
  | Some _ =>
      let '(st, effects) := startDrawLoop w h has_callback st in
      (st, effects, false)
  end.

(** The suspended call, resumed when the camera settles: with the stream it
    makes the video and goes on to the loop, and on a denial it draws the
    fallback and returns. *)
Definition _canvas_resume (camera : Camera) (w h : float) (has_callback : bool)
    (st : Webcam) : Webcam * list Effect :=
  match camera with
  | Granted stream =>
      let st :=
        {| webcamVideo := Some {| srcObject := stream; autoplay := true; playsInline := true |};
           webcamStream := Some stream;
           webcamReady := webcamReady st;
           webcamDrawLoopStarted := webcamDrawLoopStarted st;
           detectedHands := detectedHands st;
           handposeModel := handposeModel st |} in
      let '(st, effects) := startDrawLoop w h has_callback st in
      (st, [createElement "video"; addEventListener "loadedmetadata"] ++ effects)
  | Denied err =>
      (st,
       [fillStyle "black"; fillRect 0 0 w h;
        fillStyle "white"; font "16px monospace";
        fillText "Webcam permission denied" 10 30;
        console_error "Webcam access error:"])
  end.

(** One call of [_canvas] that nothing comes between: the camera settles, as
    [camera] says, before anything else happens.  Calls that overlap are
    [Tick] and [CameraSettles] of the page below. *)
Definition _canvas (camera : Camera) (w h : float) (has_callback : bool) (st : Webcam)
  : Webcam * list Effect :=
  let '(st, first, suspended) := _canvas_call w h has_callback st in
  if suspended then
    let '(st, rest) := _canvas_resume camera w h has_callback st in
    (st, first ++ rest)
  else (st, first).

(** Render ticks of the paint driver, each [_canvas] call settled before the
    next begins. *)
Fixpoint ticks (cameras : list Camera) (w h : float) (has_callback : bool) (st : Webcam)
  : Webcam * list Effect :=
  match cameras with
  | [] => (st, [])
  | camera :: cameras =>
      let '(st, first) := _canvas camera w h has_callback st in
      let '(st, rest) := ticks cameras w h has_callback st in
      (st, first ++ rest)
  end.

End Overlay.

Definition is_getUserMedia (e : Effect) : bool :=
  match e with getUserMedia => true | _ => false end.

Definition is_fallback_message (e : Effect) : bool :=
  match e with
  | fillText text _ _ => String.eqb text "Webcam permission denied"
  | _ => false
  end.

(** ** A stand-in engine *)

(** Modelled from the spec: [noteToMidi] of @strudel/core, which is not under
    src/ ("convertNoteNameToPitch(name) -> number, fails with InvalidNoteName
    on malformed syntax").  The stand-in knows three names and rejects every
    other one. *)
Definition stub_noteToMidi (name : string) : completion float :=
  if String.eqb name "c3" then Return 48%float
  else if String.eqb name "C4" then Return 60%float
  else if String.eqb name "a4" then Return 69%float
  else Throw (Error ("not a note: " +:+ name)).

(** Modelled from the spec: [freqToMidi] of @strudel/core, which is not under
    src/ ("convertFrequencyToPitch(freq) -> number").  The stand-in knows the
    octaves of the concert pitch, and is NaN elsewhere. *)
Definition stub_freqToMidi (freq : value float) : float :=
  match freq with
  | VNum f =>
      if PrimFloat.eqb f 220 then 57%float
      else if PrimFloat.eqb f 440 then 69%float
      else if PrimFloat.eqb f 880 then 81%float
      else PrimFloat.nan
  | _ => PrimFloat.nan
  end.

(** Modelled from the spec: [Hap.isWithinTime] of @strudel/core, which is not
    under src/ ("the event overlaps the half-open time range", "inclusive of
    partial overlaps, not just full containment"). *)
Definition stub_isWithinTime (hap : Hap float) (min max : float) : bool :=
  PrimFloat.ltb (begin (whole hap)) max && PrimFloat.ltb min (end_ (whole hap)).

(** The language's Number::toString, here for the three values that are not
    finite and for whole numbers below 10^21; no claim below reads it. *)
Definition stub_Number_toString (n : float) : string :=
  match Prim2SF n with
  | S754_nan => "NaN"
  | S754_infinity sign => if sign then "-Infinity" else "Infinity"
  | S754_zero _ => "0"
  | S754_finite sign m e =>
      (if sign then "-" else "") +:+ pretty (Z.to_N (Qfloor (exact m e)))
  end.

Definition stub_core : Core float :=
  {| noteToMidi := stub_noteToMidi;
     freqToMidi := stub_freqToMidi;
     isWithinTime := stub_isWithinTime;
     Number_toString := stub_Number_toString |}.

(** ** Data of the examples *)

(** The payloads of the examples. *)
Definition at_zero : TimeSpan float := {| begin := 0%float; end_ := 1%float |}.



Definition payload_bad_note : gmap string (value float) :=
  {[ "note" := VStr "not-a-note" ]}.

(** A payload whose sound is a list of names. *)
Definition payload_sounds : gmap string (value float) :=
  {[ "s" := VArr [VStr "bd"; VStr "sd"] ]}.

(** The window of [c] cycles with the playhead at [p]. *)
Definition window_of (c p : float) : CanvasOptions float :=
  {| cycles := Some c; playhead := Some p; overscan := None; hideNegative := None; id := None |}.

(** A hap on [-1, 1), and the default window with hideNegative on or off. *)
Definition hap_from_minus_one : Hap float :=
  {| whole := {| begin := (-1)%float; end_ := 1%float |}; hap_value := VStr "bd" |}.

Definition window_hiding (hide : bool) : CanvasOptions float :=
  {| cycles := Some 4%float; playhead := Some 0.5%float;
     overscan := None; hideNegative := Some hide; id := None |}.

(** A hand of 21 keypoints with the thumb tip (4) and the index tip (8) where
    they are said to be. *)
Definition origin : Keypoint := {| x := 0%float; y := 0%float |}.

Definition pinch (thumbTip indexTip : Keypoint) : Hand :=
  {| confidence := 0.9%float;
     handedness := "Right";
     keypoints := [origin; origin; origin; origin; thumbTip;
                   origin; origin; origin; indexTip] ++ replicate 12 origin |}.

(** The module's variables once the camera was granted, the video has its
    metadata and the model has reported [hands]. *)
Definition watching {core : Core float} (hands : list Hand) : Webcam :=
  detected hands
    (loadedmetadata (_canvas (Granted 1%nat) 640%float 480%float true module_scope).1).

(** Hands whose tips are 5 and the square root of 2 apart. *)
Definition three_four : Hand := pinch origin {| x := 3%float; y := 4%float |}.

Definition one_one : Hand := pinch origin {| x := 1%float; y := 1%float |}.

(** ** The rest of the file *)

Section Rest.
Context {N : Type} {num : Number N}.
Local Open Scope js_scope.

Definition scale (normalized min max : N) : N := normalized * (max - min) + min.

(** What the painter of [getCanvasPainter(options)] calls [_canvas] with:
    [{ ctx, time, haps, ...getDrawOptions(drawTime, options) }]. *)
Definition getCanvasPainter (options : gmap string (value N))
    (ctx time haps : value N) (drawTime : N * N) : gmap string (value N) :=
  getDrawOptions drawTime options
  ∪ <["haps" := haps]> (<["time" := time]> {[ "ctx" := ctx ]}).

(** [Pattern.prototype.punchcard] paints with [getCanvasPainter(options)]. *)
Definition punchcard (options : gmap string (value N)) :=
  getCanvasPainter options.

(** [Pattern.prototype.wordfall]:
    [{ vertical: 1, labels: 1, stroke: 0, fillActive: 1, active: 'white', ...options }]. *)
Definition wordfall (options : gmap string (value N)) :=
  punchcard
    (options
     ∪ <["active" := VStr "white"]>
         (<["fillActive" := VNum (lit 1)]>
            (<["stroke" := VNum (lit 0)]>
               (<["labels" := VNum (lit 1)]> {[ "vertical" := VNum (lit 1) ]})))).

(** What [drawcanvas(options)] calls [_canvas] with, [options] taken apart as
    [const { drawTime, ...rest } = options] does:
    [{ ...getDrawOptions(drawTime), ...rest }].  A [drawTime] that is missing
    cannot be destructured as an array. *)
Definition drawcanvas (drawTime : option (N * N)) (rest : gmap string (value N))
  : completion (gmap string (value N)) :=
  match drawTime with
  | None => Throw TypeError
  | Some drawTime => Return (rest ∪ getDrawOptions drawTime ∅)
  end.

End Rest.

(** ** The page around the overlay *)

(** What happens on the page.  The paint driver calls [_canvas] and does not
    wait for it, so a call runs as far as its first [await]; the camera
    request of a suspended call settles, of whichever one; the video fires
    'loadedmetadata'; the promise of [ml5.handPose] resolves; the model that
    [setupHandPose] polls for is there; the model reports hands; the browser
    runs the animation frame that was asked for. *)
Inductive Event : Type :=
  | Tick (w h : float) (has_callback : bool)
  | CameraSettles (i : nat) (camera : Camera)
  | LoadedMetadata
  | HandPoseResolves
  | ModelReady
  | Detection (results : list Hand)
  | AnimationFrame.

(** How far [setupHandPose] has come. *)
Inductive ModelStage : Type :=
  | NotAsked
  | Loading
  | Polling
  | Detecting.

(** The module's variables and what is suspended around them: the [drawFrame]
    closure that [requestAnimationFrame] holds once the loop has started (the
    [w], [h] and [options] of the call that started it), the calls of
    [_canvas] waiting for the camera, and the stage of [setupHandPose]. *)
Record Page : Type := {
  vars : Webcam;
  loop : option (float * float * bool);
  waiting : list (float * float * bool);
  stage : ModelStage;
}.

Definition initial : Page :=
  {| vars := module_scope; loop := None; waiting := []; stage := NotAsked |}.

Definition is_ml5_handPose (e : Effect) : bool :=
  match e with ml5_handPose => true | _ => false end.

Section Page.
Context {core : Core float}.

(** The page after a stretch of [_canvas] has run with [w], [h] and
    [has_callback], taking the variables to [st] with [effects]: a loop that
    has started holds its closure, and a model that was asked for is
    loading. *)
Definition ran (w h : float) (has_callback : bool) (st : Webcam) (effects : list Effect)
    (waiting' : list (float * float * bool)) (page : Page) : Page :=
  {| vars := st;
     loop := if negb (webcamDrawLoopStarted (vars page)) && webcamDrawLoopStarted st
             then Some (w, h, has_callback) else loop page;
     waiting := waiting';
     stage := if existsb is_ml5_handPose effects then Loading else stage page |}.

(** An event is delivered to whoever waits for it; one that nobody waits for
    does nothing. *)
Definition deliver (e : Event) (page : Page) : Page * list Effect :=
  match e with
  | Tick w h has_callback =>
      let '(st, effects, suspended) := _canvas_call w h has_callback (vars page) in
      (ran w h has_callback st effects
         (if suspended then waiting page ++ [(w, h, has_callback)] else waiting page) page,
       effects)
  | CameraSettles i camera =>
      match waiting page !! i with
      | Some (w, h, has_callback) =>
          let '(st, effects) := _canvas_resume camera w h has_callback (vars page) in
          (ran w h has_callback st effects (delete i (waiting page)) page, effects)
      | None => (page, [])
      end
  | LoadedMetadata =>
      ({| vars := if bool_decide (is_Some (webcamVideo (vars page)))
                  then loadedmetadata (vars page) else vars page;
          loop := loop page; waiting := waiting page; stage := stage page |}, [])
  | HandPoseResolves =>
      match stage page with
      | Loading =>
          ({| vars := handPose_resolved (vars page);
              loop := loop page; waiting := waiting page; stage := Polling |}, [])
      | _ => (page, [])
      end
  | ModelReady =>
      match stage page with
      | Polling =>
          ({| vars := vars page;
              loop := loop page; waiting := waiting page; stage := Detecting |},
           handPose_ready)
      | _ => (page, [])
      end
  | Detection results =>
      match stage page with
      | Detecting =>
          ({| vars := detected results (vars page);
              loop := loop page; waiting := waiting page; stage := stage page |}, [])
      | _ => (page, [])
      end
  | AnimationFrame =>
      match loop page with
      | Some (w, h, has_callback) => (page, drawFrame w h has_callback (vars page))
      | None => (page, [])
      end
  end.

Fixpoint run (events : list Event) (page : Page) : Page * list Effect :=
  match events with
  | [] => (page, [])
  | e :: events =>
      let '(page, first) := deliver e page in
      let '(page, rest) := run events page in
      (page, first ++ rest)
  end.

End Page.

(** The hands [drawFrame] puts a distance on. *)
Definition qualifies (hand : Hand) : bool :=
  PrimFloat.ltb 0.8 (confidence hand)
  && bool_decide (is_Some (keypoints hand !! 4%nat))
  && bool_decide (is_Some (keypoints hand !! 8%nat)).

Definition is_callback (e : Effect) : bool :=
  match e with callback _ _ => true | _ => false end.

Definition is_requestAnimationFrame (e : Effect) : bool :=
  match e with requestAnimationFrame => true | _ => false end.

Definition is_drawImage (e : Effect) : bool :=
  match e with drawImage _ _ _ _ => true | _ => false end.

(** What a denied call, and the call that is granted first, do. *)
Definition fallback (w h : float) : list Effect :=
  [getUserMedia;
   fillStyle "black"; fillRect 0 0 w h;
   fillStyle "white"; font "16px monospace";
   fillText "Webcam permission denied" 10 30;
   console_error "Webcam access error:"].

Definition acquisition : list Effect :=
  [getUserMedia; createElement "video"; addEventListener "loadedmetadata";
   console_log "Setting up handpose model..."; ml5_handPose;
   requestAnimationFrame].

Definition acquired (stream : MediaStream) : Webcam :=
  {| webcamVideo := Some {| srcObject := stream; autoplay := true; playsInline := true |};
     webcamStream := Some stream;
     webcamReady := false;
     webcamDrawLoopStarted := true;
     detectedHands := [];
     handposeModel := false |}.

(** A call of [_canvas] and, before anything else, the answer of the
    camera. *)
Definition in_turn (w h : float) (has_callback : bool) (camera : Camera) : list Event :=
  [Tick w h has_callback; CameraSettles 0 camera].

Definition is_detectStart (e : Effect) : bool :=
  match e with detectStart => true | _ => false end.

(** More payloads: a sound name alone, and a null note beside a numeric n. *)
Definition payload_bd : gmap string (value float) := {[ "s" := VStr "bd" ]}.

Definition payload_n_only : gmap string (value float) :=
  <["note" := VNull]> (<["n" := VNum 7%float]> {[ "s" := VStr "bd" ]}).

Definition hap_of (payload : value float) : Hap float :=
  {| whole := at_zero; hap_value := payload |}.

(** What [drawHand] does to the canvas and its caller, and nothing else. *)
Definition draws_hand (e : Effect) : bool :=
  match e with
  | lineWidth _ | strokeStyle _ | fillStyle _ | font _ | fillText _ _ _
  | beginPath | moveTo _ _ | lineTo _ _ | stroke | callback _ _ => true
  | _ => false
  end.

Definition is_createElement (e : Effect) : bool :=
  match e with createElement _ => true | _ => false end.

(** How the module's variables and what is suspended hang together. *)
Definition consistent (page : Page) : Prop :=
  (webcamReady (vars page) = true -> is_Some (webcamVideo (vars page)))
  /\ (is_Some (loop page) <-> webcamDrawLoopStarted (vars page) = true)
  /\ (webcamDrawLoopStarted (vars page) = true <-> is_Some (webcamVideo (vars page)))
  /\ (webcamDrawLoopStarted (vars page) = true <-> stage page <> NotAsked)
  /\ (handposeModel (vars page) = true <-> (stage page = Polling \/ stage page = Detecting))
  /\ (detectedHands (vars page) <> [] -> stage page = Detecting)
  /\ webcamStream (vars page) = srcObject <$> webcamVideo (vars page).

(** ** What a binary64 value denotes *)

(** The specification of Rocq's primitive floats ([SpecFloat], the IEEE 754
    operations on a sign, a mantissa and an exponent) is what the floating
    point operations of the source are read against.  A finite value denotes
    a rational number; [rounds_to r x] says that [r] is finite and within
    the rounding error of binary64 of the real [x]: a relative 2^-53, or the
    absolute 2^-1075 where the result is subnormal. *)
Definition bpow (e : Z) : Q := Qpower 2 e.

Definition B2Q (x : spec_float) : Q :=
  match x with
  | S754_finite s m e => if s then (- exact m e)%Q else exact m e
  | _ => 0%Q
  end.

Definition SFfinite (x : spec_float) : bool :=
  match x with
  | S754_zero _ | S754_finite _ _ _ => true
  | _ => false
  end.

Definition F2Q (x : float) : Q := B2Q (Prim2SF x).

Definition finite (x : float) : bool := SFfinite (Prim2SF x).

Definition rounds_to (r : spec_float) (x : Q) : Prop :=
  SFfinite r = true
  /\ (Qabs (B2Q r - x) <= Qabs x * bpow (-53) + bpow (-1075))%Q.

(** [keeps_order r x]: [r] lies on the same side of every binary64 value as
    [x] does, as the nearest binary64 value to [x] does. *)
Definition keeps_order (r : spec_float) (x : Q) : Prop :=
  forall Y : spec_float,
    valid_binary Y = true -> SFfinite Y = true ->
    ((B2Q Y <= x)%Q -> (B2Q Y <= B2Q r)%Q) /\ ((x <= B2Q Y)%Q -> (B2Q r <= B2Q Y)%Q).

Definition nearest_to (r : spec_float) (x : Q) : Prop :=
  rounds_to r x /\ keeps_order r x.

(** Where a real lies between two neighbouring mantissas, as the rounding
    of [SpecFloat] records it in a round bit and a sticky bit. *)
Definition inbetween (y : Q) (mrs : shr_record) : Prop :=
  let m := inject_Z (shr_m mrs) in
  match shr_r mrs, shr_s mrs with
  | false, false => (y == m)%Q
  | false, true => (m < y)%Q /\ (y < m + (1 # 2))%Q
  | true, false => (y == m + (1 # 2))%Q
  | true, true => (m + (1 # 2) < y)%Q /\ (y < m + 1)%Q
  end.

(** * Its properties *)

(** ** The value extractor *)

Section GetValue.
Context {N : Type} {num : Number N} {core : Core N}.

Lemma getValue_object (w : TimeSpan N) (props : gmap string (value N)) :
  getValue {| whole := w; hap_value := VObj props |} =
  let freq := prop props "freq" in
  if truthy freq then Return (VNum (freqToMidi freq))
  else match nullish (prop props "note") (prop props "n") with
       | VStr name =>
           match noteToMidi name with
           | Return midi => Return (VNum midi)
           | Throw _ => Return (VNum (lit 0))
           end
       | VNum n => Return (VNum n)
       | _ =>
           if truthy (prop props "s")
           then Return (VStr ("_" +:+ ToString (prop props "s")))
           else Return (VObj props)
       end.
Proof.
  unfold getValue; cbn.
  destruct (truthy (prop props "freq")); [reflexivity|].
  destruct (nullish (prop props "note") (prop props "n")); reflexivity.
Qed.

(** A payload that is not an object is wrapped as [{ value }], and comes
    back wrapped. *)
Lemma getValue_scalar (e : Hap N) :
  typeof (hap_value e) <> "object" ->
  getValue e = Return (VObj {[ "value" := hap_value e ]}).
Proof.
  intros Hty. unfold getValue.
  destruct (String.eqb (typeof (hap_value e)) "object") eqn:E.
  - apply String.eqb_eq in E. contradiction.
  - reflexivity.
Qed.

(** An array has none of the fields read, and comes back as it is. *)
Lemma getValue_array (w : TimeSpan N) (items : list (value N)) :
  getValue {| whole := w; hap_value := VArr items |} = Return (VArr items).
Proof.
  unfold getValue; cbn. unfold prop. rewrite !lookup_empty. reflexivity.
Qed.





(** C6.  Where the note is read, that is when no truthy frequency has
    been returned first (C5), a note name (note, or else n) that
    [noteToMidi] rejects gives 0, and nothing is thrown. *)
Theorem getValue_invalid_note (w : TimeSpan N) (props : gmap string (value N))
    (name : string) (err : exception) :
  truthy (prop props "freq") = false ->
  nullish (prop props "note") (prop props "n") = VStr name ->
  noteToMidi name = Throw err ->
  getValue {| whole := w; hap_value := VObj props |} = Return (VNum (lit 0)).
Proof.
  intros Hfreq Hnote Hthrow. rewrite getValue_object; cbn zeta.
  now rewrite Hfreq, Hnote, Hthrow.
Qed.

End GetValue.




Lemma getValue_invalid_note_witness :
  truthy (prop payload_bad_note "freq") = false
  /\ nullish (prop payload_bad_note "note") (prop payload_bad_note "n") = VStr "not-a-note"
  /\ noteToMidi (Core := stub_core) "not-a-note" = Throw (Error "not a note: not-a-note")
  /\ getValue (core := stub_core) {| whole := at_zero; hap_value := VObj payload_bad_note |}
     = Return (VNum 0%float).
Proof.
  assert (Hfreq : truthy (prop payload_bad_note "freq") = false)
    by (vm_compute; reflexivity).
  assert (Hnote : nullish (prop payload_bad_note "note") (prop payload_bad_note "n")
                  = VStr "not-a-note") by (vm_compute; reflexivity).
  assert (Hthrow : noteToMidi (Core := stub_core) "not-a-note"
                   = Throw (Error "not a note: not-a-note")) by reflexivity.
  split; [exact Hfreq|]. split; [exact Hnote|]. split; [exact Hthrow|].
  exact (getValue_invalid_note (core := stub_core) at_zero _ _ _ Hfreq Hnote Hthrow).
Defined.

(** ** Binary64 arithmetic *)

(** *** Powers of two *)

Lemma bpow_pos (e : Z) : (0 < bpow e)%Q.
Proof. apply Qpower_0_lt. reflexivity. Qed.

Lemma bpow_plus (a b : Z) : (bpow (a + b) == bpow a * bpow b)%Q.
Proof. apply Qpower_plus. discriminate. Qed.

Lemma bpow_le (a b : Z) : (a <= b)%Z -> (bpow a <= bpow b)%Q.
Proof. intros H. apply Qpower_le_compat_l; [exact H|]. discriminate. Qed.

Lemma bpow_lt (a b : Z) : (a < b)%Z -> (bpow a < bpow b)%Q.
Proof. intros H. apply Qpower_lt_compat_l; [exact H|]. reflexivity. Qed.

Lemma bpow_lt_inv (a b : Z) : (bpow a < bpow b)%Q -> (a < b)%Z.
Proof.
  intros H. destruct (Z.lt_ge_cases a b) as [Hlt | Hge]; [exact Hlt|].
  apply bpow_le in Hge. lra.
Qed.

Lemma bpow_Z (k : Z) : (0 <= k)%Z -> (bpow k == inject_Z (2 ^ k))%Q.
Proof. intros H. unfold bpow. rewrite Zpower_Qpower by exact H. reflexivity. Qed.

Lemma bpow_succ (e : Z) : (bpow (e + 1) == 2 * bpow e)%Q.
Proof. rewrite bpow_plus. change (bpow 1) with 2%Q. ring. Qed.

(** *** The digits of a mantissa *)

Lemma digits2_size (p : positive) : digits2_pos p = Pos.size p.
Proof. induction p as [p IH | p IH |]; cbn; now rewrite ?IH. Qed.

Lemma Zdigits2_log2 (m : Z) : (0 < m)%Z -> Zdigits2 m = (Z.log2 m + 1)%Z.
Proof.
  destruct m as [|p|p]; try lia. intros _. cbn [Zdigits2]. rewrite digits2_size.
  destruct p; cbn; lia.
Qed.

Lemma Zdigits2_bounds (m : Z) :
  (0 < m)%Z -> (2 ^ (Zdigits2 m - 1) <= m < 2 ^ Zdigits2 m)%Z.
Proof.
  intros H. rewrite Zdigits2_log2 by exact H.
  replace (Z.log2 m + 1 - 1)%Z with (Z.log2 m) by lia.
  apply Z.log2_spec. exact H.
Qed.

Lemma Zdigits2_nonneg (m : Z) : (0 <= Zdigits2 m)%Z.
Proof. destruct m; cbn; lia. Qed.

Lemma Zdigits2_le (m k : Z) : (0 <= k)%Z -> (0 <= m < 2 ^ k)%Z -> (Zdigits2 m <= k)%Z.
Proof.
  intros Hk [H0 Hm]. destruct (Z.eq_dec m 0%Z) as [->|Hne]; [cbn; lia|].
  rewrite Zdigits2_log2 by lia.
  assert (Z.log2 m < k)%Z by (apply Z.log2_lt_pow2; lia). lia.
Qed.

Lemma Zdigits2_pow2 (k : Z) : (0 <= k)%Z -> Zdigits2 (2 ^ k) = (k + 1)%Z.
Proof.
  intros Hk. rewrite Zdigits2_log2 by (apply Z.pow_pos_nonneg; lia).
  now rewrite Z.log2_pow2.
Qed.

Lemma Zdigits2_mul_pow2 (m k : Z) :
  (0 < m)%Z -> (0 <= k)%Z -> Zdigits2 (m * 2 ^ k) = (Zdigits2 m + k)%Z.
Proof.
  intros Hm Hk. rewrite !Zdigits2_log2; [|lia|].
  - rewrite Z.log2_mul_pow2 by lia. lia.
  - apply Z.mul_pos_pos; [lia|]. apply Z.pow_pos_nonneg; lia.
Qed.

(** *** Shifting a mantissa right *)

Lemma iter_pos_nat {A : Type} (f : A -> A) (p : positive) (x : A) :
  SpecFloat.iter_pos f p x = Nat.iter (Pos.to_nat p) f x.
Proof.
  revert x. induction p as [p IH | p IH |]; intros x; cbn [SpecFloat.iter_pos].
  - rewrite !IH, Pos2Nat.inj_xI.
    replace (S (2 * Pos.to_nat p)) with (Pos.to_nat p + (Pos.to_nat p + 1))%nat by lia.
    rewrite !Nat.iter_add. reflexivity.
  - rewrite !IH, Pos2Nat.inj_xO.
    replace (2 * Pos.to_nat p)%nat with (Pos.to_nat p + Pos.to_nat p)%nat by lia.
    rewrite Nat.iter_add. reflexivity.
  - reflexivity.
Qed.

Lemma shr_1_inbetween (y : Q) (mrs : shr_record) :
  (0 <= shr_m mrs)%Z -> inbetween y mrs ->
  inbetween (y * (1 # 2)) (shr_1 mrs) /\ shr_m (shr_1 mrs) = (shr_m mrs / 2)%Z.
Proof.
  destruct mrs as [m r s]. cbn [shr_m]. intros Hm.
  assert (Hodd : forall q, (inject_Z (Z.pos q~1) == 2 * inject_Z (Z.pos q) + 1)%Q).
  { intros q. rewrite Pos2Z.inj_xI, inject_Z_plus, inject_Z_mult. reflexivity. }
  assert (Heven : forall q, (inject_Z (Z.pos q~0) == 2 * inject_Z (Z.pos q))%Q).
  { intros q. rewrite Pos2Z.inj_xO, inject_Z_mult. reflexivity. }
  destruct m as [|[q|q|]|p]; [| | | |lia].
  - change (inject_Z 0) with 0%Q.
    destruct r, s; cbv [inbetween shr_1 shr_m shr_r shr_s orb];
      change (inject_Z 0) with 0%Q; intros H; (split; [|reflexivity]); lra.
  - specialize (Hodd q). intros H. split.
    + destruct r, s; cbv [inbetween shr_1 shr_m shr_r shr_s orb] in *; lra.
    + cbn [shr_1 shr_m]. rewrite Pos2Z.inj_xI.
      apply (Z.div_unique _ 2 _ 1); lia.
  - specialize (Heven q). intros H. split.
    + destruct r, s; cbv [inbetween shr_1 shr_m shr_r shr_s orb] in *; lra.
    + cbn [shr_1 shr_m]. rewrite Pos2Z.inj_xO.
      apply (Z.div_unique _ 2 _ 0); lia.
  - intros H. split.
    + destruct r, s; cbv [inbetween shr_1 shr_m shr_r shr_s orb] in *;
        change (inject_Z 1) with 1%Q in *; change (inject_Z 0) with 0%Q; lra.
    + destruct r, s; reflexivity.
Qed.

Lemma iter_shr_1_inbetween (n : nat) (y : Q) (mrs : shr_record) :
  (0 <= shr_m mrs)%Z -> inbetween y mrs ->
  inbetween (y / bpow (Z.of_nat n)) (Nat.iter n shr_1 mrs)
  /\ shr_m (Nat.iter n shr_1 mrs) = (shr_m mrs / 2 ^ Z.of_nat n)%Z.
Proof.
  intros Hm Hy. induction n as [|n [IHy IHm]].
  - cbn [Nat.iter nat_rect Z.of_nat]. change (bpow 0) with 1%Q.
    split; [|now rewrite Z.div_1_r].
    assert (E : (y / 1 == y)%Q) by (field).
    unfold inbetween in *. destruct (shr_r mrs), (shr_s mrs); rewrite E; exact Hy.
  - rewrite Nat.iter_succ.
    assert (Hm' : (0 <= shr_m (Nat.iter n shr_1 mrs))%Z).
    { rewrite IHm. apply Z.div_pos; [exact Hm|]. apply Z.pow_pos_nonneg; lia. }
    destruct (shr_1_inbetween _ _ Hm' IHy) as [Hy1 Hm1].
    split.
    + assert (E : (y / bpow (Z.of_nat (S n)) == y / bpow (Z.of_nat n) * (1 # 2))%Q).
      { rewrite Nat2Z.inj_succ. unfold Z.succ. rewrite bpow_succ.
        field. pose proof (bpow_pos (Z.of_nat n)). lra. }
      unfold inbetween in *.
      destruct (shr_r (shr_1 _)), (shr_s (shr_1 _)); rewrite E; exact Hy1.
    + rewrite Hm1, IHm, Nat2Z.inj_succ. unfold Z.succ.
      rewrite Z.pow_add_r, Z.pow_1_r by lia.
      rewrite Z.div_div; [reflexivity| |lia].
      apply Z.pow_nonzero; lia.
Qed.

Lemma shr_inbetween (y : Q) (mrs : shr_record) (e n : Z) :
  (0 <= n)%Z -> (0 <= shr_m mrs)%Z -> inbetween y mrs ->
  (shr mrs e n).2 = (e + n)%Z
  /\ inbetween (y / bpow n) (shr mrs e n).1
  /\ shr_m (shr mrs e n).1 = (shr_m mrs / 2 ^ n)%Z.
Proof.
  intros Hn Hm Hy. destruct n as [|p|p]; [| |lia].
  - cbn [shr fst snd]. split; [lia|]. rewrite Z.pow_0_r, Z.div_1_r. split; [|reflexivity].
    change (bpow 0) with 1%Q.
    assert (E : (y / 1 == y)%Q) by (field).
    unfold inbetween in *. destruct (shr_r mrs), (shr_s mrs); rewrite E; exact Hy.
  - cbn [shr fst snd]. split; [reflexivity|]. rewrite iter_pos_nat.
    rewrite <- (positive_nat_Z p). now apply iter_shr_1_inbetween.
Qed.

(** *** Rounding to nearest, ties to even *)

Lemma inbetween_lower (y : Q) (mrs : shr_record) :
  inbetween y mrs -> (inject_Z (shr_m mrs) <= y)%Q.
Proof.
  destruct mrs as [m r s]. destruct r, s; cbv [inbetween shr_m shr_r shr_s]; lra.
Qed.

Lemma shr_m_of_loc (m : Z) (l : location) : shr_m (shr_record_of_loc m l) = m.
Proof. destruct l as [|[]]; reflexivity. Qed.

Lemma round_nearest_even_spec (y : Q) (mrs : shr_record) :
  inbetween y mrs ->
  (Qabs (inject_Z (round_nearest_even (shr_m mrs) (loc_of_shr_record mrs)) - y) <= 1 # 2)%Q
  /\ (shr_m mrs <= round_nearest_even (shr_m mrs) (loc_of_shr_record mrs) <= shr_m mrs + 1)%Z
  /\ forall k : Z,
       ((inject_Z k <= y)%Q
        -> (k <= round_nearest_even (shr_m mrs) (loc_of_shr_record mrs))%Z)
       /\ ((y <= inject_Z k)%Q
           -> (round_nearest_even (shr_m mrs) (loc_of_shr_record mrs) <= k)%Z).
Proof.
  destruct mrs as [m r s].
  assert (Hsucc : (inject_Z (m + 1) == inject_Z m + 1)%Q).
  { rewrite inject_Z_plus. reflexivity. }
  assert (Hint : forall k : Z,
             ((inject_Z k < inject_Z m + 1)%Q -> (k <= m)%Z)
             /\ ((inject_Z m < inject_Z k)%Q -> (m + 1 <= k)%Z)
             /\ ((inject_Z m <= inject_Z k)%Q -> (m <= k)%Z)).
  { intros k. split; [|split].
    - intros H. rewrite <- Hsucc, <- Zlt_Qlt in H. lia.
    - intros H. rewrite <- Zlt_Qlt in H. lia.
    - intros H. rewrite <- Zle_Qle in H. exact H. }
  destruct r, s; cbv [inbetween shr_m shr_r shr_s loc_of_shr_record round_nearest_even];
    intros H; try destruct (Z.even m);
    (split; [apply Qabs_Qle_condition; lra |
             split; [lia | intros k; destruct (Hint k) as (H1 & H2 & H3);
                           split; intros Hk;
                           first [ assert (Hk' : (k <= m)%Z) by (apply H1; lra); lia
                                 | assert (Hk' : (m + 1 <= k)%Z) by (apply H2; lra); lia
                                 | assert (Hk' : (m <= k)%Z) by (apply H3; lra); lia ]]]).
Qed.

Lemma binary_round_aux_spec (s : bool) (m e : Z) (l : location) (x : Q) :
  (0 <= m)%Z ->
  inbetween (x / bpow e) (shr_record_of_loc m l) ->
  (e <= fexp prec emax (Zdigits2 m + e))%Z ->
  (x < bpow 1023)%Q ->
  SFfinite (binary_round_aux prec emax s m e l) = true
  /\ exists v : Q,
       (B2Q (binary_round_aux prec emax s m e l) == if s then - v else v)%Q
       /\ (0 <= v)%Q
       /\ (Qabs (v - x) <= x * bpow (-53) + bpow (-1075))%Q
       /\ ((x == 0)%Q -> (v == 0)%Q)
       /\ forall (my : positive) (ey : Z),
            ey = fexp prec emax (Zdigits2 (Z.pos my) + ey) ->
            ((exact my ey <= x)%Q -> (exact my ey <= v)%Q)
            /\ ((x <= exact my ey)%Q -> (v <= exact my ey)%Q).
Proof.
  intros Hm Hx He Hlt.
  pose proof (inbetween_lower _ _ Hx) as Hlow. rewrite shr_m_of_loc in Hlow.
  pose proof (bpow_pos e) as He0.
  assert (Hx0 : (inject_Z m * bpow e <= x)%Q).
  { assert (E : (x == x / bpow e * bpow e)%Q) by (field; lra).
    rewrite E. apply Qmult_le_compat_r; lra. }
  assert (Hm0 : (0 <= inject_Z m)%Q).
  { change 0%Q with (inject_Z 0). rewrite <- Zle_Qle. exact Hm. }
  assert (Hxpos : (0 <= x)%Q) by nra.
  set (d := (Zdigits2 m + e)%Z) in *.
  set (e1 := fexp prec emax d) in *.
  set (n := (e1 - e)%Z).
  assert (Hn : (0 <= n)%Z) by lia.
  assert (He1 : e1 = Z.max (d - 53) (-1074)) by reflexivity.
  (* the magnitude of x *)
  assert (Hmag : (0 < m)%Z -> (bpow (d - 1) <= x)%Q /\ (d <= 1023)%Z).
  { intros Hpos. destruct (Zdigits2_bounds m Hpos) as [Hlo _].
    assert (Hd : (bpow (d - 1) <= x)%Q).
    { replace (d - 1)%Z with ((Zdigits2 m - 1) + e)%Z by lia.
      rewrite bpow_plus, bpow_Z by (pose proof (Zdigits2_log2 m Hpos);
                                   pose proof (Z.log2_nonneg m); lia).
      apply Qle_trans with (inject_Z m * bpow e)%Q; [|exact Hx0].
      apply Qmult_le_compat_r; [|lra]. rewrite <- Zle_Qle. exact Hlo. }
    split; [exact Hd|].
    assert (Hlt' : (bpow (d - 1) < bpow 1023)%Q) by lra.
    apply bpow_lt_inv in Hlt'. lia. }
  assert (Hzero : m = 0%Z -> e1 = (-1074)%Z).
  { intros ->. subst d. cbn [Zdigits2] in *. unfold e1 in *.
    unfold fexp, emin, prec, emax in *. lia. }
  (* the first shift *)
  unfold binary_round_aux, shr_fexp. fold d. fold e1. fold n.
  assert (Hm' : (0 <= shr_m (shr_record_of_loc m l))%Z) by now rewrite shr_m_of_loc.
  destruct (shr_inbetween _ _ e n Hn Hm' Hx) as (Hshift & Hy1 & Hm1).
  rewrite shr_m_of_loc in Hm1.
  destruct (shr (shr_record_of_loc m l) e n) as [mrs1 e1'].
  cbn [fst snd] in Hshift, Hy1, Hm1. subst e1'. replace (e + n)%Z with e1 by lia.
  (* rounding *)
  destruct (round_nearest_even_spec _ _ Hy1) as (Hround & Hbounds & Hinteger).
  set (m2 := round_nearest_even (shr_m mrs1) (loc_of_shr_record mrs1)) in *.
  set (k := Z.max 0 (d - e1)).
  assert (Hk : (0 <= k <= 53)%Z) by lia.
  assert (Hm1k : (0 <= shr_m mrs1 < 2 ^ k)%Z).
  { rewrite Hm1. split; [apply Z.div_pos; [lia | apply Z.pow_pos_nonneg; lia]|].
    destruct (Z.eq_dec m 0%Z) as [->|Hne].
    - rewrite Z.div_0_l by (apply Z.pow_nonzero; lia). apply Z.pow_pos_nonneg; lia.
    - apply Z.div_lt_upper_bound; [apply Z.pow_pos_nonneg; lia|].
      rewrite <- Z.pow_add_r by lia.
      destruct (Zdigits2_bounds m ltac:(lia)) as [_ Hhi].
      apply Z.lt_le_trans with (1 := Hhi). apply Z.pow_le_mono_r; lia. }
  assert (Hm2 : (0 <= m2 <= 2 ^ k)%Z) by lia.
  (* the second shift *)
  set (n2 := (fexp prec emax (Zdigits2 m2 + e1) - e1)%Z).
  assert (Hn2 : (n2 <= 0)%Z \/ (n2 = 1%Z /\ m2 = (2 ^ 53)%Z)).
  { destruct (Z.eq_dec m2 (2 ^ k)%Z) as [E | Hne].
    - assert (Hd2 : Zdigits2 m2 = (k + 1)%Z) by (rewrite E; apply Zdigits2_pow2; lia).
      subst n2. rewrite Hd2. unfold fexp, emin, prec, emax.
      destruct (Z.eq_dec k 53%Z) as [Ek | Hk53].
      + right. split; [lia|]. now rewrite E, Ek.
      + left. lia.
    - left. assert (Hd2 : (Zdigits2 m2 <= k)%Z) by (apply Zdigits2_le; lia).
      subst n2. unfold fexp, emin, prec, emax. lia. }
  set (v := (inject_Z m2 * bpow e1)%Q).
  assert (Hv0 : (0 <= v)%Q).
  { unfold v. pose proof (bpow_pos e1).
    assert (0 <= inject_Z m2)%Q by (change 0%Q with (inject_Z 0); rewrite <- Zle_Qle; lia).
    nra. }
  assert (Herr : (Qabs (v - x) <= x * bpow (-53) + bpow (-1075))%Q).
  { pose proof (bpow_pos e1) as HB.
    assert (Ex : (x == x / bpow e / bpow n * bpow e1)%Q).
    { replace e1 with (e + n)%Z by lia. rewrite bpow_plus.
      field. pose proof (bpow_pos n). lra. }
    set (y1 := (x / bpow e / bpow n)%Q) in *.
    apply Qabs_Qle_condition in Hround.
    assert (Hhalf : (Qabs (v - x) <= bpow e1 * (1 # 2))%Q).
    { apply Qabs_Qle_condition. unfold v. rewrite Ex. split; nra. }
    apply Qle_trans with (1 := Hhalf).
    assert (Ehalf : (bpow e1 * (1 # 2) == bpow (e1 - 1))%Q).
    { replace e1 with ((e1 - 1) + 1)%Z at 1 by lia. rewrite bpow_succ. ring. }
    rewrite Ehalf.
    destruct (Z.eq_dec e1 (-1074)%Z) as [Emin | Hnorm].
    - rewrite Emin. change (-1074 - 1)%Z with (-1075)%Z.
      pose proof (bpow_pos (-53)). nra.
    - assert (Hpos : (0 < m)%Z).
      { destruct (Z.eq_dec m 0%Z) as [E0 | Hne]; [|lia]. now apply Hzero in E0. }
      destruct (Hmag Hpos) as [Hd _].
      replace (e1 - 1)%Z with ((d - 1) + (-53))%Z by lia.
      rewrite bpow_plus. pose proof (bpow_pos (-53)). pose proof (bpow_pos (-1075)). nra. }
  assert (Ex : (x == x / bpow e / bpow n * bpow e1)%Q).
  { replace e1 with (e + n)%Z by lia. rewrite bpow_plus.
    field. pose proof (bpow_pos n). lra. }
  assert (Hexact : forall j : Z,
             ((inject_Z j * bpow e1 <= x)%Q -> (inject_Z j * bpow e1 <= v)%Q)
             /\ ((x <= inject_Z j * bpow e1)%Q -> (v <= inject_Z j * bpow e1)%Q)).
  { intros j. pose proof (bpow_pos e1) as HB. destruct (Hinteger j) as [Hlo Hhi].
    set (y1 := (x / bpow e / bpow n)%Q) in *.
    split; intros Hj.
    - assert (Hj' : (inject_Z j <= y1)%Q).
      { destruct (Qlt_le_dec y1 (inject_Z j)) as [Hc | Hc]; [exfalso; nra | exact Hc]. }
      apply Hlo in Hj'. rewrite Zle_Qle in Hj'. unfold v. nra.
    - assert (Hj' : (y1 <= inject_Z j)%Q).
      { destruct (Qlt_le_dec (inject_Z j) y1) as [Hc | Hc]; [exfalso; nra | exact Hc]. }
      apply Hhi in Hj'. rewrite Zle_Qle in Hj'. unfold v. nra. }
  assert (Hnull : (x == 0)%Q -> (v == 0)%Q).
  { intros E0. destruct (Hexact 0%Z) as [_ Hhi]. change (inject_Z 0) with 0%Q in Hhi.
    assert (v <= 0 * bpow e1)%Q by (apply Hhi; lra). lra. }
  assert (Hmono : forall (my : positive) (ey : Z),
             ey = fexp prec emax (Zdigits2 (Z.pos my) + ey) ->
             ((exact my ey <= x)%Q -> (exact my ey <= v)%Q)
             /\ ((x <= exact my ey)%Q -> (v <= exact my ey)%Q)).
  { intros my ey Hcan. destruct (Z_le_gt_dec e1 ey) as [Hge | Hgt].
    - (* a multiple of the unit in the last place of the result *)
      assert (E : (exact my ey == inject_Z (Z.pos my * 2 ^ (ey - e1)) * bpow e1)%Q).
      { unfold exact. fold (bpow ey). replace ey with ((ey - e1) + e1)%Z at 1 by lia.
        rewrite bpow_plus, bpow_Z, inject_Z_mult by lia. ring. }
      rewrite E. apply Hexact.
    - (* a value below the binade of the result *)
      assert (Hnorm : e1 = (d - 53)%Z).
      { revert Hcan. unfold fexp, emin, prec, emax. lia. }
      assert (Hpos : (0 < m)%Z).
      { destruct (Z.eq_dec m 0%Z) as [E0 | Hne]; [|lia]. apply Hzero in E0.
        revert Hcan. unfold fexp, emin, prec, emax. lia. }
      destruct (Hmag Hpos) as [Hd _].
      assert (Hbelow : (exact my ey < bpow (d - 1))%Q).
      { destruct (Zdigits2_bounds (Z.pos my) ltac:(lia)) as [_ Hhi].
        assert (Hdy : (Zdigits2 (Z.pos my) + ey <= d - 1)%Z).
        { revert Hcan. unfold fexp, emin, prec, emax. lia. }
        apply Qlt_le_trans with (bpow (Zdigits2 (Z.pos my) + ey)); [|now apply bpow_le].
        unfold exact. fold (bpow ey).
        rewrite bpow_plus, (bpow_Z (Zdigits2 (Z.pos my))) by apply Zdigits2_nonneg.
        apply Qmult_lt_compat_r; [apply bpow_pos|]. rewrite <- Zlt_Qlt. exact Hhi. }
      assert (Hv : (bpow (d - 1) <= v)%Q).
      { destruct (Hexact (2 ^ 52)%Z) as [Hlo _].
        assert (E : (inject_Z (2 ^ 52) * bpow e1 == bpow (d - 1))%Q).
        { replace (d - 1)%Z with (52 + e1)%Z by lia.
          rewrite bpow_plus, (bpow_Z 52) by lia. reflexivity. }
        rewrite E in Hlo. apply Hlo. exact Hd. }
      split; intros Hxy; lra. }
  assert (He971 : (e1 + 1 <= 971)%Z).
  { destruct (Z.eq_dec m 0%Z) as [E0 | Hne]; [apply Hzero in E0; lia|].
    destruct (Hmag ltac:(lia)) as [_ Hd]. lia. }
  destruct Hn2 as [Hn2 | [Hn2 E53]].
  - (* no second shift *)
    assert (Eshr : shr (shr_record_of_loc m2 loc_Exact) e1 n2
                   = (shr_record_of_loc m2 loc_Exact, e1)).
    { destruct n2; try reflexivity. lia. }
    rewrite Eshr. cbn [shr_record_of_loc shr_m].
    destruct m2 as [|p|p]; [| |lia].
    + split; [reflexivity|]. exists v. split; [|repeat split; auto; apply Hmono; auto].
      unfold v. cbn [B2Q]. destruct s; ring.
    + replace (e1 <=? emax - prec)%Z with true
        by (symmetry; apply Z.leb_le; unfold emax, prec; lia).
      split; [reflexivity|]. exists v. split; [|repeat split; auto; apply Hmono; auto].
      cbn [B2Q]. unfold exact. fold (bpow e1). unfold v. destruct s; reflexivity.
  - (* the rounding carried into a new digit *)
    rewrite Hn2, E53. cbn [shr shr_record_of_loc].
    change (shr_m (SpecFloat.iter_pos shr_1 1
                     {| shr_m := 2 ^ 53; shr_r := false; shr_s := false |}))
      with (Z.pos 4503599627370496).
    cbv iota.
    replace (e1 + 1 <=? emax - prec)%Z with true
      by (symmetry; apply Z.leb_le; unfold emax, prec; lia).
    split; [reflexivity|]. exists v. split; [|repeat split; auto; apply Hmono; auto].
    cbn [B2Q]. unfold exact. fold (bpow (e1 + 1)). unfold v.
    assert (E : (inject_Z (2 ^ 53) == 2 * inject_Z (Z.pos 4503599627370496))%Q)
      by reflexivity.
    destruct s; rewrite E53, bpow_succ, E; ring.
Qed.

(** *** The operations *)

Lemma rounds_signed (s : bool) (r v x B : Q) :
  (r == if s then - v else v)%Q -> (0 <= x)%Q -> (Qabs (v - x) <= x * bpow (-53) + B)%Q ->
  (Qabs (r - (if s then - x else x))
   <= Qabs (if s then - x else x) * bpow (-53) + B)%Q.
Proof.
  intros Hr Hx Hv.
  assert (Eabs : (Qabs (if s then - x else x) == x)%Q).
  { destruct s; [rewrite Qabs_opp|]; apply Qabs_pos; exact Hx. }
  rewrite Eabs. apply Qabs_Qle_condition in Hv. apply Qabs_Qle_condition.
  destruct s; rewrite Hr; lra.
Qed.

Lemma exact_pos (m : positive) (e : Z) : (0 < exact m e)%Q.
Proof.
  unfold exact. fold (bpow e). pose proof (bpow_pos e).
  assert (0 < inject_Z (Z.pos m))%Q by (change 0%Q with (inject_Z 0); rewrite <- Zlt_Qlt; lia).
  nra.
Qed.

Lemma valid_finite (s : bool) (m : positive) (e : Z) :
  valid_binary (S754_finite s m e) = true ->
  e = fexp prec emax (Zdigits2 (Z.pos m) + e) /\ (e <= 971)%Z.
Proof.
  cbn [SpecFloat.valid_binary]. unfold bounded, canonical_mantissa.
  intros H. apply andb_prop in H as [Hc He].
  apply Z.eqb_eq in Hc. apply Z.leb_le in He. split; [symmetry; exact Hc | exact He].
Qed.

Lemma binary_round_aux_nearest (s : bool) (m e : Z) (l : location) (x : Q) :
  (0 <= m)%Z ->
  inbetween (x / bpow e) (shr_record_of_loc m l) ->
  (e <= fexp prec emax (Zdigits2 m + e))%Z ->
  (x < bpow 1023)%Q ->
  nearest_to (binary_round_aux prec emax s m e l) (if s then - x else x).
Proof.
  intros Hm Hx He Hlt.
  destruct (binary_round_aux_spec s m e l x Hm Hx He Hlt)
    as (Hfin & v & Hv & Hv0 & Herr & Hnull & Hmono).
  assert (Hx0 : (0 <= x)%Q).
  { pose proof (inbetween_lower _ _ Hx) as Hlow. rewrite shr_m_of_loc in Hlow.
    assert (Hm0 : (0 <= inject_Z m)%Q).
    { change 0%Q with (inject_Z 0). rewrite <- Zle_Qle. exact Hm. }
    pose proof (bpow_pos e) as He0.
    assert (E : (x == x / bpow e * bpow e)%Q) by (field; lra).
    rewrite E. nra. }
  split.
  - split; [exact Hfin|]. apply (rounds_signed s _ v x); assumption.
  - intros Y HvY HfY. rewrite Hv.
    assert (Hnull' : (x <= 0)%Q -> (v == 0)%Q) by (intros H; apply Hnull; lra).
    destruct Y as [sy | sy | | sy my ey]; try discriminate; cbn [B2Q].
    + destruct s; split; intros H; try lra;
        assert (E0 : (v == 0)%Q) by (apply Hnull'; lra); lra.
    + destruct (valid_finite _ _ _ HvY) as [Hcan _].
      destruct (Hmono my ey Hcan) as [Hlo Hhi]. pose proof (exact_pos my ey) as Hpos.
      destruct s, sy; split; intros H;
        first [ lra
              | assert (Hlo' : (exact my ey <= v)%Q) by (apply Hlo; lra); lra
              | assert (Hhi' : (v <= exact my ey)%Q) by (apply Hhi; lra); lra ].
Qed.

Lemma nearest_to_exact (X : spec_float) (x : Q) :
  SFfinite X = true -> (B2Q X == x)%Q -> nearest_to X x.
Proof.
  intros Hf E. split.
  - split; [exact Hf|]. rewrite E.
    assert (E0 : (Qabs (x - x) == 0)%Q).
    { assert (Ex : (x - x == 0)%Q) by ring. rewrite Ex. reflexivity. }
    rewrite E0. pose proof (bpow_pos (-1075)). pose proof (bpow_pos (-53)).
    pose proof (Qabs_nonneg x). nra.
  - intros Y _ _. rewrite E. tauto.
Qed.

Lemma nearest_to_proper (r : spec_float) (x x' : Q) :
  (x == x')%Q -> nearest_to r x -> nearest_to r x'.
Proof.
  intros E [[Hf Herr] Horder]. split.
  - split; [exact Hf|]. rewrite <- E. exact Herr.
  - intros Y HvY HfY. rewrite <- E. now apply Horder.
Qed.

Lemma Zdigits2_ge (m k : Z) : (0 <= k)%Z -> (2 ^ k <= m)%Z -> (k + 1 <= Zdigits2 m)%Z.
Proof.
  intros Hk Hm. assert (Hpos : (0 < m)%Z).
  { apply Z.lt_le_trans with (2 := Hm). apply Z.pow_pos_nonneg; lia. }
  rewrite Zdigits2_log2 by exact Hpos.
  assert (k <= Z.log2 m)%Z by (apply Z.log2_le_pow2; assumption). lia.
Qed.

Lemma SFmul_nearest (X Y : spec_float) :
  valid_binary X = true -> valid_binary Y = true ->
  SFfinite X = true -> SFfinite Y = true ->
  (Qabs (B2Q X * B2Q Y) < bpow 1023)%Q ->
  nearest_to (SFmul prec emax X Y) (B2Q X * B2Q Y).
Proof.
  intros HvX HvY HfX HfY Hlt.
  destruct X as [sx | sx | | sx mx ex], Y as [sy | sy | | sy my ey]; try discriminate;
    cbn [SFmul B2Q].
  - apply nearest_to_exact; [reflexivity | cbn [B2Q]; ring].
  - apply nearest_to_exact; [reflexivity | cbn [B2Q]; ring].
  - apply nearest_to_exact; [reflexivity | cbn [B2Q]; ring].
  - destruct (valid_finite _ _ _ HvX) as [Hcx _].
    destruct (valid_finite _ _ _ HvY) as [Hcy _].
    pose proof (exact_pos mx ex) as Hx0. pose proof (exact_pos my ey) as Hy0.
    assert (Eprod : ((if sx then - exact mx ex else exact mx ex)
                     * (if sy then - exact my ey else exact my ey)
                     == if xorb sx sy then - (exact mx ex * exact my ey)
                        else exact mx ex * exact my ey)%Q).
    { destruct sx, sy; cbn [xorb]; ring. }
    cbn [B2Q] in Hlt. rewrite Eprod in Hlt.
    apply (nearest_to_proper _ _ _ (Qeq_sym _ _ Eprod)).
    assert (Habs : (exact mx ex * exact my ey < bpow 1023)%Q).
    { assert (E : (Qabs (if xorb sx sy then - (exact mx ex * exact my ey)
                         else exact mx ex * exact my ey)
                   == exact mx ex * exact my ey)%Q).
      { destruct (xorb sx sy); [rewrite Qabs_opp|]; apply Qabs_pos; nra. }
      rewrite E in Hlt. exact Hlt. }
    apply binary_round_aux_nearest; [lia| | |exact Habs].
    + cbn [shr_record_of_loc]. cbv [inbetween shr_m shr_r shr_s].
      unfold exact. fold (bpow ex). fold (bpow ey). rewrite bpow_plus.
      rewrite Pos2Z.inj_mul, inject_Z_mult. field.
      pose proof (bpow_pos ex). pose proof (bpow_pos ey). split; lra.
    + destruct (Zdigits2_bounds (Z.pos mx) ltac:(lia)) as [Hlx _].
      destruct (Zdigits2_bounds (Z.pos my) ltac:(lia)) as [Hly _].
      assert (Hdx : (1 <= Zdigits2 (Z.pos mx))%Z)
        by (rewrite Zdigits2_log2 by lia; pose proof (Z.log2_nonneg (Z.pos mx)); lia).
      assert (Hdy : (1 <= Zdigits2 (Z.pos my))%Z)
        by (rewrite Zdigits2_log2 by lia; pose proof (Z.log2_nonneg (Z.pos my)); lia).
      assert (Hd : (Zdigits2 (Z.pos mx) + Zdigits2 (Z.pos my) - 1
                    <= Zdigits2 (Z.pos (mx * my)))%Z).
      { replace (Zdigits2 (Z.pos mx) + Zdigits2 (Z.pos my) - 1)%Z
          with ((Zdigits2 (Z.pos mx) - 1 + (Zdigits2 (Z.pos my) - 1)) + 1)%Z by lia.
        apply Zdigits2_ge; [lia|]. rewrite Z.pow_add_r by lia.
        rewrite Pos2Z.inj_mul. apply Z.mul_le_mono_nonneg; try assumption;
          apply Z.pow_nonneg; lia. }
      clear Hlx Hly. revert Hcx Hcy Hd Hdx Hdy. unfold fexp, emin, prec, emax.
      generalize (Zdigits2 (Z.pos mx)) (Zdigits2 (Z.pos my)) (Zdigits2 (Z.pos (mx * my))).
      intros. lia.
Qed.

Lemma iter_xO (m d : positive) : Z.pos (Pos.iter xO m d) = (Z.pos m * 2 ^ Z.pos d)%Z.
Proof.
  induction d as [|d IH] using Pos.peano_ind.
  - cbn [Pos.iter]. rewrite Z.pow_1_r. lia.
  - rewrite Pos.iter_succ, Pos2Z.inj_xO, IH, Pos2Z.inj_succ, Z.pow_succ_r by lia. lia.
Qed.

(** [shl_align] keeps the value and brings the exponent down to [e']. *)
Lemma shl_align_spec (m : positive) (e e' : Z) :
  (inject_Z (Z.pos (shl_align m e e').1) * bpow (shl_align m e e').2
   == inject_Z (Z.pos m) * bpow e)%Q
  /\ (shl_align m e e').2 = Z.min e e'
  /\ (Zdigits2 (Z.pos (shl_align m e e').1) + (shl_align m e e').2
      = Zdigits2 (Z.pos m) + e)%Z.
Proof.
  unfold shl_align. destruct (e' - e)%Z as [|d|d] eqn:Ed; cbn [fst snd].
  - split; [reflexivity|]. split; lia.
  - split; [reflexivity|]. split; lia.
  - rewrite iter_xO. split; [|split; [lia|]].
    + replace e with (Z.pos d + e')%Z by lia.
      rewrite bpow_plus, inject_Z_mult, <- bpow_Z by lia. ring.
    + rewrite Zdigits2_mul_pow2 by lia. lia.
Qed.

Lemma binary_round_nearest (s : bool) (m : positive) (e : Z) :
  (exact m e < bpow 1023)%Q ->
  nearest_to (binary_round prec emax s m e) (if s then - exact m e else exact m e).
Proof.
  intros Hlt. unfold binary_round.
  destruct (shl_align_spec m e (fexp prec emax (Z.pos (digits2_pos m) + e)))
    as (Hvalue & Hexp & Hdigits).
  destruct (shl_align m e _) as [mz ez]. cbn [fst snd] in *.
  apply binary_round_aux_nearest; [lia| | |exact Hlt].
  - cbn [shr_record_of_loc]. cbv [inbetween shr_m shr_r shr_s].
    unfold exact. fold (bpow e). rewrite <- Hvalue. field.
    pose proof (bpow_pos ez). lra.
  - rewrite Hdigits. cbn [Zdigits2]. lia.
Qed.

Lemma binary_normalize_nearest (m e : Z) :
  (Qabs (inject_Z m * bpow e) < bpow 1023)%Q ->
  nearest_to (binary_normalize prec emax m e false) (inject_Z m * bpow e).
Proof.
  intros Hlt. destruct m as [|p|p]; cbn [binary_normalize].
  - apply nearest_to_exact; [reflexivity|]. cbn [B2Q].
    change (inject_Z 0) with 0%Q. ring.
  - pose proof (exact_pos p e) as Hpos.
    change (inject_Z (Z.pos p) * bpow e)%Q with (exact p e) in *.
    rewrite Qabs_pos in Hlt by lra.
    exact (binary_round_nearest false p e Hlt).
  - pose proof (exact_pos p e) as Hpos.
    assert (E : (inject_Z (Z.neg p) * bpow e == - exact p e)%Q).
    { unfold exact. fold (bpow e). change (Z.neg p) with (- Z.pos p)%Z.
      rewrite inject_Z_opp. ring. }
    rewrite E in Hlt. apply (nearest_to_proper _ _ _ (Qeq_sym _ _ E)).
    rewrite Qabs_opp, Qabs_pos in Hlt by lra.
    exact (binary_round_nearest true p e Hlt).
Qed.

Lemma aligned (s : bool) (m : positive) (e ez : Z) :
  (ez <= e)%Z ->
  (inject_Z (cond_Zopp s (Z.pos (shl_align m e ez).1)) * bpow ez
   == B2Q (S754_finite s m e))%Q.
Proof.
  intros Hle. destruct (shl_align_spec m e ez) as (Hvalue & Hexp & _).
  rewrite Z.min_r in Hexp by exact Hle. rewrite Hexp in Hvalue.
  cbn [B2Q]. unfold exact. fold (bpow e).
  destruct s; cbn [cond_Zopp]; [rewrite inject_Z_opp|]; rewrite <- Hvalue; ring.
Qed.

Lemma SFadd_nearest (X Y : spec_float) :
  SFfinite X = true -> SFfinite Y = true ->
  (Qabs (B2Q X + B2Q Y) < bpow 1023)%Q ->
  nearest_to (SFadd prec emax X Y) (B2Q X + B2Q Y).
Proof.
  intros HfX HfY Hlt.
  destruct X as [sx | sx | | sx mx ex], Y as [sy | sy | | sy my ey]; try discriminate;
    cbn [SFadd].
  - apply nearest_to_exact; [now destruct sx, sy|]. destruct sx, sy; cbn [B2Q]; ring.
  - apply nearest_to_exact; [reflexivity|]. cbn [B2Q]. ring.
  - apply nearest_to_exact; [reflexivity|]. cbn [B2Q]. ring.
  - cbv zeta.
    assert (E : (inject_Z (cond_Zopp sx (Z.pos (shl_align mx ex (Z.min ex ey)).1)
                           + cond_Zopp sy (Z.pos (shl_align my ey (Z.min ex ey)).1))
                 * bpow (Z.min ex ey)
                 == B2Q (S754_finite sx mx ex) + B2Q (S754_finite sy my ey))%Q).
    { rewrite inject_Z_plus, Qmult_plus_distr_l, !aligned by lia. reflexivity. }
    rewrite <- E in Hlt. apply (nearest_to_proper _ _ _ E).
    apply binary_normalize_nearest. exact Hlt.
Qed.

Lemma SFsub_nearest (X Y : spec_float) :
  SFfinite X = true -> SFfinite Y = true ->
  (Qabs (B2Q X - B2Q Y) < bpow 1023)%Q ->
  nearest_to (SFsub prec emax X Y) (B2Q X - B2Q Y).
Proof.
  intros HfX HfY Hlt.
  destruct X as [sx | sx | | sx mx ex], Y as [sy | sy | | sy my ey]; try discriminate;
    cbn [SFsub].
  - apply nearest_to_exact; [now destruct sx, sy|]. destruct sx, sy; cbn [B2Q]; ring.
  - apply nearest_to_exact; [reflexivity|]. cbn [B2Q]. destruct sy; cbn [negb]; ring.
  - apply nearest_to_exact; [reflexivity|]. cbn [B2Q]. ring.
  - cbv zeta.
    assert (E : (inject_Z (cond_Zopp sx (Z.pos (shl_align mx ex (Z.min ex ey)).1)
                           - cond_Zopp sy (Z.pos (shl_align my ey (Z.min ex ey)).1))
                 * bpow (Z.min ex ey)
                 == B2Q (S754_finite sx mx ex) - B2Q (S754_finite sy my ey))%Q).
    { unfold Z.sub. rewrite inject_Z_plus, inject_Z_opp.
      assert (Ering : forall a b c : Q, ((a + - b) * c == a * c - b * c)%Q)
        by (intros; ring).
      rewrite Ering, !aligned by lia. reflexivity. }
    rewrite <- E in Hlt. apply (nearest_to_proper _ _ _ E).
    apply binary_normalize_nearest. exact Hlt.
Qed.

(** The location [new_location] gives a remainder. *)
Lemma new_location_inbetween (q r m : Z) :
  (0 <= r < m)%Z ->
  inbetween (inject_Z q + inject_Z r / inject_Z m) (shr_record_of_loc q (new_location m r)).
Proof.
  intros [Hr0 Hrm].
  assert (HM : (0 < inject_Z m)%Q) by (change 0%Q with (inject_Z 0); rewrite <- Zlt_Qlt; lia).
  set (rho := (inject_Z r / inject_Z m)%Q).
  assert (Erho : (rho * inject_Z m == inject_Z r)%Q) by (unfold rho; field; lra).
  assert (Hlt : forall a b : Z, (a < b)%Z -> (inject_Z a < inject_Z b)%Q)
    by (intros a b Hab; rewrite <- Zlt_Qlt; exact Hab).
  assert (H2 : (inject_Z (2 * r) == 2 * rho * inject_Z m)%Q).
  { rewrite inject_Z_mult. change (inject_Z 2) with 2%Q. rewrite <- Erho. ring. }
  assert (Hcase : r = 0%Z \/ (r <> 0%Z /\ (0 < rho)%Q)).
  { destruct (Z.eq_dec r 0%Z) as [E | Hne]; [now left | right].
    split; [exact Hne|]. assert (Hr : (0 < r)%Z) by lia. apply Hlt in Hr.
    change (inject_Z 0) with 0%Q in Hr. nra. }
  unfold new_location.
  destruct (Z.even m) eqn:Heven; unfold new_location_even, new_location_odd;
    destruct Hcase as [E | [Hne Hrho]].
  - rewrite E in Erho |- *. rewrite Z.eqb_refl.
    assert (E0 : (rho == 0)%Q) by (change (inject_Z 0) with 0%Q in Erho; nra).
    cbv [shr_record_of_loc inbetween shr_m shr_r shr_s]. lra.
  - rewrite (proj2 (Z.eqb_neq r 0%Z) Hne).
    destruct (Z.compare_spec (2 * r) m) as [E | Hc | Hc];
      cbv [shr_record_of_loc inbetween shr_m shr_r shr_s].
    + rewrite E in H2. nra.
    + apply Hlt in Hc. split; nra.
    + apply Hlt in Hc. apply Hlt in Hrm. split; nra.
  - rewrite E in Erho |- *. rewrite Z.eqb_refl.
    assert (E0 : (rho == 0)%Q) by (change (inject_Z 0) with 0%Q in Erho; nra).
    cbv [shr_record_of_loc inbetween shr_m shr_r shr_s]. lra.
  - rewrite (proj2 (Z.eqb_neq r 0%Z) Hne).
    assert (Hodd : (2 * r <> m)%Z).
    { intros E. rewrite <- E, Z.even_mul in Heven. discriminate. }
    destruct (Z.compare_spec (2 * r + 1) m) as [E | Hc | Hc];
      cbv [shr_record_of_loc inbetween shr_m shr_r shr_s].
    + assert (Hc : (2 * r < m)%Z) by lia. apply Hlt in Hc. split; nra.
    + assert (Hc' : (2 * r < m)%Z) by lia. apply Hlt in Hc'. split; nra.
    + assert (Hc' : (m < 2 * r)%Z) by lia. apply Hlt in Hc'. apply Hlt in Hrm.
      split; nra.
Qed.

Lemma SFdiv_core_binary_spec (mx my : positive) (ex ey : Z) :
  let '(q, e, l) := SFdiv_core_binary prec emax (Z.pos mx) ex (Z.pos my) ey in
  (0 <= q)%Z
  /\ inbetween (exact mx ex / exact my ey / bpow e) (shr_record_of_loc q l)
  /\ (e <= fexp prec emax (Zdigits2 q + e))%Z.
Proof.
  unfold SFdiv_core_binary.
  set (d1 := Zdigits2 (Z.pos mx)). set (d2 := Zdigits2 (Z.pos my)).
  set (e' := Z.min (fexp prec emax (d1 + ex - (d2 + ey))) (ex - ey)).
  set (s := (ex - ey - e')%Z).
  assert (Hs : (0 <= s)%Z) by lia.
  set (m' := match s with
             | Z0 => Z.pos mx
             | Z.pos _ => Z.shiftl (Z.pos mx) s
             | Z.neg _ => 0%Z
             end).
  assert (Em' : m' = (Z.pos mx * 2 ^ s)%Z).
  { unfold m'. destruct s as [|p|p]; [rewrite Z.pow_0_r; lia| |lia].
    apply Z.shiftl_mul_pow2. lia. }
  pose proof (Z_div_mod m' (Z.pos my) ltac:(lia)) as Hdiv.
  destruct (Z.div_eucl m' (Z.pos my)) as [q r]. destruct Hdiv as [Hdiv Hr].
  assert (Hm'pos : (0 < m')%Z).
  { rewrite Em'. apply Z.mul_pos_pos; [lia|]. apply Z.pow_pos_nonneg; lia. }
  assert (Hq : (0 <= q)%Z) by nia.
  split; [exact Hq|]. split.
  - assert (E : (exact mx ex / exact my ey / bpow e'
                 == inject_Z q + inject_Z r / inject_Z (Z.pos my))%Q).
    { unfold exact. fold (bpow ex). fold (bpow ey).
      assert (HM : (0 < inject_Z (Z.pos my))%Q)
        by (change 0%Q with (inject_Z 0); rewrite <- Zlt_Qlt; lia).
      pose proof (bpow_pos ey). pose proof (bpow_pos e').
      assert (Eex : (bpow ex == bpow s * bpow ey * bpow e')%Q).
      { rewrite <- !bpow_plus. replace (s + ey + e')%Z with ex by lia. reflexivity. }
      assert (Emq : (inject_Z (Z.pos mx) * bpow s
                     == inject_Z (Z.pos my) * inject_Z q + inject_Z r)%Q).
      { rewrite bpow_Z by lia. rewrite <- !inject_Z_mult, <- inject_Z_plus.
        rewrite <- Hdiv, Em'. reflexivity. }
      rewrite Eex. field_simplify_eq; [|repeat split; lra].
      rewrite <- Emq. ring. }
    pose proof (new_location_inbetween q r (Z.pos my) Hr) as Hin.
    unfold inbetween in *.
    destruct (shr_r _), (shr_s _); rewrite E; exact Hin.
  - set (k := (d1 - d2 + s - 1)%Z).
    assert (Hd : (k + 1 <= Zdigits2 q)%Z).
    { destruct (Z.lt_ge_cases k 0) as [Hneg | Hpos].
      - pose proof (Zdigits2_nonneg q). lia.
      - apply Zdigits2_ge; [exact Hpos|].
        assert (Hq' : q = (m' / Z.pos my)%Z).
        { apply (Z.div_unique_pos m' (Z.pos my) q r); lia. }
        rewrite Hq'. apply Z.div_le_lower_bound; [lia|].
        destruct (Zdigits2_bounds (Z.pos mx) ltac:(lia)) as [Hlo _].
        destruct (Zdigits2_bounds (Z.pos my) ltac:(lia)) as [_ Hhi].
        fold d1 in Hlo. fold d2 in Hhi.
        assert (Hd1 : (1 <= d1)%Z).
        { unfold d1. rewrite Zdigits2_log2 by lia.
          pose proof (Z.log2_nonneg (Z.pos mx)). lia. }
        assert (Hd2 : (1 <= d2)%Z).
        { unfold d2. rewrite Zdigits2_log2 by lia.
          pose proof (Z.log2_nonneg (Z.pos my)). lia. }
        rewrite Em'.
        apply Z.le_trans with (2 ^ d2 * 2 ^ k)%Z.
        + apply Z.mul_le_mono_nonneg_r; [apply Z.pow_nonneg; lia | lia].
        + rewrite <- Z.pow_add_r by lia.
          replace (d2 + k)%Z with ((d1 - 1) + s)%Z by lia.
          rewrite Z.pow_add_r by lia.
          apply Z.mul_le_mono_nonneg_r; [apply Z.pow_nonneg; lia | exact Hlo]. }
    revert Hd. unfold k, s, e', fexp, emin, prec, emax.
    generalize (Zdigits2 q). intros. lia.
Qed.

Lemma SFdiv_nearest (X Y : spec_float) :
  SFfinite X = true -> SFfinite Y = true -> ~ (B2Q Y == 0)%Q ->
  (Qabs (B2Q X / B2Q Y) < bpow 1023)%Q ->
  nearest_to (SFdiv prec emax X Y) (B2Q X / B2Q Y).
Proof.
  intros HfX HfY Hne Hlt.
  destruct X as [sx | sx | | sx mx ex], Y as [sy | sy | | sy my ey]; try discriminate;
    cbn [SFdiv]; try (exfalso; apply Hne; reflexivity).
  - apply nearest_to_exact; [reflexivity|]. cbn [B2Q]. unfold Qdiv. ring.
  - pose proof (SFdiv_core_binary_spec mx my ex ey) as Hcore.
    destruct (SFdiv_core_binary prec emax (Z.pos mx) ex (Z.pos my) ey) as [[q e] l].
    destruct Hcore as (Hq & Hin & He).
    pose proof (exact_pos mx ex) as Hx0. pose proof (exact_pos my ey) as Hy0.
    assert (Hquot : (0 < exact mx ex / exact my ey)%Q).
    { apply Qlt_shift_div_l; lra. }
    assert (Eprod : (B2Q (S754_finite sx mx ex) / B2Q (S754_finite sy my ey)
                     == if xorb sx sy then - (exact mx ex / exact my ey)
                        else exact mx ex / exact my ey)%Q).
    { cbn [B2Q]. destruct sx, sy; cbn [xorb]; field; lra. }
    rewrite Eprod in Hlt. apply (nearest_to_proper _ _ _ (Qeq_sym _ _ Eprod)).
    assert (Habs : (exact mx ex / exact my ey < bpow 1023)%Q).
    { assert (E : (Qabs (if xorb sx sy then - (exact mx ex / exact my ey)
                         else exact mx ex / exact my ey)
                   == exact mx ex / exact my ey)%Q).
      { destruct (xorb sx sy); [rewrite Qabs_opp|]; apply Qabs_pos; lra. }
      rewrite E in Hlt. exact Hlt. }
    now apply binary_round_aux_nearest.
Qed.

(** ** The window and the frame filter *)

(** [getDrawOptions], field by field. *)
Lemma getDrawOptions_cycles {N : Type} {num : Number N}
    (lookbehind lookahead : N) (options : gmap string (value N)) :
  getDrawOptions (lookbehind, lookahead) options !! "cycles"
  = Some (VNum (add lookahead (Math_abs lookbehind))).
Proof.
  unfold getDrawOptions.
  rewrite lookup_insert_ne by discriminate. apply lookup_insert_eq.
Qed.

Lemma getDrawOptions_playhead {N : Type} {num : Number N}
    (lookbehind lookahead : N) (options : gmap string (value N)) :
  getDrawOptions (lookbehind, lookahead) options !! "playhead"
  = Some (VNum (let cycles := add lookahead (Math_abs lookbehind) in
                if negb (strict_eq cycles (lit 0))
                then div (Math_abs lookbehind) cycles else lit 0)).
Proof. unfold getDrawOptions. apply lookup_insert_eq. Qed.

Lemma getDrawOptions_other {N : Type} {num : Number N}
    (drawTime : N * N) (options : gmap string (value N)) (k : string) :
  k <> "cycles" -> k <> "playhead" ->
  getDrawOptions drawTime options !! k = (options ∪ {[ "fold" := VNum (lit 1) ]}) !! k.
Proof.
  intros Hc Hp. destruct drawTime as [lookbehind lookahead]. unfold getDrawOptions.
  rewrite !lookup_insert_ne by congruence. reflexivity.
Qed.

(** C1.  The window of [Pattern.prototype.canvas] is
    [from = -cycles * playhead] and [to = cycles * (1 - playhead)], in any
    arithmetic; with rationals that is -(cycles * playhead); in binary64,
    4 cycles and a playhead of 0.5 (which are also the defaults) give
    [from = -2] and [to = 2]; and the drawing looks behind and ahead by the
    window, widened by the overscan. *)
Theorem canvas_window_spec :
  (forall (N : Type) (num : Number N) (c p : N) (o : option N) (h : option bool) (i : option N),
      canvas_window {| cycles := Some c; playhead := Some p;
                       overscan := o; hideNegative := h; id := i |}
      = (mul (neg c) p, mul c (sub (lit 1) p)))
  /\ (forall (c p : Q) (o : option Q) (h : option bool) (i : option Q),
        let w := canvas_window {| cycles := Some c; playhead := Some p;
                                  overscan := o; hideNegative := h; id := i |} in
        (w.1 == - (c * p))%Q /\ (w.2 == c * (1 - p))%Q)
  /\ canvas_window {| cycles := Some 4%float; playhead := Some 0.5%float;
                      overscan := None; hideNegative := None; id := None |}
     = ((-2)%float, 2%float)
  /\ canvas_window (N := float) {| cycles := None; playhead := None;
                                  overscan := None; hideNegative := None; id := None |}
     = ((-2)%float, 2%float)
  /\ (forall (N : Type) (num : Number N) (core : Core N) (options : CanvasOptions N),
        lookbehind (canvas options)
        = sub (canvas_window options).1 (default (lit 0) (overscan options))
        /\ lookahead (canvas options)
           = add (canvas_window options).2 (default (lit 0) (overscan options))).
Proof.
  split; [reflexivity|].
  split; [intros c p o h i; cbn; split; ring|].
  split; [vm_compute; reflexivity|].
  split; [vm_compute; reflexivity|].
  intros N num core options. unfold canvas.
  destruct (canvas_window options) as [from to]. split; reflexivity.
Qed.

(** *** The operations of the source, on binary64 values *)

Lemma mul_nearest (a b : float) :
  finite a = true -> finite b = true ->
  (Qabs (F2Q a * F2Q b) < bpow 1023)%Q ->
  nearest_to (Prim2SF (a * b)) (F2Q a * F2Q b).
Proof.
  intros Ha Hb Hlt. rewrite mul_spec. apply SFmul_nearest; auto using Prim2SF_valid.
Qed.

Lemma add_nearest (a b : float) :
  finite a = true -> finite b = true ->
  (Qabs (F2Q a + F2Q b) < bpow 1023)%Q ->
  nearest_to (Prim2SF (a + b)) (F2Q a + F2Q b).
Proof. intros Ha Hb Hlt. rewrite add_spec. now apply SFadd_nearest. Qed.

Lemma sub_nearest (a b : float) :
  finite a = true -> finite b = true ->
  (Qabs (F2Q a - F2Q b) < bpow 1023)%Q ->
  nearest_to (Prim2SF (a - b)) (F2Q a - F2Q b).
Proof. intros Ha Hb Hlt. rewrite sub_spec. now apply SFsub_nearest. Qed.

Lemma div_nearest (a b : float) :
  finite a = true -> finite b = true -> ~ (F2Q b == 0)%Q ->
  (Qabs (F2Q a / F2Q b) < bpow 1023)%Q ->
  nearest_to (Prim2SF (a / b)) (F2Q a / F2Q b).
Proof. intros Ha Hb Hne Hlt. rewrite div_spec. now apply SFdiv_nearest. Qed.

Lemma mul_rounds (a b : float) :
  finite a = true -> finite b = true ->
  (Qabs (F2Q a * F2Q b) < bpow 1023)%Q ->
  rounds_to (Prim2SF (a * b)) (F2Q a * F2Q b).
Proof. intros Ha Hb Hlt. now apply mul_nearest. Qed.

Lemma add_rounds (a b : float) :
  finite a = true -> finite b = true ->
  (Qabs (F2Q a + F2Q b) < bpow 1023)%Q ->
  rounds_to (Prim2SF (a + b)) (F2Q a + F2Q b).
Proof. intros Ha Hb Hlt. now apply add_nearest. Qed.

Lemma sub_rounds (a b : float) :
  finite a = true -> finite b = true ->
  (Qabs (F2Q a - F2Q b) < bpow 1023)%Q ->
  rounds_to (Prim2SF (a - b)) (F2Q a - F2Q b).
Proof. intros Ha Hb Hlt. now apply sub_nearest. Qed.

Lemma div_rounds (a b : float) :
  finite a = true -> finite b = true -> ~ (F2Q b == 0)%Q ->
  (Qabs (F2Q a / F2Q b) < bpow 1023)%Q ->
  rounds_to (Prim2SF (a / b)) (F2Q a / F2Q b).
Proof. intros Ha Hb Hne Hlt. now apply div_nearest. Qed.

(** The order of a result against a binary64 value is the order of what it
    rounds. *)
Lemma nearest_above (r y : float) (x : Q) :
  nearest_to (Prim2SF r) x -> finite y = true ->
  (F2Q y <= x)%Q -> (F2Q y <= F2Q r)%Q.
Proof.
  intros [_ Horder] Hy Hle.
  now apply (Horder (Prim2SF y) (Prim2SF_valid y) Hy).
Qed.

Lemma nearest_below (r y : float) (x : Q) :
  nearest_to (Prim2SF r) x -> finite y = true ->
  (x <= F2Q y)%Q -> (F2Q r <= F2Q y)%Q.
Proof.
  intros [_ Horder] Hy Hle.
  now apply (Horder (Prim2SF y) (Prim2SF_valid y) Hy).
Qed.

Lemma opp_exact (a : float) :
  finite (- a) = finite a /\ (F2Q (- a) == - F2Q a)%Q.
Proof.
  unfold finite, F2Q. rewrite opp_spec.
  destruct (Prim2SF a) as [s | s | | s m e]; cbn [SFopp SFfinite B2Q];
    (split; [reflexivity|]); try reflexivity.
  destruct s; cbn [negb]; ring.
Qed.

Lemma abs_exact (a : float) :
  finite (abs a) = finite a /\ (F2Q (abs a) == Qabs (F2Q a))%Q.
Proof.
  unfold finite, F2Q. rewrite abs_spec.
  destruct (Prim2SF a) as [s | s | | s m e]; cbn [SFabs SFfinite B2Q];
    (split; [reflexivity|]); try reflexivity.
  pose proof (exact_pos m e).
  destruct s; [rewrite Qabs_opp|]; rewrite Qabs_pos; lra.
Qed.

(** [x !== 0] holds of a finite [x] that denotes another number than 0. *)
Lemma eqb_zero (a : float) :
  finite a = true -> ~ (F2Q a == 0)%Q -> (a =? 0)%float = false.
Proof.
  unfold finite, F2Q. rewrite FloatAxioms.eqb_spec. change (Prim2SF 0) with (S754_zero false).
  destruct (Prim2SF a) as [s | s | | s m e]; cbn [SFfinite B2Q]; try discriminate.
  - intros _ Hne. now contradiction Hne.
  - intros _ _. unfold SFeqb. cbn [SFcompare]. now destruct s.
Qed.

(** *** The round trip *)

(** The errors of the five roundings of the round trip, one after another:
    [LB], [T1], [TO], [CY] and [PH] are the computed [|from|],
    [1 - playhead], [to], [cycles] and [playhead]; [u] is 2^-53 and [eta]
    2^-1075. *)
Lemma Qabs_bound (x b : Q) : (Qabs x <= b)%Q <-> (- b <= x)%Q /\ (x <= b)%Q.
Proof. apply Qabs_Qle_condition. Qed.

(** [lb]: the computed [|from|] against [C * P]. *)
Lemma error_lb (u eta C P LB : Q) :
  (0 < u)%Q -> (eta <= u * C)%Q -> (0 < C)%Q -> (0 <= P)%Q -> (P <= 1)%Q ->
  (Qabs (LB - C * P) <= C * P * u + eta)%Q ->
  (Qabs (LB - C * P) <= 2 * (u * C))%Q.
Proof.
  intros Hu0 HetaC HC HP0 HP1 HLB.
  apply Qle_trans with (1 := HLB).
  assert (H7 : (0 < u * C)%Q) by nra.
  assert (H : (C * P * u <= u * C)%Q) by nra. lra.
Qed.

(** [t1] and [to]: the computed [1 - P] and [C * (1 - P)]. *)
Lemma error_t1 (u eta C P T1 : Q) :
  (0 < u)%Q -> (0 <= eta)%Q -> (eta <= u)%Q -> (0 < C)%Q -> (0 <= P)%Q -> (P <= 1)%Q ->
  (Qabs (T1 - (1 - P)) <= (1 - P) * u + eta)%Q ->
  (Qabs (C * T1 - C * (1 - P)) <= 2 * (u * C))%Q
  /\ (Qabs (C * T1) <= C + 2 * (u * C))%Q.
Proof.
  intros Hu0 Heta0 Hetau HC HP0 HP1 HT1. apply Qabs_bound in HT1.
  assert (H : ((1 - P) * u <= u)%Q) by nra.
  assert (H1 : (- (2 * u) <= T1 - (1 - P))%Q) by lra.
  assert (H2 : (T1 - (1 - P) <= 2 * u)%Q) by lra.
  clear HT1 H Hetau Heta0.
  assert (H3 : (- (2 * (u * C)) <= C * T1 - C * (1 - P))%Q) by nra.
  assert (H4 : (C * T1 - C * (1 - P) <= 2 * (u * C))%Q) by nra.
  assert (H5 : (0 <= C * (1 - P))%Q) by nra.
  assert (H6 : (C * (1 - P) <= C)%Q) by nra.
  assert (H7 : (0 < u * C)%Q) by nra.
  split; apply Qabs_bound; split; lra.
Qed.

Lemma error_to (u eta C P X TO : Q) :
  (0 < u)%Q -> (u <= 1 # 1000)%Q -> (0 <= eta)%Q -> (eta <= u * C)%Q -> (0 < C)%Q ->
  (Qabs (X - C * (1 - P)) <= 2 * (u * C))%Q ->
  (Qabs X <= C + 2 * (u * C))%Q ->
  (Qabs (TO - X) <= Qabs X * u + eta)%Q ->
  (Qabs (TO - C * (1 - P)) <= 5 * (u * C))%Q.
Proof.
  intros Hu0 Hu Heta0 HetaC HC HX HXa HTO.
  apply Qabs_bound in HX. apply Qabs_bound in HTO.
  pose proof (Qabs_nonneg X) as Hnn.
  assert (H7 : (0 < u * C)%Q) by nra.
  assert (H : (Qabs X * u <= (C + 2 * (u * C)) * u)%Q) by nra.
  assert (H' : ((C + 2 * (u * C)) * u <= 2 * (u * C))%Q) by nra.
  apply Qabs_bound. split; lra.
Qed.

(** [cy]: the computed [to + lb]. *)
Lemma error_cy (u eta C P LB TO CY : Q) :
  (0 < u)%Q -> (u <= 1 # 1000)%Q -> (0 <= eta)%Q -> (eta <= u * C)%Q -> (0 < C)%Q ->
  (Qabs (LB - C * P) <= 2 * (u * C))%Q ->
  (Qabs (TO - C * (1 - P)) <= 5 * (u * C))%Q ->
  (Qabs (TO + LB) <= C + 7 * (u * C))%Q
  /\ ((Qabs (CY - (TO + LB)) <= Qabs (TO + LB) * u + eta)%Q ->
      (Qabs (CY - C) <= 10 * (u * C))%Q /\ ((99 # 100) * C <= CY)%Q).
Proof.
  intros Hu0 Hu Heta0 HetaC HC HLB HTO.
  apply Qabs_bound in HLB. apply Qabs_bound in HTO.
  assert (E : (C * (1 - P) + C * P == C)%Q) by ring.
  assert (H7 : (0 < u * C)%Q) by nra.
  assert (HS : (Qabs (TO + LB) <= C + 7 * (u * C))%Q).
  { apply Qabs_bound. split; lra. }
  split; [exact HS|]. intros HCY. apply Qabs_bound in HCY.
  pose proof (Qabs_nonneg (TO + LB)) as Hnn.
  assert (H : (Qabs (TO + LB) * u <= (C + 7 * (u * C)) * u)%Q) by nra.
  assert (H' : ((C + 7 * (u * C)) * u <= 2 * (u * C))%Q) by nra.
  assert (H'' : (u * C <= (1 # 1000) * C)%Q) by nra.
  split; [apply Qabs_bound; split; lra | lra].
Qed.

(** [ph]: the computed [lb / cy]. *)
Lemma error_ph (u eta C P LB CY : Q) :
  (0 < u)%Q -> (u <= 1 # 1000)%Q -> (0 <= eta)%Q -> (eta <= u)%Q -> (0 < C)%Q ->
  (0 <= P)%Q -> (P <= 1)%Q ->
  (Qabs (LB - C * P) <= 2 * (u * C))%Q ->
  (Qabs (CY - C) <= 10 * (u * C))%Q -> ((99 # 100) * C <= CY)%Q ->
  (Qabs (LB / CY) < 2)%Q
  /\ forall PH : Q,
       (Qabs (PH - LB / CY) <= Qabs (LB / CY) * u + eta)%Q ->
       (Qabs (PH - P) <= 16 * u)%Q.
Proof.
  intros Hu0 Hu Heta0 Hetau HC HP0 HP1 HLB HCY HCYpos.
  apply Qabs_bound in HLB. apply Qabs_bound in HCY.
  assert (HCY0 : (0 < CY)%Q) by lra.
  set (R := (LB / CY)%Q).
  assert (ER : (R * CY == LB)%Q) by (unfold R; field; lra).
  clearbody R.
  assert (H7 : (0 < u * C)%Q) by nra.
  assert (HPCY : (- (10 * (u * C)) <= P * CY - C * P <= 10 * (u * C))%Q).
  { split; nra. }
  assert (Hnum : (- (12 * (u * C)) <= (R - P) * CY <= 12 * (u * C))%Q).
  { assert (E : ((R - P) * CY == LB - P * CY)%Q) by (rewrite <- ER; ring).
    rewrite E. lra. }
  clear HLB HCY HPCY ER.
  assert (HRP : (- (13 * u) <= R - P <= 13 * u)%Q).
  { split.
    - destruct (Qlt_le_dec (R - P) (- (13 * u))) as [Hlt | Hge]; [exfalso|exact Hge].
      assert (Hx : ((R - P) * CY <= - (13 * u) * CY)%Q) by nra.
      assert (Hy : (- (13 * u) * CY <= - (13 * u) * ((99 # 100) * C))%Q) by nra.
      nra.
    - destruct (Qlt_le_dec (13 * u) (R - P)) as [Hlt | Hge]; [exfalso|exact Hge].
      assert (Hx : (13 * u * CY <= (R - P) * CY)%Q) by nra.
      assert (Hy : (13 * u * ((99 # 100) * C) <= 13 * u * CY)%Q) by nra.
      nra. }
  assert (HR0 : (Qabs R <= 1 + 13 * u)%Q) by (apply Qabs_bound; split; lra).
  split; [apply Qle_lt_trans with (1 := HR0); lra|].
  intros PH HPH. apply Qabs_bound in HPH.
  pose proof (Qabs_nonneg R) as Hnn.
  assert (H : (Qabs R * u <= (1 + 13 * u) * u)%Q) by nra.
  assert (H' : ((1 + 13 * u) * u <= 2 * u)%Q) by nra.
  apply Qabs_bound. split; lra.
Qed.

Lemma error_from (CP FROM B : Q) :
  (0 <= CP)%Q -> (Qabs (FROM - - CP) <= B)%Q -> (Qabs (Qabs FROM - CP) <= B)%Q.
Proof.
  intros HCP H. apply Qabs_bound in H. apply Qabs_bound.
  destruct (Qlt_le_dec FROM 0) as [Hs | Hs];
    [rewrite Qabs_neg by lra | rewrite Qabs_pos by lra]; split; lra.
Qed.

(** In the normal range of binary64 the round trip adds up five roundings,
    each one part in 2^53. *)
Lemma window_roundtrip_normal (c p : float) (options : gmap string (value float)) :
  finite c = true -> finite p = true ->
  (bpow (-1022) <= F2Q c)%Q -> (F2Q c <= bpow 1022)%Q ->
  (0 <= F2Q p)%Q -> (F2Q p <= 1)%Q ->
  exists cycles' playhead' : float,
    getDrawOptions (canvas_window (window_of c p)) options !! "cycles" = Some (VNum cycles')
    /\ getDrawOptions (canvas_window (window_of c p)) options !! "playhead"
       = Some (VNum playhead')
    /\ finite cycles' = true /\ finite playhead' = true
    /\ (Qabs (F2Q cycles' - F2Q c) <= bpow (-49) * F2Q c)%Q
    /\ (Qabs (F2Q playhead' - F2Q p) <= bpow (-49))%Q.
Proof.
  intros Hc Hp Hlow Hhigh Hp0 Hp1.
  set (u := bpow (-53)). set (eta := bpow (-1075)).
  assert (Hu0 : (0 < u)%Q) by apply bpow_pos.
  assert (Heta0 : (0 <= eta)%Q) by (apply Qlt_le_weak, bpow_pos).
  assert (Hu : (u <= 1 # 1000)%Q) by (vm_compute; discriminate).
  assert (Hmin : (0 < bpow (-1022))%Q) by apply bpow_pos.
  assert (Eeta : (eta == u * bpow (-1022))%Q)
    by (unfold eta, u; rewrite <- bpow_plus; reflexivity).
  assert (Hone : (bpow (-1022) <= 1)%Q) by (vm_compute; discriminate).
  assert (Ebig : (bpow 1023 == 2 * bpow 1022)%Q)
    by (change 1023%Z with (1022 + 1)%Z; apply bpow_succ).
  assert (Htwo : (2 <= bpow 1023)%Q) by (change 2%Q with (bpow 1); apply bpow_le; lia).
  assert (Etol : (bpow (-49) == 16 * u)%Q)
    by (unfold u; change (-49)%Z with (4 + -53)%Z; rewrite bpow_plus; reflexivity).
  set (C := F2Q c) in *. set (P := F2Q p) in *.
  assert (HC : (0 < C)%Q) by lra.
  assert (HuC : (0 < u * C)%Q) by nra.
  assert (HuC' : (u * C <= (1 # 1000) * C)%Q) by nra.
  assert (HetaC : (eta <= u * C)%Q) by (rewrite Eeta; nra).
  assert (Hetau : (eta <= u)%Q) by (rewrite Eeta; nra).
  assert (HCP : (0 <= C * P)%Q) by nra.
  assert (HCP' : (C * P <= C)%Q) by nra.
  (* from = -cycles * playhead, and lookbehind = |from| *)
  destruct (opp_exact c) as [Hnegf Hneg]. fold C in Hneg.
  assert (Eprod : (F2Q (- c) * P == - (C * P))%Q) by (rewrite Hneg; ring).
  assert (Hfrom : rounds_to (Prim2SF (- c * p)) (F2Q (- c) * F2Q p)).
  { apply mul_rounds; [congruence | exact Hp |]. fold P. rewrite Eprod, Qabs_opp.
    rewrite Qabs_pos by exact HCP. lra. }
  destruct Hfrom as [Hfromf Hfrom]. fold P in Hfrom.
  rewrite Eprod, Qabs_opp, (Qabs_pos (C * P)) in Hfrom by exact HCP.
  fold (finite (- c * p)) in Hfromf. fold (F2Q (- c * p)) in Hfrom.
  destruct (abs_exact (- c * p)) as [Hlbf Hlb].
  set (LB := F2Q (abs (- c * p))) in *.
  assert (HLB0 : (Qabs (LB - C * P) <= C * P * u + eta)%Q).
  { rewrite Hlb. apply error_from; assumption. }
  pose proof (error_lb u eta C P LB Hu0 HetaC HC Hp0 Hp1 HLB0) as HLB.
  (* 1 - playhead *)
  assert (Hone' : (F2Q 1 == 1)%Q) by reflexivity.
  assert (Ht1 : rounds_to (Prim2SF (1 - p)) (F2Q 1 - F2Q p)).
  { apply sub_rounds; [reflexivity | exact Hp |]. fold P. rewrite Hone'.
    rewrite Qabs_pos by lra. lra. }
  destruct Ht1 as [Ht1f Ht1]. fold P in Ht1. rewrite Hone' in Ht1.
  rewrite (Qabs_pos (1 - P)) in Ht1 by lra.
  fold (finite (1 - p)) in Ht1f. fold (F2Q (1 - p)) in Ht1.
  set (T1 := F2Q (1 - p)) in *.
  destruct (error_t1 u eta C P T1 Hu0 Heta0 Hetau HC Hp0 Hp1 Ht1) as [HX HXa].
  (* to = cycles * (1 - playhead) *)
  assert (Hto : rounds_to (Prim2SF (c * (1 - p))) (F2Q c * F2Q (1 - p))).
  { apply mul_rounds; [exact Hc | exact Ht1f |]. fold C. fold T1.
    apply Qle_lt_trans with (1 := HXa). lra. }
  destruct Hto as [Htof Hto]. fold C in Hto. fold T1 in Hto.
  fold (finite (c * (1 - p))) in Htof. fold (F2Q (c * (1 - p))) in Hto.
  set (TO := F2Q (c * (1 - p))) in *.
  pose proof (error_to u eta C P (C * T1) TO Hu0 Hu Heta0 HetaC HC HX HXa Hto) as HTO.
  (* cycles = lookahead + lookbehind *)
  destruct (error_cy u eta C P LB TO (F2Q (c * (1 - p) + abs (- c * p)))
              Hu0 Hu Heta0 HetaC HC HLB HTO) as [HS Hcont].
  assert (Hcy : rounds_to (Prim2SF (c * (1 - p) + abs (- c * p)))
                  (F2Q (c * (1 - p)) + F2Q (abs (- c * p)))).
  { apply add_rounds; [exact Htof | congruence |]. fold TO. fold LB.
    apply Qle_lt_trans with (1 := HS). lra. }
  destruct Hcy as [Hcyf Hcy]. fold TO in Hcy. fold LB in Hcy.
  fold (finite (c * (1 - p) + abs (- c * p))) in Hcyf.
  fold (F2Q (c * (1 - p) + abs (- c * p))) in Hcy.
  set (CY := F2Q (c * (1 - p) + abs (- c * p))) in *.
  destruct (Hcont Hcy) as [HCY HCYpos].
  (* playhead = lookbehind / cycles *)
  destruct (error_ph u eta C P LB CY Hu0 Hu Heta0 Hetau HC Hp0 Hp1 HLB HCY HCYpos)
    as [HR Hcont'].
  assert (Hph : rounds_to (Prim2SF (abs (- c * p) / (c * (1 - p) + abs (- c * p))))
                  (F2Q (abs (- c * p)) / F2Q (c * (1 - p) + abs (- c * p)))).
  { apply div_rounds; [congruence | exact Hcyf | |]; fold LB; fold CY; lra. }
  destruct Hph as [Hphf Hph]. fold LB in Hph. fold CY in Hph.
  fold (finite (abs (- c * p) / (c * (1 - p) + abs (- c * p)))) in Hphf.
  fold (F2Q (abs (- c * p) / (c * (1 - p) + abs (- c * p)))) in Hph.
  (* what getDrawOptions returns *)
  exists (c * (1 - p) + abs (- c * p))%float,
         (abs (- c * p) / (c * (1 - p) + abs (- c * p)))%float.
  change (canvas_window (window_of c p)) with ((- c * p)%float, (c * (1 - p))%float).
  split; [exact (getDrawOptions_cycles (- c * p)%float (c * (1 - p))%float options)|].
  split.
  { rewrite getDrawOptions_playhead. cbv zeta.
    change (strict_eq (add (c * (1 - p))%float (Math_abs (- c * p)%float)) (lit 0))
      with ((c * (1 - p) + abs (- c * p)) =? 0)%float.
    rewrite eqb_zero; [reflexivity | exact Hcyf | fold CY; lra]. }
  split; [exact Hcyf|]. split; [exact Hphf|].
  fold CY. rewrite Etol. split.
  - apply Qabs_bound in HCY. apply Qabs_bound. split; lra.
  - apply Hcont'. exact Hph.
Qed.

(** A finite value that denotes 0 is one of the two zeros. *)
Lemma finite_zero (a : float) :
  finite a = true -> (F2Q a == 0)%Q -> exists s : bool, Prim2SF a = S754_zero s.
Proof.
  unfold finite, F2Q.
  destruct (Prim2SF a) as [s | s | | s m e]; cbn [SFfinite B2Q]; try discriminate.
  - eauto.
  - intros _ H. pose proof (exact_pos m e). destruct s; lra.
Qed.

(** With no cycles every product is a zero, their sum is a zero, and the
    guard [cycles !== 0] gives the playhead 0. *)
Lemma window_roundtrip_zero (c p : float) (options : gmap string (value float)) :
  finite c = true -> finite p = true -> (F2Q c == 0)%Q ->
  (0 <= F2Q p)%Q -> (F2Q p <= 1)%Q ->
  exists cycles' : float,
    getDrawOptions (canvas_window (window_of c p)) options !! "cycles" = Some (VNum cycles')
    /\ getDrawOptions (canvas_window (window_of c p)) options !! "playhead"
       = Some (VNum 0%float)
    /\ finite cycles' = true /\ (F2Q cycles' == 0)%Q.
Proof.
  intros Hc Hp Hzero Hp0 Hp1.
  destruct (finite_zero c Hc Hzero) as [s Es].
  assert (Ht1 : rounds_to (Prim2SF (1 - p)) (F2Q 1 - F2Q p)).
  { apply sub_rounds; [reflexivity | exact Hp |].
    assert (Hone : (F2Q 1 == 1)%Q) by reflexivity. rewrite Hone.
    assert (Htwo : (2 <= bpow 1023)%Q) by (change 2%Q with (bpow 1); apply bpow_le; lia).
    rewrite Qabs_pos by lra. lra. }
  destruct Ht1 as [Ht1f _].
  assert (Eto : exists s', Prim2SF (c * (1 - p)) = S754_zero s').
  { rewrite mul_spec, Es. destruct (Prim2SF (1 - p)); try discriminate; cbn; eauto. }
  assert (Efrom : exists s', Prim2SF (- c * p) = S754_zero s').
  { rewrite mul_spec, opp_spec, Es. unfold finite in Hp.
    destruct (Prim2SF p); try discriminate; cbn; eauto. }
  destruct Eto as [sto Eto]. destruct Efrom as [sfrom Efrom].
  assert (Elb : Prim2SF (abs (- c * p)) = S754_zero false) by now rewrite abs_spec, Efrom.
  assert (Ecy : exists s', Prim2SF (c * (1 - p) + abs (- c * p)) = S754_zero s').
  { rewrite add_spec, Eto, Elb. destruct sto; cbn; eauto. }
  destruct Ecy as [scy Ecy].
  exists (c * (1 - p) + abs (- c * p))%float.
  change (canvas_window (window_of c p)) with ((- c * p)%float, (c * (1 - p))%float).
  split; [exact (getDrawOptions_cycles (- c * p)%float (c * (1 - p))%float options)|].
  split.
  { rewrite getDrawOptions_playhead. cbv zeta.
    change (strict_eq (add (c * (1 - p))%float (Math_abs (- c * p)%float)) (lit 0))
      with ((c * (1 - p) + abs (- c * p)) =? 0)%float.
    rewrite FloatAxioms.eqb_spec, Ecy. reflexivity. }
  unfold finite, F2Q. rewrite Ecy. split; reflexivity.
Qed.

(** C2, as the code has it, in binary64.  For a number of cycles in the
    normal range, from 2^-1022 to 2^1022, and a playhead in [0,1], the window
    read back by [getDrawOptions] has the same number of cycles to within a
    relative 2^-49 and the same playhead to within 2^-49.  With no cycles,
    no cycles are read back, and the playhead read back is 0 whatever it
    was.  (Below the normal range see [window_roundtrip_underflow].) *)
Theorem window_roundtrip (c p : float) (options : gmap string (value float)) :
  finite c = true -> finite p = true ->
  (F2Q c == 0)%Q \/ ((bpow (-1022) <= F2Q c)%Q /\ (F2Q c <= bpow 1022)%Q) ->
  (0 <= F2Q p)%Q -> (F2Q p <= 1)%Q ->
  exists cycles' playhead' : float,
    getDrawOptions (canvas_window (window_of c p)) options !! "cycles" = Some (VNum cycles')
    /\ getDrawOptions (canvas_window (window_of c p)) options !! "playhead"
       = Some (VNum playhead')
    /\ finite cycles' = true /\ finite playhead' = true
    /\ (Qabs (F2Q cycles' - F2Q c) <= bpow (-49) * F2Q c)%Q
    /\ ((F2Q c == 0)%Q -> playhead' = 0%float)
    /\ (~ (F2Q c == 0)%Q -> (Qabs (F2Q playhead' - F2Q p) <= bpow (-49))%Q).
Proof.
  intros Hc Hp [Hzero | [Hlow Hhigh]] Hp0 Hp1.
  - destruct (window_roundtrip_zero c p options Hc Hp Hzero Hp0 Hp1)
      as (cy & Hcycles & Hplayhead & Hcyf & Ecy).
    exists cy, 0%float. split; [exact Hcycles|]. split; [exact Hplayhead|].
    split; [exact Hcyf|]. split; [reflexivity|]. split; [|split; [reflexivity | tauto]].
    rewrite Ecy, Hzero. apply Qabs_bound. split; lra.
  - destruct (window_roundtrip_normal c p options Hc Hp Hlow Hhigh Hp0 Hp1)
      as (cy & ph & Hcycles & Hplayhead & Hcyf & Hphf & Ecy & Eph).
    exists cy, ph. split; [exact Hcycles|]. split; [exact Hplayhead|].
    split; [exact Hcyf|]. split; [exact Hphf|]. split; [exact Ecy|].
    split; [|intros _; exact Eph].
    intros Hzero. pose proof (bpow_pos (-1022)). lra.
Qed.

Lemma window_roundtrip_witness :
  finite 3 = true /\ finite 0.1 = true
  /\ ((F2Q 3 == 0)%Q \/ ((bpow (-1022) <= F2Q 3)%Q /\ (F2Q 3 <= bpow 1022)%Q))
  /\ (0 <= F2Q 0.1)%Q /\ (F2Q 0.1 <= 1)%Q
  /\ exists cycles' playhead' : float,
       getDrawOptions (canvas_window (window_of 3 0.1)) ∅ !! "cycles" = Some (VNum cycles')
       /\ getDrawOptions (canvas_window (window_of 3 0.1)) ∅ !! "playhead"
          = Some (VNum playhead')
       /\ finite cycles' = true /\ finite playhead' = true
       /\ (Qabs (F2Q cycles' - F2Q 3) <= bpow (-49) * F2Q 3)%Q
       /\ ((F2Q 3 == 0)%Q -> playhead' = 0%float)
       /\ (~ (F2Q 3 == 0)%Q -> (Qabs (F2Q playhead' - F2Q 0.1) <= bpow (-49))%Q).
Proof.
  assert (Hc : finite 3 = true) by reflexivity.
  assert (Hp : finite 0.1 = true) by reflexivity.
  assert (Hrange : (F2Q 3 == 0)%Q \/ ((bpow (-1022) <= F2Q 3)%Q /\ (F2Q 3 <= bpow 1022)%Q))
    by (right; split; vm_compute; discriminate).
  assert (Hp0 : (0 <= F2Q 0.1)%Q) by (vm_compute; discriminate).
  assert (Hp1 : (F2Q 0.1 <= 1)%Q) by (vm_compute; discriminate).
  split; [exact Hc|]. split; [exact Hp|]. split; [exact Hrange|].
  split; [exact Hp0|]. split; [exact Hp1|].
  exact (window_roundtrip 3 0.1 ∅ Hc Hp Hrange Hp0 Hp1).
Defined.

(** C2 fails as stated.  With no cycles and a playhead of 0.5 the window is
    [-0, 0]; [getDrawOptions] reads back 0 cycles and, by its guard, a
    playhead of 0, which is 0.5 away from the playhead that was given: no
    tolerance below a half allows that, and so not a quarter. *)
Lemma window_roundtrip_counterexample :
  ~ (forall c p : float,
       finite c = true -> finite p = true ->
       (0 <= F2Q c)%Q -> (0 <= F2Q p)%Q -> (F2Q p <= 1)%Q ->
       exists cycles' playhead' : float,
         getDrawOptions (canvas_window (window_of c p)) ∅ !! "cycles" = Some (VNum cycles')
         /\ getDrawOptions (canvas_window (window_of c p)) ∅ !! "playhead"
            = Some (VNum playhead')
         /\ (Qabs (F2Q cycles' - F2Q c) <= (1 # 4) * F2Q c)%Q
         /\ (Qabs (F2Q playhead' - F2Q p) <= 1 # 4)%Q).
Proof.
  intros Hclaim.
  destruct (Hclaim 0%float 0.5%float) as (cy & ph & _ & Hph & _ & Eph);
    try reflexivity; try (vm_compute; discriminate).
  vm_compute in Hph. injection Hph as <-.
  vm_compute in Eph. now apply Eph.
Qed.

(** In binary64 the round trip is exact only as far as the roundings allow:
    half of the smallest positive number rounds to 0, and a window of that
    many cycles reads back as 0 cycles with the playhead at 0. *)
Lemma window_roundtrip_underflow :
  let options := getDrawOptions (canvas_window (window_of 5e-324 0.5)) ∅ in
  (0 <? 5e-324)%float = true
  /\ options !! "cycles" = Some (VNum 0%float)
  /\ options !! "playhead" = Some (VNum 0%float).
Proof. cbv zeta. split; [reflexivity|]. split; vm_compute; reflexivity. Qed.

(** The frame filter, as a proposition. *)
Lemma inFrame_true {N : Type} {num : Number N} {core : Core N}
    (hideNegative : bool) (from to t : N) (hap : Hap N) :
  inFrame hideNegative from to hap t = true <->
  (hideNegative = false \/ ge (begin (whole hap)) (lit 0) = true)
  /\ isWithinTime hap (add t from) (add t to) = true.
Proof.
  unfold inFrame. rewrite andb_true_iff, orb_true_iff, negb_true_iff. reflexivity.
Qed.

Lemma painted_singleton {N : Type} {num : Number N} {core : Core N}
    (options : CanvasOptions N) (hap : Hap N) (t : N) :
  painted (canvas options) [hap] t
  = if inFrame (default false (hideNegative options))
         (canvas_window options).1 (canvas_window options).2 hap t
    then [hap] else [].
Proof.
  unfold canvas. destruct (canvas_window options) as [from to]. cbn.
  unfold filter, list_filter.
  destruct (inFrame _ from to hap t) eqn:E.
  - rewrite decide_True by reflexivity. reflexivity.
  - rewrite decide_False by discriminate. reflexivity.
Qed.

(** C3.  A hap passes the frame filter exactly when hideNegative is off or
    its whole begins at 0 or later, and the engine's [isWithinTime] holds of
    it between [t + from] and [t + to]; the painter receives the haps that
    pass; hideNegative makes no difference to a hap that begins at 0 or
    later; and a hap on [-1, 1) that the engine finds within [-2, 2) is
    dropped when hideNegative is on and kept when it is off. *)
Theorem inFrame_spec :
  (forall (N : Type) (num : Number N) (core : Core N)
          (hideNegative : bool) (from to t : N) (hap : Hap N),
      inFrame hideNegative from to hap t = true <->
      (hideNegative = false \/ ge (begin (whole hap)) (lit 0) = true)
      /\ isWithinTime hap (add t from) (add t to) = true)
  /\ (forall (N : Type) (num : Number N) (core : Core N)
             (options : CanvasOptions N) (haps : list (Hap N)) (t : N) (hap : Hap N),
        hap ∈ painted (canvas options) haps t <->
        hap ∈ haps
        /\ inFrame (default false (hideNegative options))
             (canvas_window options).1 (canvas_window options).2 hap t = true)
  /\ (forall (N : Type) (num : Number N) (core : Core N) (from to t : N) (hap : Hap N),
        ge (begin (whole hap)) (lit 0) = true ->
        inFrame true from to hap t = inFrame false from to hap t)
  /\ (forall core : Core float,
        isWithinTime hap_from_minus_one (-2)%float 2%float = true ->
        painted (canvas (window_hiding true)) [hap_from_minus_one] 0%float = []
        /\ painted (canvas (window_hiding false)) [hap_from_minus_one] 0%float
           = [hap_from_minus_one]).
Proof.
  split; [intros; apply inFrame_true|].
  split.
  { intros N num core options haps t hap. unfold canvas.
    destruct (canvas_window options) as [from to]. cbn.
    rewrite list_elem_of_filter. tauto. }
  split.
  { intros N num core from to t hap Hbegin. unfold inFrame.
    rewrite Hbegin. reflexivity. }
  intros core Hwithin. rewrite !painted_singleton.
  assert (Hw : forall hide, canvas_window (window_hiding hide) = ((-2)%float, 2%float))
    by (intros hide; vm_compute; reflexivity).
  rewrite !Hw. cbn [fst snd default window_hiding hideNegative].
  unfold inFrame.
  change (add 0%float (-2)%float) with (-2)%float.
  change (add 0%float 2%float) with 2%float.
  rewrite Hwithin. split; reflexivity.
Qed.

Lemma inFrame_spec_witness :
  (ge (begin (whole {| whole := at_zero; hap_value := VStr "bd" |})) (lit 0) = true
   /\ inFrame (core := stub_core) true (-2)%float 2%float
        {| whole := at_zero; hap_value := VStr "bd" |} 0%float
      = inFrame (core := stub_core) false (-2)%float 2%float
          {| whole := at_zero; hap_value := VStr "bd" |} 0%float)
  /\ isWithinTime (Core := stub_core) hap_from_minus_one (-2)%float 2%float = true
  /\ painted (canvas (core := stub_core) (window_hiding true)) [hap_from_minus_one] 0%float = []
  /\ painted (canvas (core := stub_core) (window_hiding false)) [hap_from_minus_one] 0%float
     = [hap_from_minus_one].
Proof.
  assert (Hbegin : ge (begin (whole {| whole := at_zero; hap_value := VStr "bd" |})) (lit 0) = true)
    by reflexivity.
  assert (Hwithin : isWithinTime (Core := stub_core) hap_from_minus_one (-2)%float 2%float = true)
    by reflexivity.
  split.
  { split; [exact Hbegin|].
    exact (proj1 (proj2 (proj2 inFrame_spec)) float _ stub_core _ _ _ _ Hbegin). }
  split; [exact Hwithin|].
  exact (proj2 (proj2 (proj2 inFrame_spec)) stub_core Hwithin).
Defined.

(** C7.  With [drawTime = [0, 0]] there are no cycles and the guard gives a
    playhead of 0, where the division alone would give NaN; so too with
    either zero negative, and with rationals. *)
Theorem getDrawOptions_zero :
  (forall (options : gmap string (value float)) (behind ahead : bool),
      let lookbehind := if behind then (-0)%float else 0%float in
      let lookahead := if ahead then (-0)%float else 0%float in
      getDrawOptions (lookbehind, lookahead) options !! "cycles" = Some (VNum 0%float)
      /\ getDrawOptions (lookbehind, lookahead) options !! "playhead" = Some (VNum 0%float))
  /\ (forall options : gmap string (value float),
        getDrawOptions (0%float, 0%float) options !! "playhead" = Some (VNum 0%float))
  /\ PrimFloat.is_nan (PrimFloat.abs 0 / (0 + PrimFloat.abs 0)) = true
  /\ (forall options : gmap string (value Q),
        getDrawOptions (0%Q, 0%Q) options !! "playhead" = Some (VNum 0%Q)).
Proof.
  split.
  { intros options behind ahead lb la. subst lb la.
    rewrite getDrawOptions_cycles, getDrawOptions_playhead.
    destruct behind, ahead; split; vm_compute; reflexivity. }
  split; [intros options; rewrite getDrawOptions_playhead; reflexivity|].
  split; [reflexivity|].
  intros options. rewrite getDrawOptions_playhead. reflexivity.
Qed.

(** C10.  Whatever the options hold, the result of [getDrawOptions] has the
    cycles and the playhead computed from [drawTime]; its fold is the
    caller's if there is one and 1 if not; every other field is the
    caller's. *)
Theorem getDrawOptions_overwrites :
  forall (N : Type) (num : Number N) (lookbehind lookahead : N)
         (options : gmap string (value N)),
    let r := getDrawOptions (lookbehind, lookahead) options in
    let cycles := add lookahead (Math_abs lookbehind) in
    let playhead :=
      if negb (strict_eq cycles (lit 0)) then div (Math_abs lookbehind) cycles else lit 0 in
    r !! "cycles" = Some (VNum cycles)
    /\ r !! "playhead" = Some (VNum playhead)
    /\ r !! "fold" = Some (default (VNum (lit 1)) (options !! "fold"))
    /\ (forall k : string,
          r !! k =
          if String.eqb k "playhead" then Some (VNum playhead)
          else if String.eqb k "cycles" then Some (VNum cycles)
          else if String.eqb k "fold" then Some (default (VNum (lit 1)) (options !! "fold"))
          else options !! k).
Proof.
  intros N num lookbehind lookahead options r cycles playhead. subst r cycles playhead.
  assert (Hfold : getDrawOptions (lookbehind, lookahead) options !! "fold"
                  = Some (default (VNum (lit 1)) (options !! "fold"))).
  { rewrite getDrawOptions_other by discriminate.
    rewrite lookup_union. destruct (options !! "fold") as [v|] eqn:E.
    - rewrite union_Some_l. reflexivity.
    - rewrite (left_id None _). rewrite lookup_singleton_eq. reflexivity. }
  split; [apply getDrawOptions_cycles|]. split; [apply getDrawOptions_playhead|].
  split; [exact Hfold|].
  intros k.
  destruct (String.eqb_spec k "playhead") as [->|Hp]; [apply getDrawOptions_playhead|].
  destruct (String.eqb_spec k "cycles") as [->|Hc]; [apply getDrawOptions_cycles|].
  destruct (String.eqb_spec k "fold") as [->|Hf]; [exact Hfold|].
  rewrite getDrawOptions_other by assumption.
  rewrite lookup_union, lookup_singleton_ne by congruence.
  apply (right_id None _).
Qed.

(** ** The overlay, tick by tick *)

Section OverlayFacts.
Context {core : Core float}.
Local Open Scope float_scope.

(** *** Camera acquisition *)

Lemma canvas_denied (w h : float) (has_callback : bool) (st : Webcam) (err : string) :
  webcamVideo st = None ->
  _canvas (Denied err) w h has_callback st
  = (st, [getUserMedia;
          fillStyle "black"; fillRect 0 0 w h;
          fillStyle "white"; font "16px monospace";
          fillText "Webcam permission denied" 10 30;
          console_error "Webcam access error:"]).
Proof. intros Hvideo. unfold _canvas, _canvas_call. rewrite Hvideo. reflexivity. Qed.

(** A denial leaves [webcamVideo] null, so every tick asks again. *)
Lemma ticks_denied (w h : float) (has_callback : bool) (st : Webcam) (errs : list string) :
  webcamVideo st = None ->
  (ticks (map Denied errs) w h has_callback st).1 = st
  /\ length (List.filter is_getUserMedia (ticks (map Denied errs) w h has_callback st).2)
     = length errs
  /\ length (List.filter is_fallback_message (ticks (map Denied errs) w h has_callback st).2)
     = length errs.
Proof.
  intros Hvideo. induction errs as [|err errs IH]; [repeat split|].
  cbn [map ticks]. rewrite canvas_denied by assumption.
  destruct (ticks (map Denied errs) w h has_callback st) as [st' effects].
  cbn in IH |- *. destruct IH as (-> & Hasked & Hdrawn).
  split; [reflexivity|]. now rewrite Hasked, Hdrawn.
Qed.

End OverlayFacts.

(** C8.  The code does not do this.  When the camera is denied [_canvas]
    returns from its catch block with [webcamVideo] still null, so the next
    tick enters [if (!webcamVideo)] again: over [n] denied ticks
    [getUserMedia] is called [n] times and the fallback message is drawn [n]
    times, twice over two ticks. *)
Theorem canvas_denied_every_tick :
  (forall (core : Core float) (w h : float) (has_callback : bool) (errs : list string),
      (ticks (map Denied errs) w h has_callback module_scope).1 = module_scope
      /\ length (List.filter is_getUserMedia
                   (ticks (map Denied errs) w h has_callback module_scope).2) = length errs
      /\ length (List.filter is_fallback_message
                   (ticks (map Denied errs) w h has_callback module_scope).2) = length errs)
  /\ (ticks (core := stub_core) [Denied "NotAllowedError"; Denied "NotAllowedError"]
        640 480 false module_scope).2
     = [getUserMedia;
        fillStyle "black"; fillRect 0 0 640 480;
        fillStyle "white"; font "16px monospace";
        fillText "Webcam permission denied" 10 30;
        console_error "Webcam access error:";
        getUserMedia;
        fillStyle "black"; fillRect 0 0 640 480;
        fillStyle "white"; font "16px monospace";
        fillText "Webcam permission denied" 10 30;
        console_error "Webcam access error:"].
Proof.
  split; [|reflexivity].
  intros core w h has_callback errs. now apply ticks_denied.
Qed.

(** *** The thumb to index distance *)

Section Distance.
Context {core : Core float}.
Local Open Scope float_scope.

Lemma callback_in_drawConnection (d : value float) (hand : Hand)
    (kps : list Keypoint) (c : nat * nat) :
  ~ In (callback d hand) (drawConnection kps c).
Proof.
  destruct c as [i j]. unfold drawConnection.
  destruct (kps !! i), (kps !! j); cbn; intuition discriminate.
Qed.

Lemma callback_in_drawDistance (d : value float) (hand hand' : Hand) (has_callback : bool) :
  In (callback d hand) (drawDistance has_callback hand') <->
  has_callback = true /\ hand' = hand
  /\ exists thumbTip indexTip,
       keypoints hand !! 4%nat = Some thumbTip
       /\ keypoints hand !! 8%nat = Some indexTip
       /\ d = VStr (distance thumbTip indexTip).
Proof.
  unfold drawDistance. split.
  - destruct (keypoints hand' !! 4%nat) as [thumbTip|] eqn:E4; [|intros []].
    destruct (keypoints hand' !! 8%nat) as [indexTip|] eqn:E8; [|intros []].
    rewrite in_app_iff. intros [Hin | Hin].
    + cbn in Hin. intuition discriminate.
    + destruct has_callback; [|destruct Hin].
      destruct Hin as [Heq | []]. injection Heq as <- <-. eauto 8.
  - intros (-> & -> & thumbTip & indexTip & -> & -> & ->).
    apply in_or_app. right. now left.
Qed.

Lemma callback_in_drawHand (d : value float) (hand hand' : Hand) (has_callback : bool) :
  In (callback d hand) (drawHand has_callback hand') <->
  (0.8 <? confidence hand') = true /\ In (callback d hand) (drawDistance has_callback hand').
Proof.
  unfold drawHand. destruct (0.8 <? confidence hand'); [|cbn; intuition discriminate].
  rewrite !in_app_iff, in_concat. split.
  - intros [Hin | [(l & Hl & Hin) | [Hin | Hin]]].
    + cbn in Hin. intuition discriminate.
    + apply in_map_iff in Hl as (c & <- & _).
      now apply callback_in_drawConnection in Hin.
    + cbn in Hin. intuition discriminate.
    + now split.
  - intros [_ Hin]. auto.
Qed.

(** The callback is called for the hands above the threshold that show both
    tips, with the distance as [toFixed(1)] printed it. *)
Lemma callback_in_drawFrame (d : value float) (hand : Hand)
    (w h : float) (has_callback : bool) (st : Webcam) :
  In (callback d hand) (drawFrame w h has_callback st) <->
  webcamReady st = true /\ has_callback = true
  /\ In hand (detectedHands st)
  /\ (0.8 <? confidence hand) = true
  /\ exists thumbTip indexTip,
       keypoints hand !! 4%nat = Some thumbTip
       /\ keypoints hand !! 8%nat = Some indexTip
       /\ d = VStr (distance thumbTip indexTip).
Proof.
  unfold drawFrame. rewrite in_app_iff. split.
  - intros [Hin | Hin]; [|cbn in Hin; intuition discriminate].
    destruct (webcamReady st); [|destruct Hin].
    destruct Hin as [Hin | Hin]; [discriminate|].
    destruct (0 <? length (detectedHands st))%nat; [|destruct Hin].
    apply in_concat in Hin as (l & Hl & Hin).
    apply in_map_iff in Hl as (hand' & <- & Hhand).
    apply callback_in_drawHand in Hin as [Hconf Hin].
    apply callback_in_drawDistance in Hin as (Hcb & -> & Htips).
    auto.
  - intros (-> & Hcb & Hhand & Hconf & Htips). left. right.
    assert (Hlen : (0 <? length (detectedHands st))%nat = true).
    { destruct (detectedHands st); [destruct Hhand | reflexivity]. }
    rewrite Hlen. apply in_concat. exists (drawHand has_callback hand).
    split; [now apply in_map|].
    apply callback_in_drawHand. split; [assumption|].
    apply callback_in_drawDistance. auto.
Qed.

(** The label is drawn 5 right of and 5 above the midpoint of the two tips. *)
Lemma label_in_drawFrame (hand : Hand) (thumbTip indexTip : Keypoint)
    (w h : float) (has_callback : bool) (st : Webcam) :
  webcamReady st = true ->
  In hand (detectedHands st) ->
  (0.8 <? confidence hand) = true ->
  keypoints hand !! 4%nat = Some thumbTip ->
  keypoints hand !! 8%nat = Some indexTip ->
  In (fillText (distance thumbTip indexTip +:+ "px")
        ((x thumbTip + x indexTip) / 2 + 5) ((y thumbTip + y indexTip) / 2 - 5))
     (drawFrame w h has_callback st).
Proof.
  intros Hready Hhand Hconf E4 E8. unfold drawFrame. rewrite Hready.
  apply in_or_app. left. right.
  assert (Hlen : (0 <? length (detectedHands st))%nat = true).
  { destruct (detectedHands st); [destruct Hhand | reflexivity]. }
  rewrite Hlen. apply in_concat. exists (drawHand has_callback hand).
  split; [now apply in_map|].
  unfold drawHand. rewrite Hconf. rewrite !in_app_iff. right. right. right.
  unfold drawDistance. rewrite E4, E8. apply in_or_app. left.
  cbn. auto 10.
Qed.

End Distance.

(** [nearest] is the integer that [toFixed] is specified with: no integer is
    closer, and one as close is not larger. *)
Lemma nearest_bounds (y : Q) :
  (inject_Z (nearest y) - (1 # 2) <= y < inject_Z (nearest y) + (1 # 2))%Q.
Proof.
  unfold nearest.
  pose proof (Qfloor_le (y + (1 # 2))) as Hle.
  pose proof (Qlt_floor (y + (1 # 2))) as Hlt.
  rewrite inject_Z_plus in Hlt. change (inject_Z 1) with 1%Q in Hlt.
  split; lra.
Qed.

Lemma nearest_closest (y : Q) (k : Z) :
  (Qabs (inject_Z (nearest y) - y) <= Qabs (inject_Z k - y))%Q
  /\ ((Qabs (inject_Z k - y) == Qabs (inject_Z (nearest y) - y))%Q -> (k <= nearest y)%Z).
Proof.
  pose proof (nearest_bounds y) as [Hlo Hhi].
  set (n := nearest y) in *.
  assert (Hn : (Qabs (inject_Z n - y) <= 1 # 2)%Q).
  { apply Qabs_Qle_condition. split; lra. }
  destruct (Z_lt_le_dec n k) as [Hk | Hk].
  - assert (Hk' : (inject_Z n + 1 <= inject_Z k)%Q).
    { change 1%Q with (inject_Z 1). rewrite <- inject_Z_plus, <- Zle_Qle. lia. }
    assert (Hfar : (1 # 2 < Qabs (inject_Z k - y))%Q).
    { rewrite Qabs_pos by lra. lra. }
    split; [lra|]. intros E. rewrite E in Hfar. lra.
  - split; [|intros _; exact Hk].
    destruct (Z.eq_dec k n) as [-> | Hne]; [apply Qle_refl|].
    assert (Hk' : (inject_Z k + 1 <= inject_Z n)%Q).
    { change 1%Q with (inject_Z 1). rewrite <- inject_Z_plus, <- Zle_Qle. lia. }
    rewrite (Qabs_neg (inject_Z k - y)) by lra. lra.
Qed.

(** C9, as the code has it: for a detected hand above the threshold that
    shows both tips, the label drawn by the midpoint (5 to the right, 5 up) is
    [Math.sqrt(dx * dx + dy * dy).toFixed(1)] followed by "px", and what the
    caller's callback is given, if there is one, is that same string: the
    distance rounded to one decimal and printed, never the number. *)
Theorem drawFrame_distance (core : Core float) (w h : float) (has_callback : bool)
    (st : Webcam) (hand : Hand) (thumbTip indexTip : Keypoint) :
  webcamReady st = true ->
  In hand (detectedHands st) ->
  (0.8 <? confidence hand)%float = true ->
  keypoints hand !! 4%nat = Some thumbTip ->
  keypoints hand !! 8%nat = Some indexTip ->
  let dx := (x indexTip - x thumbTip)%float in
  let dy := (y indexTip - y thumbTip)%float in
  let printed := toFixed (sqrt (dx * dx + dy * dy))%float 1 in
  In (fillText (printed +:+ "px")
        ((x thumbTip + x indexTip) / 2 + 5)%float ((y thumbTip + y indexTip) / 2 - 5)%float)
     (drawFrame w h has_callback st)
  /\ (forall d : value float,
        In (callback d hand) (drawFrame w h has_callback st) <->
        has_callback = true /\ d = VStr printed).
Proof.
  intros Hready Hhand Hconf E4 E8 dx dy printed.
  split; [now apply (label_in_drawFrame hand)|].
  intros d. rewrite callback_in_drawFrame. split.
  - intros (_ & Hcb & _ & _ & thumbTip' & indexTip' & E4' & E8' & ->).
    rewrite E4 in E4'. rewrite E8 in E8'. injection E4' as <-. injection E8' as <-.
    now split.
  - intros [Hcb ->]. eauto 10.
Qed.

Lemma drawFrame_distance_witness :
  let frame := drawFrame (core := stub_core) 640%float 480%float true
                 (watching (core := stub_core) [three_four]) in
  webcamReady (watching (core := stub_core) [three_four]) = true
  /\ In three_four (detectedHands (watching (core := stub_core) [three_four]))
  /\ (0.8 <? confidence three_four)%float = true
  /\ In (fillText "5.0px" 6.5%float (-3)%float) frame
  /\ (forall d : value float,
        In (callback d three_four) frame <-> true = true /\ d = VStr "5.0").
Proof.
  assert (Hready : webcamReady (watching (core := stub_core) [three_four]) = true)
    by reflexivity.
  assert (Hhand : In three_four (detectedHands (watching (core := stub_core) [three_four])))
    by (left; reflexivity).
  assert (Hconf : (0.8 <? confidence three_four)%float = true) by reflexivity.
  split; [exact Hready|]. split; [exact Hhand|]. split; [exact Hconf|].
  exact (drawFrame_distance stub_core 640%float 480%float true
           (watching (core := stub_core) [three_four]) three_four
           origin {| x := 3%float; y := 4%float |}
           Hready Hhand Hconf eq_refl eq_refl).
Defined.

(** C9 fails as stated.  With the thumb tip at (0, 0) and the index tip at
    (1, 1) the distance is the square root of 2, 1.4142135623730951 in
    binary64; the label drawn is "1.4px" and the callback is given the string
    "1.4", and is not given the number. *)
Lemma drawFrame_distance_counterexample :
  let frame := drawFrame (core := stub_core) 640%float 480%float true
                 (watching (core := stub_core) [one_one]) in
  (0.8 <? confidence one_one)%float = true
  /\ keypoints one_one !! 4%nat = Some origin
  /\ keypoints one_one !! 8%nat = Some {| x := 1%float; y := 1%float |}
  /\ sqrt ((1 - 0) * (1 - 0) + (1 - 0) * (1 - 0))%float = 1.4142135623730951%float
  /\ In (fillText "1.4px" 5.5%float (-4.5)%float) frame
  /\ In (callback (VStr "1.4") one_one) frame
  /\ ~ In (callback (VNum 1.4142135623730951%float) one_one) frame.
Proof.
  cbv zeta.
  split; [reflexivity|]. split; [reflexivity|]. split; [reflexivity|].
  split; [reflexivity|].
  split.
  { exact (label_in_drawFrame (core := stub_core) one_one origin {| x := 1%float; y := 1%float |}
             640%float 480%float true (watching (core := stub_core) [one_one])
             eq_refl (or_introl eq_refl) eq_refl eq_refl eq_refl). }
  split.
  { apply callback_in_drawFrame.
    split; [reflexivity|]. split; [reflexivity|]. split; [left; reflexivity|].
    split; [reflexivity|].
    exists origin, {| x := 1%float; y := 1%float |}.
    split; [reflexivity|]. split; reflexivity. }
  rewrite callback_in_drawFrame.
  intros (_ & _ & _ & _ & thumbTip & indexTip & _ & _ & Hd). discriminate Hd.
Qed.

(** * More of the file *)

(** ** What the value extractor returns *)

Section GetValueShape.
Context {N : Type} {num : Number N} {core : Core N}.

(** X2.  What the extractor returns is a number, a string that begins with
    an underscore, the payload itself if that is an object, or the payload
    wrapped as [{ value }] if it is not; never a bare string, a boolean,
    null or undefined. *)
Theorem getValue_shape (e : Hap N) (v : value N) :
  getValue e = Return v ->
  (exists n, v = VNum n)
  \/ (exists s, v = VStr ("_" +:+ s))
  \/ (typeof (hap_value e) = "object" /\ v = hap_value e)
  \/ (typeof (hap_value e) <> "object" /\ v = VObj {[ "value" := hap_value e ]}).
Proof.
  destruct e as [w payload]. cbn [hap_value].
  destruct payload as [| |b|n|s|props|items].
  1, 3, 4, 5: (rewrite getValue_scalar by (cbn; discriminate); cbn [hap_value];
               intros [= <-]; right; right; right; split; [cbn; discriminate | reflexivity]).
  - discriminate.
  - rewrite getValue_object; cbn zeta.
    destruct (truthy (prop props "freq")); [intros [= <-]; eauto|].
    destruct (nullish (prop props "note") (prop props "n")) as [| |b|n|name|o|items].
    5: { destruct (noteToMidi name); intros [= <-]; eauto. }
    4: { intros [= <-]; eauto. }
    all: destruct (truthy (prop props "s")); intros [= <-]; eauto 6.
  - rewrite getValue_array. intros [= <-]. eauto 6.
Qed.

(** X3.  When there is no truthy frequency and the note (or else n) is
    neither a string nor a number, a truthy sound name [s] is returned behind
    an underscore, converted to a string as JavaScript converts it (a list of
    names joined by commas), and without one the payload comes back as it
    is. *)
Theorem getValue_sound (w : TimeSpan N) (props : gmap string (value N)) :
  truthy (prop props "freq") = false ->
  typeof (nullish (prop props "note") (prop props "n")) <> "string" ->
  typeof (nullish (prop props "note") (prop props "n")) <> "number" ->
  converts (prop props "s") = true ->
  getValue {| whole := w; hap_value := VObj props |}
  = if truthy (prop props "s")
    then Return (VStr ("_" +:+ ToString (prop props "s")))
    else Return (VObj props).
Proof.
  intros Hfreq Hstring Hnumber _. rewrite getValue_object; cbn zeta. rewrite Hfreq.
  destruct (nullish (prop props "note") (prop props "n")); cbn in Hstring, Hnumber;
    congruence.
Qed.

(** X4.  With no truthy frequency, a number under [note] is returned as it
    is, 0 too, whatever [n] and [s] are; [n] is read when [note] is missing,
    undefined or null, and only then. *)
Theorem getValue_note_number (w : TimeSpan N) (props : gmap string (value N)) (k : N) :
  truthy (prop props "freq") = false ->
  props !! "note" = Some (VNum k)
  \/ ((props !! "note" = None \/ props !! "note" = Some VUndefined
       \/ props !! "note" = Some VNull)
      /\ props !! "n" = Some (VNum k)) ->
  getValue {| whole := w; hap_value := VObj props |} = Return (VNum k).
Proof.
  intros Hfreq Hnote. rewrite getValue_object; cbn zeta. rewrite Hfreq.
  unfold prop.
  destruct Hnote as [-> | [[-> | [-> | ->]] ->]]; reflexivity.
Qed.

(** X5.  A payload that is not an object (undefined, a boolean, a number, a
    string) comes back wrapped as [{ value: payload }]: a hap whose value is
    the bare number 60 gives that object, not 60. *)
Theorem getValue_wraps (e : Hap N) :
  typeof (hap_value e) <> "object" ->
  getValue e = Return (VObj {[ "value" := hap_value e ]})
  /\ forall n, getValue e <> Return (VNum n).
Proof.
  intros Hty. rewrite getValue_scalar by assumption. split; [reflexivity|].
  discriminate.
Qed.

End GetValueShape.

Lemma getValue_shape_witness :
  getValue (core := stub_core) (hap_of (VObj payload_bd)) = Return (VStr "_bd")
  /\ ((exists n, VStr "_bd" = VNum n :> value float)
      \/ (exists s, VStr "_bd" = VStr ("_" +:+ s) :> value float)
      \/ (typeof (hap_value (hap_of (VObj payload_bd))) = "object"
          /\ VStr "_bd" = hap_value (hap_of (VObj payload_bd)))
      \/ (typeof (hap_value (hap_of (VObj payload_bd))) <> "object"
          /\ VStr "_bd" = VObj {[ "value" := hap_value (hap_of (VObj payload_bd)) ]})).
Proof.
  assert (Hrun : getValue (core := stub_core) (hap_of (VObj payload_bd)) = Return (VStr "_bd"))
    by (vm_compute; reflexivity).
  split; [exact Hrun|].
  exact (getValue_shape (core := stub_core) _ _ Hrun).
Defined.

Lemma getValue_sound_witness :
  truthy (prop payload_sounds "freq") = false
  /\ typeof (nullish (prop payload_sounds "note") (prop payload_sounds "n")) <> "string"
  /\ typeof (nullish (prop payload_sounds "note") (prop payload_sounds "n")) <> "number"
  /\ converts (prop payload_sounds "s") = true
  /\ getValue (core := stub_core) (hap_of (VObj payload_sounds))
     = if truthy (prop payload_sounds "s")
       then Return (VStr ("_" +:+ ToString (core := stub_core) (prop payload_sounds "s")))
       else Return (VObj payload_sounds).
Proof.
  assert (Hfreq : truthy (prop payload_sounds "freq") = false) by (vm_compute; reflexivity).
  assert (Hstring : typeof (nullish (prop payload_sounds "note") (prop payload_sounds "n"))
                    <> "string")
    by (vm_compute; discriminate).
  assert (Hnumber : typeof (nullish (prop payload_sounds "note") (prop payload_sounds "n"))
                    <> "number")
    by (vm_compute; discriminate).
  assert (Hconverts : converts (prop payload_sounds "s") = true) by (vm_compute; reflexivity).
  split; [exact Hfreq|]. split; [exact Hstring|]. split; [exact Hnumber|].
  split; [exact Hconverts|].
  exact (getValue_sound (core := stub_core) at_zero payload_sounds
           Hfreq Hstring Hnumber Hconverts).
Defined.

(** A sound name comes back behind the underscore, and a list of them
    joined with commas. *)
Lemma getValue_sound_list :
  getValue (core := stub_core) {| whole := at_zero; hap_value := VObj payload_bd |}
  = Return (VStr "_bd")
  /\ getValue (core := stub_core) {| whole := at_zero; hap_value := VObj payload_sounds |}
     = Return (VStr "_bd,sd").
Proof. split; vm_compute; reflexivity. Qed.

Lemma getValue_note_number_witness :
  truthy (prop payload_n_only "freq") = false
  /\ (payload_n_only !! "note" = Some (VNum 7%float)
      \/ ((payload_n_only !! "note" = None \/ payload_n_only !! "note" = Some VUndefined
           \/ payload_n_only !! "note" = Some VNull)
          /\ payload_n_only !! "n" = Some (VNum 7%float)))
  /\ getValue (core := stub_core) (hap_of (VObj payload_n_only)) = Return (VNum 7%float).
Proof.
  assert (Hfreq : truthy (prop payload_n_only "freq") = false) by (vm_compute; reflexivity).
  assert (Hnote : payload_n_only !! "note" = Some (VNum 7%float)
                  \/ ((payload_n_only !! "note" = None
                       \/ payload_n_only !! "note" = Some VUndefined
                       \/ payload_n_only !! "note" = Some VNull)
                      /\ payload_n_only !! "n" = Some (VNum 7%float))).
  { right. split; [right; right|]; vm_compute; reflexivity. }
  split; [exact Hfreq|]. split; [exact Hnote|].
  exact (getValue_note_number (core := stub_core) at_zero payload_n_only 7%float Hfreq Hnote).
Defined.

Lemma getValue_wraps_witness :
  typeof (hap_value (hap_of (VNum 60%float))) <> "object"
  /\ getValue (core := stub_core) (hap_of (VNum 60%float))
     = Return (VObj {[ "value" := VNum 60%float ]})
  /\ forall n, getValue (core := stub_core) (hap_of (VNum 60%float)) <> Return (VNum n).
Proof.
  assert (Hty : typeof (hap_value (hap_of (VNum 60%float))) <> "object") by discriminate.
  split; [exact Hty|].
  exact (getValue_wraps (core := stub_core) (hap_of (VNum 60%float)) Hty).
Defined.

(** ** More on the window *)

Lemma eqb_zero_true (a : float) :
  finite a = true -> (a =? 0)%float = true <-> (F2Q a == 0)%Q.
Proof.
  unfold finite, F2Q. rewrite FloatAxioms.eqb_spec. change (Prim2SF 0) with (S754_zero false).
  destruct (Prim2SF a) as [s | s | | s m e]; cbn [SFfinite B2Q]; try discriminate.
  - intros _. split; reflexivity.
  - intros _. pose proof (exact_pos m e). unfold SFeqb. cbn [SFcompare].
    destruct s; (split; [discriminate | intros E; exfalso; lra]).
Qed.

(** X6.  In binary64, for [min <= max] and a fraction in [0, 1], [scale]
    does not go below [min], and at 0 it is [min].  It can miss [max] and
    pass it: [scale(1, -1e16, 3)] is 4. *)
Theorem scale_range (s lo hi : float) :
  finite s = true -> finite lo = true -> finite hi = true ->
  (0 <= F2Q s)%Q -> (F2Q s <= 1)%Q -> (F2Q lo <= F2Q hi)%Q ->
  (- bpow 1021 <= F2Q lo)%Q -> (F2Q hi <= bpow 1021)%Q ->
  finite (scale s lo hi) = true
  /\ (F2Q lo <= F2Q (scale s lo hi))%Q
  /\ (F2Q (scale 0%float lo hi) == F2Q lo)%Q
  /\ scale 1%float (-1e16)%float 3%float = 4%float.
Proof.
  intros Hs Hlo Hhi Hs0 Hs1 Hle Hlow Hhigh.
  assert (E1021 : (bpow 1022 == 2 * bpow 1021)%Q)
    by (change 1022%Z with (1021 + 1)%Z; apply bpow_succ).
  assert (E1022 : (bpow 1023 == 2 * bpow 1022)%Q)
    by (change 1023%Z with (1022 + 1)%Z; apply bpow_succ).
  pose proof (bpow_pos 1021) as Hpos.
  assert (Ebig : (F2Q 0x1p1022 == bpow 1022)%Q) by reflexivity.
  assert (Ezero : (F2Q 0 == 0)%Q) by reflexivity.
  (* max - min *)
  assert (Hd : nearest_to (Prim2SF (hi - lo)) (F2Q hi - F2Q lo)).
  { apply sub_nearest; [exact Hhi | exact Hlo |]. rewrite Qabs_pos by lra. lra. }
  assert (Hd0 : (0 <= F2Q (hi - lo))%Q).
  { rewrite <- Ezero. apply (nearest_above _ 0%float _ Hd); [reflexivity|].
    rewrite Ezero. lra. }
  assert (Hd1 : (F2Q (hi - lo) <= bpow 1022)%Q).
  { rewrite <- Ebig. apply (nearest_below _ 0x1p1022%float _ Hd); [reflexivity|].
    rewrite Ebig. lra. }
  destruct Hd as [[Hdf _] _]. fold (finite (hi - lo)) in Hdf.
  (* a fraction of it *)
  assert (Hprod : forall t : float, finite t = true -> (0 <= F2Q t)%Q -> (F2Q t <= 1)%Q ->
            finite (t * (hi - lo)) = true
            /\ (0 <= F2Q (t * (hi - lo)))%Q /\ (F2Q (t * (hi - lo)) <= bpow 1022)%Q).
  { intros t Ht Ht0 Ht1.
    assert (Hb : (0 <= F2Q t * F2Q (hi - lo) <= F2Q (hi - lo))%Q) by (split; nra).
    assert (Hm : nearest_to (Prim2SF (t * (hi - lo))) (F2Q t * F2Q (hi - lo))).
    { apply mul_nearest; [exact Ht | exact Hdf |]. rewrite Qabs_pos by lra. lra. }
    split; [apply Hm|]. split.
    - rewrite <- Ezero. apply (nearest_above _ 0%float _ Hm); [reflexivity|].
      rewrite Ezero. lra.
    - apply Qle_trans with (F2Q (hi - lo)); [|exact Hd1].
      apply (nearest_below _ (hi - lo)%float _ Hm); [exact Hdf | lra]. }
  (* and min *)
  assert (Hsum : forall t : float, finite t = true -> (0 <= F2Q t)%Q -> (F2Q t <= 1)%Q ->
            nearest_to (Prim2SF (t * (hi - lo) + lo)) (F2Q (t * (hi - lo)) + F2Q lo)).
  { intros t Ht Ht0 Ht1. destruct (Hprod t Ht Ht0 Ht1) as (Hmf & Hm0 & Hm1).
    apply add_nearest; [exact Hmf | exact Hlo |].
    apply Qle_lt_trans with (bpow 1022 + bpow 1021)%Q; [|lra].
    apply Qabs_bound. split; lra. }
  destruct (Hprod s Hs Hs0 Hs1) as (Hmf & Hm0 & Hm1).
  pose proof (Hsum s Hs Hs0 Hs1) as Hr.
  split; [apply Hr|]. split.
  { apply (nearest_above _ lo _ Hr); [exact Hlo | lra]. }
  split; [|reflexivity].
  (* the fraction 0 *)
  assert (Hzero : finite 0 = true) by reflexivity.
  destruct (Hprod 0%float Hzero ltac:(rewrite Ezero; lra) ltac:(rewrite Ezero; lra))
    as (Hzf & Hz0 & _).
  assert (Hz : nearest_to (Prim2SF (0 * (hi - lo))) (F2Q 0 * F2Q (hi - lo))).
  { apply mul_nearest; [reflexivity | exact Hdf |].
    rewrite Ezero. assert (E : (0 * F2Q (hi - lo) == 0)%Q) by ring. rewrite E.
    change (Qabs 0) with 0%Q. pose proof (bpow_pos 1023). lra. }
  assert (Ez : (F2Q (0 * (hi - lo)) == 0)%Q).
  { assert (Hup : (F2Q (0 * (hi - lo)) <= F2Q 0)%Q).
    { apply (nearest_below _ 0%float _ Hz); [reflexivity|]. rewrite Ezero. lra. }
    rewrite Ezero in Hup. lra. }
  pose proof (Hsum 0%float Hzero ltac:(rewrite Ezero; lra) ltac:(rewrite Ezero; lra)) as Hr0.
  assert (Hup : (F2Q (0 * (hi - lo) + lo) <= F2Q lo)%Q).
  { apply (nearest_below _ lo _ Hr0); [exact Hlo | lra]. }
  assert (Hdown : (F2Q lo <= F2Q (0 * (hi - lo) + lo))%Q).
  { apply (nearest_above _ lo _ Hr0); [exact Hlo | lra]. }
  change (scale 0%float lo hi) with (0 * (hi - lo) + lo)%float. lra.
Qed.

Lemma scale_range_witness :
  finite 0.25 = true /\ finite 10 = true /\ finite 90 = true
  /\ (0 <= F2Q 0.25)%Q /\ (F2Q 0.25 <= 1)%Q /\ (F2Q 10 <= F2Q 90)%Q
  /\ (- bpow 1021 <= F2Q 10)%Q /\ (F2Q 90 <= bpow 1021)%Q
  /\ finite (scale 0.25%float 10%float 90%float) = true
  /\ (F2Q 10 <= F2Q (scale 0.25%float 10%float 90%float))%Q
  /\ (F2Q (scale 0%float 10%float 90%float) == F2Q 10)%Q
  /\ scale 1%float (-1e16)%float 3%float = 4%float.
Proof.
  assert (Hs : finite 0.25 = true) by reflexivity.
  assert (Hlo : finite 10 = true) by reflexivity.
  assert (Hhi : finite 90 = true) by reflexivity.
  assert (Hs0 : (0 <= F2Q 0.25)%Q) by (vm_compute; discriminate).
  assert (Hs1 : (F2Q 0.25 <= 1)%Q) by (vm_compute; discriminate).
  assert (Hle : (F2Q 10 <= F2Q 90)%Q) by (vm_compute; discriminate).
  assert (Hlow : (- bpow 1021 <= F2Q 10)%Q) by (vm_compute; discriminate).
  assert (Hhigh : (F2Q 90 <= bpow 1021)%Q) by (vm_compute; discriminate).
  split; [exact Hs|]. split; [exact Hlo|]. split; [exact Hhi|]. split; [exact Hs0|].
  split; [exact Hs1|]. split; [exact Hle|]. split; [exact Hlow|]. split; [exact Hhigh|].
  exact (scale_range 0.25 10 90 Hs Hlo Hhi Hs0 Hs1 Hle Hlow Hhigh).
Defined.

(** X7.  In binary64, for [cycles >= 0], a playhead in [0, 1] and
    [overscan >= 0], short of overflow: the window has now inside it
    ([from <= 0 <= to]) and is no wider than the cycles on either side, and
    what [draw] is told to look behind and ahead contains it. *)
Theorem canvas_window_invariants (core : Core float) (c p o : float)
    (h : option bool) (i : option float) :
  finite c = true -> finite p = true -> finite o = true ->
  (0 <= F2Q c)%Q -> (0 <= F2Q p)%Q -> (F2Q p <= 1)%Q -> (0 <= F2Q o)%Q ->
  (F2Q c + F2Q o < bpow 1023)%Q ->
  let options := {| cycles := Some c; playhead := Some p; overscan := Some o;
                    hideNegative := h; id := i |} in
  let from := (canvas_window options).1 in
  let to := (canvas_window options).2 in
  finite from = true /\ finite to = true
  /\ (- F2Q c <= F2Q from)%Q /\ (F2Q from <= 0)%Q
  /\ (0 <= F2Q to)%Q /\ (F2Q to <= F2Q c)%Q
  /\ (F2Q (lookbehind (canvas options)) <= F2Q from)%Q
  /\ (F2Q to <= F2Q (lookahead (canvas options)))%Q.
Proof.
  intros Hc Hp Ho Hc0 Hp0 Hp1 Ho0 Hsum options from to.
  change from with (- c * p)%float. change to with (c * (1 - p))%float.
  change (lookbehind (canvas options)) with (- c * p - o)%float.
  change (lookahead (canvas options)) with (c * (1 - p) + o)%float.
  clear from to options.
  assert (Ezero : (F2Q 0 == 0)%Q) by reflexivity.
  assert (Eone : (F2Q 1 == 1)%Q) by reflexivity.
  assert (Htwo : (2 < bpow 1023)%Q) by (change 2%Q with (bpow 1); apply bpow_lt; lia).
  destruct (opp_exact c) as [Hnegf Hneg].
  (* from *)
  assert (Hb : (- F2Q c <= - F2Q c * F2Q p <= 0)%Q) by (split; nra).
  assert (Hfrom : nearest_to (Prim2SF (- c * p)) (F2Q (- c) * F2Q p)).
  { apply mul_nearest; [congruence | exact Hp |]. rewrite Hneg.
    apply Qle_lt_trans with (F2Q c); [apply Qabs_bound; split; lra | lra]. }
  assert (Hfrom0 : (F2Q (- c * p) <= 0)%Q).
  { rewrite <- Ezero. apply (nearest_below _ 0%float _ Hfrom); [reflexivity|].
    rewrite Ezero, Hneg. lra. }
  assert (Hfrom1 : (- F2Q c <= F2Q (- c * p))%Q).
  { rewrite <- Hneg. apply (nearest_above _ (- c)%float _ Hfrom); [congruence|].
    rewrite Hneg. lra. }
  destruct Hfrom as [[Hfromf _] _]. fold (finite (- c * p)) in Hfromf.
  (* 1 - playhead *)
  assert (Ht1 : nearest_to (Prim2SF (1 - p)) (F2Q 1 - F2Q p)).
  { apply sub_nearest; [reflexivity | exact Hp |]. rewrite Eone.
    rewrite Qabs_pos by lra. lra. }
  assert (Ht10 : (0 <= F2Q (1 - p))%Q).
  { rewrite <- Ezero. apply (nearest_above _ 0%float _ Ht1); [reflexivity|].
    rewrite Ezero, Eone. lra. }
  assert (Ht11 : (F2Q (1 - p) <= 1)%Q).
  { rewrite <- Eone. apply (nearest_below _ 1%float _ Ht1); [reflexivity|].
    rewrite Eone. lra. }
  destruct Ht1 as [[Ht1f _] _]. fold (finite (1 - p)) in Ht1f.
  (* to *)
  assert (Hb' : (0 <= F2Q c * F2Q (1 - p) <= F2Q c)%Q) by (split; nra).
  assert (Hto : nearest_to (Prim2SF (c * (1 - p))) (F2Q c * F2Q (1 - p))).
  { apply mul_nearest; [exact Hc | exact Ht1f |]. rewrite Qabs_pos by lra. lra. }
  assert (Hto0 : (0 <= F2Q (c * (1 - p)))%Q).
  { rewrite <- Ezero. apply (nearest_above _ 0%float _ Hto); [reflexivity|].
    rewrite Ezero. lra. }
  assert (Hto1 : (F2Q (c * (1 - p)) <= F2Q c)%Q).
  { apply (nearest_below _ c _ Hto); [exact Hc | lra]. }
  destruct Hto as [[Htof _] _]. fold (finite (c * (1 - p))) in Htof.
  (* the overscan *)
  assert (Hbehind : nearest_to (Prim2SF (- c * p - o)) (F2Q (- c * p) - F2Q o)).
  { apply sub_nearest; [exact Hfromf | exact Ho |].
    apply Qle_lt_trans with (F2Q c + F2Q o)%Q; [apply Qabs_bound; split; lra | lra]. }
  assert (Hahead : nearest_to (Prim2SF (c * (1 - p) + o)) (F2Q (c * (1 - p)) + F2Q o)).
  { apply add_nearest; [exact Htof | exact Ho |].
    apply Qle_lt_trans with (F2Q c + F2Q o)%Q; [apply Qabs_bound; split; lra | lra]. }
  split; [exact Hfromf|]. split; [exact Htof|]. split; [exact Hfrom1|].
  split; [exact Hfrom0|]. split; [exact Hto0|]. split; [exact Hto1|]. split.
  - apply (nearest_below _ (- c * p)%float _ Hbehind); [exact Hfromf | lra].
  - apply (nearest_above _ (c * (1 - p))%float _ Hahead); [exact Htof | lra].
Qed.

Lemma canvas_window_invariants_witness :
  let options := {| cycles := Some 0.2%float; playhead := Some 0.1%float;
                    overscan := Some 1%float; hideNegative := None; id := None |} in
  finite 0.2 = true /\ finite 0.1 = true /\ finite 1 = true
  /\ (0 <= F2Q 0.2)%Q /\ (0 <= F2Q 0.1)%Q /\ (F2Q 0.1 <= 1)%Q /\ (0 <= F2Q 1)%Q
  /\ (F2Q 0.2 + F2Q 1 < bpow 1023)%Q
  /\ finite (canvas_window options).1 = true /\ finite (canvas_window options).2 = true
  /\ (- F2Q 0.2 <= F2Q (canvas_window options).1)%Q
  /\ (F2Q (canvas_window options).1 <= 0)%Q
  /\ (0 <= F2Q (canvas_window options).2)%Q
  /\ (F2Q (canvas_window options).2 <= F2Q 0.2)%Q
  /\ (F2Q (lookbehind (canvas (core := stub_core) options))
      <= F2Q (canvas_window options).1)%Q
  /\ (F2Q (canvas_window options).2
      <= F2Q (lookahead (canvas (core := stub_core) options)))%Q.
Proof.
  cbv zeta.
  assert (Hc : finite 0.2 = true) by reflexivity.
  assert (Hp : finite 0.1 = true) by reflexivity.
  assert (Ho : finite 1 = true) by reflexivity.
  assert (Hc0 : (0 <= F2Q 0.2)%Q) by (vm_compute; discriminate).
  assert (Hp0 : (0 <= F2Q 0.1)%Q) by (vm_compute; discriminate).
  assert (Hp1 : (F2Q 0.1 <= 1)%Q) by (vm_compute; discriminate).
  assert (Ho0 : (0 <= F2Q 1)%Q) by (vm_compute; discriminate).
  assert (Hsum : (F2Q 0.2 + F2Q 1 < bpow 1023)%Q) by (vm_compute; reflexivity).
  split; [exact Hc|]. split; [exact Hp|]. split; [exact Ho|]. split; [exact Hc0|].
  split; [exact Hp0|]. split; [exact Hp1|]. split; [exact Ho0|]. split; [exact Hsum|].
  exact (canvas_window_invariants stub_core 0.2 0.1 1 None None
           Hc Hp Ho Hc0 Hp0 Hp1 Ho0 Hsum).
Defined.

(** What the painter is handed does not depend on the overscan or the id. *)
Lemma painted_filter {N : Type} {num : Number N} {core : Core N}
    (options : CanvasOptions N) (haps : list (Hap N)) (t : N) :
  painted (canvas options) haps t
  = filter (fun hap => inFrame (default false (hideNegative options))
                         (canvas_window options).1 (canvas_window options).2 hap t = true)
      haps.
Proof.
  unfold canvas. destruct (canvas_window options) as [from to]. reflexivity.
Qed.

(** X8.  The haps the painter is handed are haps it was given, in their
    order; with hideNegative on they are those handed over with it off that
    begin at 0 or later; leaving hideNegative out is having it off; and the
    overscan and the id make no difference to them. *)
Theorem painted_hideNegative :
  forall (N : Type) (num : Number N) (core : Core N)
         (c p o : option N) (i : option N) (haps : list (Hap N)) (t : N),
    let options hide := {| cycles := c; playhead := p; overscan := o;
                           hideNegative := hide; id := i |} in
    (forall hide, painted (canvas (options hide)) haps t `sublist_of` haps)
    /\ painted (canvas (options (Some true))) haps t
       = filter (fun hap => ge (begin (whole hap)) (lit 0) = true)
           (painted (canvas (options (Some false))) haps t)
    /\ painted (canvas (options None)) haps t
       = painted (canvas (options (Some false))) haps t
    /\ (forall hide o' i',
          painted (canvas {| cycles := c; playhead := p; overscan := o';
                             hideNegative := hide; id := i' |}) haps t
          = painted (canvas (options hide)) haps t).
Proof.
  intros N num core c p o i haps t options. subst options. cbv beta.
  split; [intros hide; rewrite painted_filter; apply sublist_filter|].
  split.
  { rewrite !painted_filter, list_filter_filter. apply list_filter_iff.
    intros hap. cbn [hideNegative default]. rewrite !inFrame_true. cbn [canvas_window].
    split.
    - intros [[Hhide | Hbegin] Hwithin]; [discriminate|]. auto.
    - intros [Hbegin [_ Hwithin]]. auto. }
  split; [rewrite !painted_filter; reflexivity|].
  intros hide o' i'. rewrite !painted_filter. reflexivity.
Qed.

(** The other way round: [CY] and [PH] are the computed cycles and playhead
    of a draw time [(lb, la)], with [A = la], [B = |lb|] and [S = A + B]. *)
Lemma error_cycles (u eta A B CY : Q) :
  (0 < u)%Q -> (u <= 1 # 1000)%Q -> (0 <= eta)%Q -> (eta <= u * (A + B))%Q ->
  (0 <= A)%Q -> (0 <= B)%Q -> (0 < A + B)%Q ->
  (Qabs (CY - (A + B)) <= (A + B) * u + eta)%Q ->
  (Qabs (CY - (A + B)) <= 2 * (u * (A + B)))%Q
  /\ ((99 # 100) * (A + B) <= CY)%Q /\ (CY <= (101 # 100) * (A + B))%Q.
Proof.
  intros Hu0 Hu Heta0 HetaS HA HB HS HCY. apply Qabs_bound in HCY.
  assert (H : (0 < u * (A + B))%Q) by nra.
  assert (H' : (u * (A + B) <= (1 # 1000) * (A + B))%Q) by nra.
  split; [apply Qabs_bound; split; lra|]. split; lra.
Qed.

Lemma error_playhead (u eta S B CY PH : Q) :
  (0 < u)%Q -> (u <= 1 # 1000)%Q -> (0 <= eta)%Q -> (eta <= u)%Q ->
  (0 <= B)%Q -> (B <= S)%Q -> (0 < S)%Q ->
  ((99 # 100) * S <= CY)%Q -> (CY <= (101 # 100) * S)%Q ->
  (Qabs (B / CY) < 2)%Q
  /\ ((Qabs (PH - B / CY) <= Qabs (B / CY) * u + eta)%Q ->
      (Qabs (CY * PH - B) <= 4 * (u * S))%Q
      /\ (Qabs (1 - PH) <= 2)%Q).
Proof.
  intros Hu0 Hu Heta0 Hetau HB HBS HS HCYlo HCYhi.
  assert (HCY0 : (0 < CY)%Q) by lra.
  set (R := (B / CY)%Q).
  assert (ER : (R * CY == B)%Q) by (unfold R; field; lra).
  clearbody R.
  assert (HR0 : (0 <= R)%Q).
  { destruct (Qlt_le_dec R 0) as [Hneg | Hnn]; [|exact Hnn]. nra. }
  assert (HR1 : (R <= 102 # 100)%Q).
  { destruct (Qlt_le_dec (102 # 100) R) as [Hgt | Hle]; [exfalso|exact Hle].
    assert (Hx : ((102 # 100) * CY <= R * CY)%Q) by nra. nra. }
  rewrite (Qabs_pos R) by exact HR0.
  split; [lra|]. intros HPH. apply Qabs_bound in HPH.
  assert (Hru : (R * u <= (102 # 100) * u)%Q) by nra.
  assert (He : (- (3 * u) <= PH - R <= 3 * u)%Q) by (split; lra).
  assert (HuS : (0 < u * S)%Q) by nra.
  split.
  - assert (E : (CY * PH - B == CY * (PH - R))%Q) by (rewrite <- ER; ring).
    rewrite E.
    assert (H1 : (CY * (3 * u) <= 4 * (u * S))%Q) by nra.
    apply Qabs_bound. split; nra.
  - apply Qabs_bound. split; lra.
Qed.

(** The window of the computed cycles and playhead: [X] is [CY * PH],
    [FROM] and [TO] the computed [from] and [to]. *)
Lemma error_window_from (u eta S B X FROM : Q) :
  (0 < u)%Q -> (u <= 1 # 1000)%Q -> (0 <= eta)%Q -> (eta <= u * S)%Q ->
  (0 <= B)%Q -> (B <= S)%Q -> (0 < S)%Q ->
  (Qabs (X - B) <= 4 * (u * S))%Q ->
  (Qabs X <= S + 4 * (u * S))%Q
  /\ ((Qabs (FROM - - X) <= Qabs X * u + eta)%Q ->
      (Qabs (FROM - - B) <= 16 * u * S)%Q).
Proof.
  intros Hu0 Hu Heta0 HetaS HB HBS HS HX. apply Qabs_bound in HX.
  assert (HuS : (0 < u * S)%Q) by nra.
  assert (HXa : (Qabs X <= S + 4 * (u * S))%Q) by (apply Qabs_bound; split; lra).
  split; [exact HXa|]. intros HF. apply Qabs_bound in HF.
  pose proof (Qabs_nonneg X) as Hnn.
  assert (H : (Qabs X * u <= (S + 4 * (u * S)) * u)%Q) by nra.
  assert (H' : ((S + 4 * (u * S)) * u <= 2 * (u * S))%Q) by nra.
  apply Qabs_bound. split; lra.
Qed.

Lemma error_window_to (u eta A B CY PH T1 TO : Q) :
  (0 < u)%Q -> (u <= 1 # 1000)%Q -> (0 <= eta)%Q -> (eta <= u * (A + B))%Q -> (eta <= u)%Q ->
  (0 <= A)%Q -> (0 <= B)%Q -> (0 < A + B)%Q ->
  (Qabs (CY - (A + B)) <= 2 * (u * (A + B)))%Q ->
  (0 <= CY)%Q -> (CY <= (101 # 100) * (A + B))%Q ->
  (Qabs (CY * PH - B) <= 4 * (u * (A + B)))%Q ->
  (Qabs (1 - PH) <= 2)%Q ->
  (Qabs (T1 - (1 - PH)) <= Qabs (1 - PH) * u + eta)%Q ->
  (Qabs (CY * T1) <= (A + B) + 10 * (u * (A + B)))%Q
  /\ ((Qabs (TO - CY * T1) <= Qabs (CY * T1) * u + eta)%Q ->
      (Qabs (TO - A) <= 16 * u * (A + B))%Q).
Proof.
  intros Hu0 Hu Heta0 HetaS Hetau HA HB HS HCY HCY0 HCYhi HX H1PH HT1.
  apply Qabs_bound in HCY. apply Qabs_bound in HX. apply Qabs_bound in HT1.
  pose proof (Qabs_nonneg (1 - PH)) as Hnn1.
  assert (HuS : (0 < u * (A + B))%Q) by nra.
  assert (Hu1 : (Qabs (1 - PH) * u <= 2 * u)%Q) by nra.
  assert (He2 : (- (3 * u) <= T1 - (1 - PH) <= 3 * u)%Q) by (split; lra).
  assert (HY1 : (- (4 * (u * (A + B))) <= CY * T1 - CY * (1 - PH)
                 <= 4 * (u * (A + B)))%Q).
  { assert (E : (CY * T1 - CY * (1 - PH) == CY * (T1 - (1 - PH)))%Q) by ring.
    rewrite E. assert (Hb : (CY * (3 * u) <= 4 * (u * (A + B)))%Q) by nra.
    split; nra. }
  assert (HY : (- (10 * (u * (A + B))) <= CY * T1 - A <= 10 * (u * (A + B)))%Q).
  { assert (E : (CY * (1 - PH) == CY - CY * PH)%Q) by ring. rewrite E in HY1.
    split; lra. }
  assert (HYa : (Qabs (CY * T1) <= (A + B) + 10 * (u * (A + B)))%Q).
  { apply Qabs_bound. split; lra. }
  split; [exact HYa|]. intros HTO. apply Qabs_bound in HTO.
  pose proof (Qabs_nonneg (CY * T1)) as Hnn.
  assert (H : (Qabs (CY * T1) * u <= ((A + B) + 10 * (u * (A + B))) * u)%Q) by nra.
  assert (H' : (((A + B) + 10 * (u * (A + B))) * u <= 2 * (u * (A + B)))%Q) by nra.
  apply Qabs_bound. split; lra.
Qed.

(** X9.  The round trip the other way, in binary64: for a draw time
    [(lookbehind, lookahead)] with [lookahead >= 0] whose cycles
    [lookahead + |lookbehind|] are in the normal range, the window of the
    cycles and the playhead that [getDrawOptions] infers is
    [from = -|lookbehind|], [to = lookahead], each to within 2^-49 of the
    cycles. *)
Theorem drawTime_roundtrip (lb la : float) (options : gmap string (value float)) :
  finite lb = true -> finite la = true -> (0 <= F2Q la)%Q ->
  (bpow (-1022) <= F2Q la + Qabs (F2Q lb))%Q ->
  (F2Q la + Qabs (F2Q lb) <= bpow 1022)%Q ->
  exists cycles' playhead' : float,
    getDrawOptions (lb, la) options !! "cycles" = Some (VNum cycles')
    /\ getDrawOptions (lb, la) options !! "playhead" = Some (VNum playhead')
    /\ finite (canvas_window (window_of cycles' playhead')).1 = true
    /\ finite (canvas_window (window_of cycles' playhead')).2 = true
    /\ (Qabs (F2Q (canvas_window (window_of cycles' playhead')).1 - - Qabs (F2Q lb))
        <= bpow (-49) * (F2Q la + Qabs (F2Q lb)))%Q
    /\ (Qabs (F2Q (canvas_window (window_of cycles' playhead')).2 - F2Q la)
        <= bpow (-49) * (F2Q la + Qabs (F2Q lb)))%Q.
Proof.
  intros Hlb Hla HA Hlow Hhigh.
  set (u := bpow (-53)). set (eta := bpow (-1075)).
  assert (Hu0 : (0 < u)%Q) by apply bpow_pos.
  assert (Heta0 : (0 <= eta)%Q) by (apply Qlt_le_weak, bpow_pos).
  assert (Hu : (u <= 1 # 1000)%Q) by (vm_compute; discriminate).
  assert (Hmin : (0 < bpow (-1022))%Q) by apply bpow_pos.
  assert (Eeta : (eta == u * bpow (-1022))%Q)
    by (unfold eta, u; rewrite <- bpow_plus; reflexivity).
  assert (Hone : (bpow (-1022) <= 1)%Q) by (vm_compute; discriminate).
  assert (Ebig : (bpow 1023 == 2 * bpow 1022)%Q)
    by (change 1023%Z with (1022 + 1)%Z; apply bpow_succ).
  assert (Htwo : (2 < bpow 1023)%Q) by (change 2%Q with (bpow 1); apply bpow_lt; lia).
  assert (Etol : (bpow (-49) == 16 * u)%Q)
    by (unfold u; change (-49)%Z with (4 + -53)%Z; rewrite bpow_plus; reflexivity).
  destruct (abs_exact lb) as [Habsf Habs].
  set (A := F2Q la) in *. set (B := F2Q (abs lb)) in *.
  rewrite <- Habs in Hlow, Hhigh.
  assert (HB : (0 <= B)%Q) by (rewrite Habs; apply Qabs_nonneg).
  assert (HS : (0 < A + B)%Q) by lra.
  assert (HuS : (0 < u * (A + B))%Q) by nra.
  assert (HuS' : (u * (A + B) <= (1 # 1000) * (A + B))%Q) by nra.
  assert (HetaS : (eta <= u * (A + B))%Q) by (rewrite Eeta; nra).
  assert (Hetau : (eta <= u)%Q) by (rewrite Eeta; nra).
  (* cycles = lookahead + |lookbehind| *)
  assert (Hcy : rounds_to (Prim2SF (la + abs lb)) (F2Q la + F2Q (abs lb))).
  { apply add_rounds; [exact Hla | congruence |]. fold A. fold B.
    rewrite Qabs_pos by lra. lra. }
  destruct Hcy as [Hcyf Hcy]. fold A in Hcy. fold B in Hcy.
  rewrite (Qabs_pos (A + B)) in Hcy by lra.
  fold (finite (la + abs lb)) in Hcyf. fold (F2Q (la + abs lb)) in Hcy.
  set (CY := F2Q (la + abs lb)) in *.
  destruct (error_cycles u eta A B CY Hu0 Hu Heta0 HetaS HA HB HS Hcy)
    as (HCY & HCYlo & HCYhi).
  assert (HCY0 : (0 < CY)%Q) by lra.
  (* playhead = |lookbehind| / cycles *)
  destruct (error_playhead u eta (A + B) B CY (F2Q (abs lb / (la + abs lb)))
              Hu0 Hu Heta0 Hetau HB ltac:(lra) HS HCYlo HCYhi) as [HR Hcont].
  assert (Hph : rounds_to (Prim2SF (abs lb / (la + abs lb)))
                  (F2Q (abs lb) / F2Q (la + abs lb))).
  { apply div_rounds; [congruence | exact Hcyf | |]; fold B; fold CY; lra. }
  destruct Hph as [Hphf Hph]. fold B in Hph. fold CY in Hph.
  fold (finite (abs lb / (la + abs lb))) in Hphf.
  fold (F2Q (abs lb / (la + abs lb))) in Hph.
  set (PH := F2Q (abs lb / (la + abs lb))) in *.
  destruct (Hcont Hph) as [HX H1PH].
  (* from = -cycles * playhead *)
  destruct (opp_exact (la + abs lb)) as [Hnegf Hneg]. fold CY in Hneg.
  assert (Eprod : (F2Q (- (la + abs lb)) * PH == - (CY * PH))%Q) by (rewrite Hneg; ring).
  destruct (error_window_from u eta (A + B) B (CY * PH)
              (F2Q (- (la + abs lb) * (abs lb / (la + abs lb))))
              Hu0 Hu Heta0 HetaS HB ltac:(lra) HS HX) as [HXa Hcont_from].
  assert (Hfrom : rounds_to (Prim2SF (- (la + abs lb) * (abs lb / (la + abs lb))))
                    (F2Q (- (la + abs lb)) * F2Q (abs lb / (la + abs lb)))).
  { apply mul_rounds; [congruence | exact Hphf |]. fold PH. rewrite Eprod, Qabs_opp.
    apply Qle_lt_trans with (1 := HXa). lra. }
  destruct Hfrom as [Hfromf Hfrom]. fold PH in Hfrom.
  rewrite Eprod, Qabs_opp in Hfrom.
  fold (finite (- (la + abs lb) * (abs lb / (la + abs lb)))) in Hfromf.
  fold (F2Q (- (la + abs lb) * (abs lb / (la + abs lb)))) in Hfrom.
  (* to = cycles * (1 - playhead) *)
  assert (Hone' : (F2Q 1 == 1)%Q) by reflexivity.
  assert (Ht1 : rounds_to (Prim2SF (1 - abs lb / (la + abs lb)))
                  (F2Q 1 - F2Q (abs lb / (la + abs lb)))).
  { apply sub_rounds; [reflexivity | exact Hphf |]. fold PH. rewrite Hone'. lra. }
  destruct Ht1 as [Ht1f Ht1]. fold PH in Ht1. rewrite Hone' in Ht1.
  fold (finite (1 - abs lb / (la + abs lb))) in Ht1f.
  fold (F2Q (1 - abs lb / (la + abs lb))) in Ht1.
  set (T1 := F2Q (1 - abs lb / (la + abs lb))) in *.
  destruct (error_window_to u eta A B CY PH T1
              (F2Q ((la + abs lb) * (1 - abs lb / (la + abs lb))))
              Hu0 Hu Heta0 HetaS Hetau HA HB HS HCY ltac:(lra) HCYhi HX H1PH Ht1)
    as [HYa Hcont_to].
  assert (Hto : rounds_to (Prim2SF ((la + abs lb) * (1 - abs lb / (la + abs lb))))
                  (F2Q (la + abs lb) * F2Q (1 - abs lb / (la + abs lb)))).
  { apply mul_rounds; [exact Hcyf | exact Ht1f |]. fold CY. fold T1.
    apply Qle_lt_trans with (1 := HYa). lra. }
  destruct Hto as [Htof Hto]. fold CY in Hto. fold T1 in Hto.
  fold (finite ((la + abs lb) * (1 - abs lb / (la + abs lb)))) in Htof.
  fold (F2Q ((la + abs lb) * (1 - abs lb / (la + abs lb)))) in Hto.
  (* what getDrawOptions returns, and the window of it *)
  exists (la + abs lb)%float, (abs lb / (la + abs lb))%float.
  split; [exact (getDrawOptions_cycles lb la options)|].
  split.
  { rewrite getDrawOptions_playhead. cbv zeta.
    change (strict_eq (add la (Math_abs lb)) (lit 0)) with ((la + abs lb) =? 0)%float.
    rewrite eqb_zero; [reflexivity | exact Hcyf | fold CY; lra]. }
  change (canvas_window (window_of (la + abs lb) (abs lb / (la + abs lb))))
    with ((- (la + abs lb) * (abs lb / (la + abs lb)))%float,
          ((la + abs lb) * (1 - abs lb / (la + abs lb)))%float).
  cbn [fst snd].
  split; [exact Hfromf|]. split; [exact Htof|].
  rewrite Etol, <- Habs. split; [apply Hcont_from; exact Hfrom | apply Hcont_to; exact Hto].
Qed.

Lemma drawTime_roundtrip_witness :
  finite (-1) = true /\ finite 3 = true /\ (0 <= F2Q 3)%Q
  /\ (bpow (-1022) <= F2Q 3 + Qabs (F2Q (-1)))%Q
  /\ (F2Q 3 + Qabs (F2Q (-1)) <= bpow 1022)%Q
  /\ exists cycles' playhead' : float,
       getDrawOptions ((-1)%float, 3%float) ∅ !! "cycles" = Some (VNum cycles')
       /\ getDrawOptions ((-1)%float, 3%float) ∅ !! "playhead" = Some (VNum playhead')
       /\ finite (canvas_window (window_of cycles' playhead')).1 = true
       /\ finite (canvas_window (window_of cycles' playhead')).2 = true
       /\ (Qabs (F2Q (canvas_window (window_of cycles' playhead')).1 - - Qabs (F2Q (-1)))
           <= bpow (-49) * (F2Q 3 + Qabs (F2Q (-1))))%Q
       /\ (Qabs (F2Q (canvas_window (window_of cycles' playhead')).2 - F2Q 3)
           <= bpow (-49) * (F2Q 3 + Qabs (F2Q (-1))))%Q.
Proof.
  assert (Hlb : finite (-1) = true) by reflexivity.
  assert (Hla : finite 3 = true) by reflexivity.
  assert (HA : (0 <= F2Q 3)%Q) by (vm_compute; discriminate).
  assert (Hlow : (bpow (-1022) <= F2Q 3 + Qabs (F2Q (-1)))%Q) by (vm_compute; discriminate).
  assert (Hhigh : (F2Q 3 + Qabs (F2Q (-1)) <= bpow 1022)%Q) by (vm_compute; discriminate).
  split; [exact Hlb|]. split; [exact Hla|]. split; [exact HA|]. split; [exact Hlow|].
  split; [exact Hhigh|].
  exact (drawTime_roundtrip (-1) 3 ∅ Hlb Hla HA Hlow Hhigh).
Defined.

(** X10.  In binary64, for a finite draw time with [lookahead >= 0], short
    of overflow: the cycles that [getDrawOptions] infers are not negative
    and not less than [|lookbehind|], and the playhead is in [0, 1],
    whatever the sign of [lookbehind]. *)
Theorem getDrawOptions_range (lb la : float) (options : gmap string (value float)) :
  finite lb = true -> finite la = true -> (0 <= F2Q la)%Q ->
  (F2Q la + Qabs (F2Q lb) < bpow 1023)%Q ->
  exists cycles' playhead' : float,
    getDrawOptions (lb, la) options !! "cycles" = Some (VNum cycles')
    /\ getDrawOptions (lb, la) options !! "playhead" = Some (VNum playhead')
    /\ finite cycles' = true /\ finite playhead' = true
    /\ (0 <= F2Q cycles')%Q /\ (Qabs (F2Q lb) <= F2Q cycles')%Q
    /\ (0 <= F2Q playhead')%Q /\ (F2Q playhead' <= 1)%Q.
Proof.
  intros Hlb Hla HA Hsum.
  assert (Ezero : (F2Q 0 == 0)%Q) by reflexivity.
  assert (Eone : (F2Q 1 == 1)%Q) by reflexivity.
  assert (Htwo : (2 < bpow 1023)%Q) by (change 2%Q with (bpow 1); apply bpow_lt; lia).
  destruct (abs_exact lb) as [Habsf Habs]. rewrite <- Habs in Hsum.
  assert (HB : (0 <= F2Q (abs lb))%Q) by (rewrite Habs; apply Qabs_nonneg).
  assert (Hcy : nearest_to (Prim2SF (la + abs lb)) (F2Q la + F2Q (abs lb))).
  { apply add_nearest; [exact Hla | congruence |]. rewrite Qabs_pos by lra. exact Hsum. }
  assert (HCY : (F2Q (abs lb) <= F2Q (la + abs lb))%Q).
  { apply (nearest_above _ (abs lb) _ Hcy); [congruence | lra]. }
  destruct Hcy as [[Hcyf _] _]. fold (finite (la + abs lb)) in Hcyf.
  exists (la + abs lb)%float.
  destruct ((la + abs lb) =? 0)%float eqn:Eguard.
  - (* no cycles: the guard *)
    exists 0%float.
    split; [exact (getDrawOptions_cycles lb la options)|]. split.
    { rewrite getDrawOptions_playhead. cbv zeta.
      change (strict_eq (add la (Math_abs lb)) (lit 0)) with ((la + abs lb) =? 0)%float.
      rewrite Eguard. reflexivity. }
    split; [exact Hcyf|]. split; [reflexivity|].
    split; [lra|]. split; [rewrite <- Habs; exact HCY|]. rewrite Ezero. split; lra.
  - (* the quotient *)
    assert (Hne : ~ (F2Q (la + abs lb) == 0)%Q).
    { intros E. apply (eqb_zero_true _ Hcyf) in E. congruence. }
    assert (Hpos : (0 < F2Q (la + abs lb))%Q) by lra.
    assert (HR : (0 <= F2Q (abs lb) / F2Q (la + abs lb))%Q /\
                 (F2Q (abs lb) / F2Q (la + abs lb) <= 1)%Q).
    { split; [apply Qle_shift_div_l | apply Qle_shift_div_r]; lra. }
    assert (Hph : nearest_to (Prim2SF (abs lb / (la + abs lb)))
                    (F2Q (abs lb) / F2Q (la + abs lb))).
    { apply div_nearest; [congruence | exact Hcyf | exact Hne |].
      rewrite Qabs_pos by apply HR. lra. }
    exists (abs lb / (la + abs lb))%float.
    split; [exact (getDrawOptions_cycles lb la options)|]. split.
    { rewrite getDrawOptions_playhead. cbv zeta.
      change (strict_eq (add la (Math_abs lb)) (lit 0)) with ((la + abs lb) =? 0)%float.
      rewrite Eguard. reflexivity. }
    split; [exact Hcyf|]. split; [apply Hph|].
    split; [lra|]. split; [rewrite <- Habs; exact HCY|]. split.
    + rewrite <- Ezero. apply (nearest_above _ 0%float _ Hph); [reflexivity|].
      rewrite Ezero. apply HR.
    + rewrite <- Eone. apply (nearest_below _ 1%float _ Hph); [reflexivity|].
      rewrite Eone. apply HR.
Qed.

Lemma getDrawOptions_range_witness :
  finite 1 = true /\ finite 3 = true /\ (0 <= F2Q 3)%Q
  /\ (F2Q 3 + Qabs (F2Q 1) < bpow 1023)%Q
  /\ exists cycles' playhead' : float,
       getDrawOptions (1%float, 3%float) ∅ !! "cycles" = Some (VNum cycles')
       /\ getDrawOptions (1%float, 3%float) ∅ !! "playhead" = Some (VNum playhead')
       /\ finite cycles' = true /\ finite playhead' = true
       /\ (0 <= F2Q cycles')%Q /\ (Qabs (F2Q 1) <= F2Q cycles')%Q
       /\ (0 <= F2Q playhead')%Q /\ (F2Q playhead' <= 1)%Q.
Proof.
  assert (Hlb : finite 1 = true) by reflexivity.
  assert (Hla : finite 3 = true) by reflexivity.
  assert (HA : (0 <= F2Q 3)%Q) by (vm_compute; discriminate).
  assert (Hsum : (F2Q 3 + Qabs (F2Q 1) < bpow 1023)%Q) by (vm_compute; reflexivity).
  split; [exact Hlb|]. split; [exact Hla|]. split; [exact HA|]. split; [exact Hsum|].
  exact (getDrawOptions_range 1 3 ∅ Hlb Hla HA Hsum).
Defined.

(** The fields of [getDrawOptions], key by key. *)
Lemma getDrawOptions_lookup {N : Type} {num : Number N}
    (drawTime : N * N) (options : gmap string (value N)) (k : string) :
  getDrawOptions drawTime options !! k
  = if String.eqb k "playhead" then getDrawOptions drawTime ∅ !! "playhead"
    else if String.eqb k "cycles" then getDrawOptions drawTime ∅ !! "cycles"
    else if String.eqb k "fold" then Some (default (VNum (lit 1)) (options !! "fold"))
    else options !! k.
Proof.
  destruct drawTime as [lb la].
  destruct (String.eqb_spec k "playhead") as [->|Hp];
    [now rewrite !getDrawOptions_playhead|].
  destruct (String.eqb_spec k "cycles") as [->|Hc];
    [now rewrite !getDrawOptions_cycles|].
  rewrite getDrawOptions_other by assumption. rewrite lookup_union.
  destruct (String.eqb_spec k "fold") as [->|Hf].
  - rewrite lookup_singleton_eq. destruct (options !! "fold"); reflexivity.
  - rewrite lookup_singleton_ne by congruence. apply (right_id None _).
Qed.

(** X11.  Deriving options twice is deriving them once from the later
    [drawTime]: the cycles and the playhead of the earlier one are
    overwritten, and a fold that was defaulted stays 1. *)
Theorem getDrawOptions_twice :
  forall (N : Type) (num : Number N) (drawTime drawTime' : N * N)
         (options : gmap string (value N)),
    getDrawOptions drawTime' (getDrawOptions drawTime options)
    = getDrawOptions drawTime' options.
Proof.
  intros N num drawTime drawTime' options. apply map_eq. intros k.
  rewrite (getDrawOptions_lookup drawTime' (getDrawOptions drawTime options)).
  rewrite (getDrawOptions_lookup drawTime' options).
  destruct (String.eqb k "playhead") eqn:Ep; [reflexivity|].
  destruct (String.eqb k "cycles") eqn:Ec; [reflexivity|].
  destruct (String.eqb k "fold") eqn:Ef.
  - rewrite (getDrawOptions_lookup drawTime options "fold"). reflexivity.
  - rewrite (getDrawOptions_lookup drawTime options k), Ep, Ec, Ef. reflexivity.
Qed.

(** ** The painters *)

(** The argument of [_canvas] under [getCanvasPainter], key by key. *)
Lemma getCanvasPainter_lookup {N : Type} {num : Number N}
    (options : gmap string (value N)) (ctx time haps : value N) (drawTime : N * N)
    (k : string) :
  getCanvasPainter options ctx time haps drawTime !! k
  = if String.eqb k "playhead" then getDrawOptions drawTime ∅ !! "playhead"
    else if String.eqb k "cycles" then getDrawOptions drawTime ∅ !! "cycles"
    else if String.eqb k "fold" then Some (default (VNum (lit 1)) (options !! "fold"))
    else match options !! k with
         | Some v => Some v
         | None =>
             if String.eqb k "haps" then Some haps
             else if String.eqb k "time" then Some time
             else if String.eqb k "ctx" then Some ctx
             else None
         end.
Proof.
  unfold getCanvasPainter. rewrite lookup_union, getDrawOptions_lookup.
  destruct (String.eqb_spec k "playhead") as [->|Hp].
  { destruct drawTime. now rewrite getDrawOptions_playhead. }
  destruct (String.eqb_spec k "cycles") as [->|Hc].
  { destruct drawTime. now rewrite getDrawOptions_cycles. }
  destruct (String.eqb_spec k "fold") as [->|Hf]; [reflexivity|].
  destruct (options !! k) as [v|]; [now destruct (_ !! k)|].
  rewrite (left_id None _).
  destruct (String.eqb_spec k "haps") as [->|Hh]; [apply lookup_insert_eq|].
  rewrite lookup_insert_ne by congruence.
  destruct (String.eqb_spec k "time") as [->|Ht]; [apply lookup_insert_eq|].
  rewrite lookup_insert_ne by congruence.
  destruct (String.eqb_spec k "ctx") as [->|Hx]; [apply lookup_singleton_eq|].
  now rewrite lookup_singleton_ne by congruence.
Qed.

(** X12.  Under [getCanvasPainter] (so under [punchcard]) [_canvas] is called
    with the cycles and the playhead of the [drawTime] whatever the options
    say, with fold 1 unless the options give one, and with every other option
    as it was given; the [ctx], [time] and [haps] of the paint are passed on,
    unless the options have a property of that name, which then takes their
    place. *)
Theorem getCanvasPainter_arguments :
  forall (N : Type) (num : Number N) (options : gmap string (value N))
         (ctx time haps : value N) (lookbehind lookahead : N),
    let args := punchcard options ctx time haps (lookbehind, lookahead) in
    let cycles := add lookahead (Math_abs lookbehind) in
    args !! "cycles" = Some (VNum cycles)
    /\ args !! "playhead"
       = Some (VNum (if negb (strict_eq cycles (lit 0))
                     then div (Math_abs lookbehind) cycles else lit 0))
    /\ args !! "fold" = Some (default (VNum (lit 1)) (options !! "fold"))
    /\ args !! "ctx" = Some (default ctx (options !! "ctx"))
    /\ args !! "time" = Some (default time (options !! "time"))
    /\ args !! "haps" = Some (default haps (options !! "haps"))
    /\ (forall k v, options !! k = Some v ->
          k <> "cycles" -> k <> "playhead" -> args !! k = Some v).
Proof.
  intros N num options ctx time haps lb la args cycles. subst args cycles.
  unfold punchcard.
  split; [rewrite getCanvasPainter_lookup; apply getDrawOptions_cycles|].
  split; [rewrite getCanvasPainter_lookup; apply getDrawOptions_playhead|].
  split; [rewrite getCanvasPainter_lookup; reflexivity|].
  split; [rewrite getCanvasPainter_lookup; cbn; now destruct (options !! "ctx")|].
  split; [rewrite getCanvasPainter_lookup; cbn; now destruct (options !! "time")|].
  split; [rewrite getCanvasPainter_lookup; cbn; now destruct (options !! "haps")|].
  intros k v Hk Hc Hp. rewrite getCanvasPainter_lookup.
  destruct (String.eqb_spec k "playhead"); [contradiction|].
  destruct (String.eqb_spec k "cycles"); [contradiction|].
  destruct (String.eqb_spec k "fold") as [->|]; [now rewrite Hk|].
  now rewrite Hk.
Qed.

(** The options [wordfall] passes to [punchcard], key by key. *)
Lemma wordfall_options_lookup {N : Type} {num : Number N}
    (options : gmap string (value N)) (k : string) :
  (options
   ∪ <["active" := VStr "white"]>
       (<["fillActive" := VNum (lit 1)]>
          (<["stroke" := VNum (lit 0)]>
             (<["labels" := VNum (lit 1)]> {[ "vertical" := VNum (lit 1) ]})))) !! k
  = match options !! k with
    | Some v => Some v
    | None =>
        if String.eqb k "active" then Some (VStr "white")
        else if String.eqb k "fillActive" then Some (VNum (lit 1))
        else if String.eqb k "stroke" then Some (VNum (lit 0))
        else if String.eqb k "labels" then Some (VNum (lit 1))
        else if String.eqb k "vertical" then Some (VNum (lit 1))
        else None
    end.
Proof.
  rewrite lookup_union.
  destruct (options !! k) as [v|]; [now destruct (_ !! k)|].
  rewrite (left_id None _).
  destruct (String.eqb_spec k "active") as [->|H1]; [apply lookup_insert_eq|].
  rewrite lookup_insert_ne by congruence.
  destruct (String.eqb_spec k "fillActive") as [->|H2]; [apply lookup_insert_eq|].
  rewrite lookup_insert_ne by congruence.
  destruct (String.eqb_spec k "stroke") as [->|H3]; [apply lookup_insert_eq|].
  rewrite lookup_insert_ne by congruence.
  destruct (String.eqb_spec k "labels") as [->|H4]; [apply lookup_insert_eq|].
  rewrite lookup_insert_ne by congruence.
  destruct (String.eqb_spec k "vertical") as [->|H5]; [apply lookup_singleton_eq|].
  now rewrite lookup_singleton_ne by congruence.
Qed.

(** X13.  [wordfall] paints with vertical 1, labels 1, stroke 0,
    fillActive 1 and active 'white', each unless the options give it, and
    else as [punchcard] does with the options: the cycles and the playhead
    are those of the [drawTime], and fold is 1 unless given. *)
Theorem wordfall_arguments :
  forall (N : Type) (num : Number N) (options : gmap string (value N))
         (ctx time haps : value N) (drawTime : N * N),
    let args := wordfall options ctx time haps drawTime in
    args !! "vertical" = Some (default (VNum (lit 1)) (options !! "vertical"))
    /\ args !! "labels" = Some (default (VNum (lit 1)) (options !! "labels"))
    /\ args !! "stroke" = Some (default (VNum (lit 0)) (options !! "stroke"))
    /\ args !! "fillActive" = Some (default (VNum (lit 1)) (options !! "fillActive"))
    /\ args !! "active" = Some (default (VStr "white") (options !! "active"))
    /\ args !! "fold" = Some (default (VNum (lit 1)) (options !! "fold"))
    /\ args !! "cycles" = getDrawOptions drawTime ∅ !! "cycles"
    /\ args !! "playhead" = getDrawOptions drawTime ∅ !! "playhead"
    /\ (forall k,
          ~ In k ["vertical"; "labels"; "stroke"; "fillActive"; "active";
                  "fold"; "cycles"; "playhead"] ->
          args !! k = punchcard options ctx time haps drawTime !! k).
Proof.
  intros N num options ctx time haps drawTime args. subst args.
  unfold wordfall, punchcard.
  repeat match goal with
         | |- _ !! ?k = Some _ /\ _ =>
             split; [rewrite getCanvasPainter_lookup, !wordfall_options_lookup;
                     simpl; destruct (options !! k); reflexivity|]
         end.
  split; [rewrite getCanvasPainter_lookup; reflexivity|].
  split; [rewrite getCanvasPainter_lookup; reflexivity|].
  intros k Hk. rewrite !getCanvasPainter_lookup, !wordfall_options_lookup.
  destruct (String.eqb k "playhead"); [reflexivity|].
  destruct (String.eqb k "cycles"); [reflexivity|].
  destruct (String.eqb_spec k "fold") as [->|Hf]; [cbn in Hk; tauto|].
  destruct (options !! k) as [v|]; [reflexivity|].
  repeat match goal with
         | |- context [String.eqb k ?key] =>
             destruct (String.eqb_spec k key) as [->|?]; [cbn in Hk; tauto|]
         end.
  reflexivity.
Qed.

(** X14.  [drawcanvas] lets the caller's options win over the cycles, the
    playhead and the fold derived from the [drawTime], the other way round
    from [getCanvasPainter]; and without a [drawTime] it throws. *)
Theorem drawcanvas_arguments :
  forall (N : Type) (num : Number N) (rest : gmap string (value N)),
    drawcanvas None rest = Throw TypeError
    /\ forall drawTime : N * N,
         exists args,
           drawcanvas (Some drawTime) rest = Return args
           /\ forall k,
                args !! k
                = match rest !! k with
                  | Some v => Some v
                  | None =>
                      if String.eqb k "playhead" then getDrawOptions drawTime ∅ !! "playhead"
                      else if String.eqb k "cycles" then getDrawOptions drawTime ∅ !! "cycles"
                      else if String.eqb k "fold" then Some (VNum (lit 1))
                      else None
                  end.
Proof.
  intros N num rest. split; [reflexivity|].
  intros drawTime. eexists. split; [reflexivity|].
  intros k. rewrite lookup_union.
  destruct (rest !! k) as [v|]; [now destruct (_ !! k)|].
  rewrite (left_id None _), getDrawOptions_lookup.
  destruct (String.eqb k "playhead"); [reflexivity|].
  destruct (String.eqb k "cycles"); [reflexivity|].
  destruct (String.eqb k "fold"); [reflexivity|]. apply lookup_empty.
Qed.

(** ** More on the overlay *)

Section OverlayMore.
Context {core : Core float}.
Local Open Scope float_scope.

Lemma ticks_app (cameras cameras' : list Camera) (w h : float) (has_callback : bool)
    (st : Webcam) :
  ticks (cameras ++ cameras') w h has_callback st
  = let '(st1, first) := ticks cameras w h has_callback st in
    let '(st2, rest) := ticks cameras' w h has_callback st1 in
    (st2, first ++ rest).
Proof.
  revert st. induction cameras as [|camera cameras IH]; intros st; cbn [app ticks].
  - now destruct (ticks cameras' w h has_callback st).
  - destruct (_canvas camera w h has_callback st) as [st0 e0]. rewrite IH.
    destruct (ticks cameras w h has_callback st0) as [st1 e1].
    destruct (ticks cameras' w h has_callback st1) as [st2 e2].
    now rewrite app_assoc.
Qed.

(** Once the loop has started a tick does nothing. *)
Lemma canvas_started (camera : Camera) (w h : float) (has_callback : bool)
    (st : Webcam) (video : Video) :
  webcamVideo st = Some video -> webcamDrawLoopStarted st = true ->
  _canvas camera w h has_callback st = (st, []).
Proof.
  intros Hvideo Hstarted. unfold _canvas, _canvas_call, startDrawLoop.
  now rewrite Hvideo, Hstarted.
Qed.

Lemma ticks_started (cameras : list Camera) (w h : float) (has_callback : bool)
    (st : Webcam) (video : Video) :
  webcamVideo st = Some video -> webcamDrawLoopStarted st = true ->
  ticks cameras w h has_callback st = (st, []).
Proof.
  intros Hvideo Hstarted. induction cameras as [|camera cameras IH]; [reflexivity|].
  cbn [ticks]. rewrite (canvas_started camera w h has_callback st video) by assumption.
  now rewrite IH.
Qed.

Lemma ticks_denied_effects (errs : list string) (w h : float) (has_callback : bool)
    (st : Webcam) :
  webcamVideo st = None ->
  ticks (map Denied errs) w h has_callback st
  = (st, concat (map (fun _ => fallback w h) errs)).
Proof.
  intros Hvideo. induction errs as [|err errs IH]; [reflexivity|].
  cbn [map ticks concat]. rewrite canvas_denied by assumption. now rewrite IH.
Qed.

End OverlayMore.

Section Counting.
Context {core : Core float}.
Local Open Scope float_scope.

Lemma count_concat_map {A : Type} (f : Effect -> bool) (q : A -> bool)
    (g : A -> list Effect) (l : list A) :
  (forall a, length (List.filter f (g a)) = if q a then 1%nat else 0%nat) ->
  length (List.filter f (concat (map g l))) = length (List.filter q l).
Proof.
  intros Hg. induction l as [|a l IH]; [reflexivity|].
  cbn [map concat List.filter]. rewrite List.filter_app, length_app, Hg, IH.
  now destruct (q a).
Qed.

Lemma none_concat_map {A : Type} (f : Effect -> bool) (g : A -> list Effect) (l : list A) :
  (forall a, List.filter f (g a) = []) ->
  List.filter f (concat (map g l)) = [].
Proof.
  intros Hg. induction l as [|a l IH]; [reflexivity|].
  cbn [map concat]. now rewrite List.filter_app, Hg, IH.
Qed.

(** The lines of the skeleton are moves and lines only. *)
Lemma drawConnection_lines (f : Effect -> bool) (kps : list Keypoint) (c : nat * nat) :
  (forall x0 y0, f (moveTo x0 y0) = false) -> (forall x0 y0, f (lineTo x0 y0) = false) ->
  List.filter f (drawConnection kps c) = [].
Proof.
  intros Hmove Hline. destruct c as [i j]. unfold drawConnection.
  destruct (kps !! i), (kps !! j); cbn; now rewrite ?Hmove, ?Hline.
Qed.

Lemma drawHand_callbacks (has_callback : bool) (hand : Hand) :
  length (List.filter is_callback (drawHand has_callback hand))
  = if has_callback && qualifies hand then 1%nat else 0%nat.
Proof.
  unfold drawHand, qualifies, drawDistance.
  destruct (0.8 <? confidence hand); [|now rewrite andb_false_r].
  rewrite !List.filter_app, none_concat_map
    by (intros c; now apply drawConnection_lines).
  destruct (keypoints hand !! 4%nat), (keypoints hand !! 8%nat), has_callback; reflexivity.
Qed.

End Counting.

Section Frames.
Context {core : Core float}.
Local Open Scope float_scope.

Lemma filter_none {A : Type} (f : A -> bool) (l : list A) :
  (forall a, In a l -> f a = false) -> List.filter f l = [].
Proof.
  induction l as [|a l IH]; intros Hl; [reflexivity|].
  cbn. rewrite (Hl a) by now left. apply IH. intros b Hb. apply Hl. now right.
Qed.

Lemma drawHand_draws (has_callback : bool) (hand : Hand) (e : Effect) :
  In e (drawHand has_callback hand) -> draws_hand e = true.
Proof.
  unfold drawHand. destruct (0.8 <? confidence hand); [|intros []].
  rewrite !in_app_iff, in_concat. intros [Hin | [(l & Hl & Hin) | [Hin | Hin]]].
  - cbn in Hin. destruct Hin as [<- | [<- | [<- | []]]]; reflexivity.
  - apply in_map_iff in Hl as ([i j] & <- & _). unfold drawConnection in Hin.
    destruct (keypoints hand !! i), (keypoints hand !! j); cbn in Hin;
      try contradiction.
    destruct Hin as [<- | [<- | []]]; reflexivity.
  - destruct Hin as [<- | []]. reflexivity.
  - unfold drawDistance in Hin.
    destruct (keypoints hand !! 4%nat), (keypoints hand !! 8%nat); try contradiction.
    apply in_app_iff in Hin as [Hin | Hin].
    + cbn in Hin. repeat (destruct Hin as [<- | Hin]; [reflexivity|]). contradiction.
    + destruct has_callback; [|contradiction]. destruct Hin as [<- | []]. reflexivity.
Qed.

Lemma drawHands_none (f : Effect -> bool) (has_callback : bool) (hands : list Hand) :
  (forall e, draws_hand e = true -> f e = false) ->
  List.filter f (concat (map (drawHand has_callback) hands)) = [].
Proof.
  intros Hf. apply none_concat_map. intros hand. apply filter_none.
  intros e He. apply Hf. now apply drawHand_draws in He.
Qed.

(** A frame, split at what is not a hand. *)
Lemma drawFrame_filter (f : Effect -> bool) (w h : float) (has_callback : bool)
    (st : Webcam) :
  List.filter f (drawFrame w h has_callback st)
  = (if webcamReady st
     then List.filter f [drawImage 0 0 w h]
          ++ List.filter f (concat (map (drawHand has_callback) (detectedHands st)))
     else [])
    ++ List.filter f [requestAnimationFrame].
Proof.
  unfold drawFrame. rewrite List.filter_app. f_equal.
  destruct (webcamReady st); [|reflexivity].
  change (drawImage 0 0 w h :: ?l) with ([drawImage 0 0 w h] ++ l).
  rewrite List.filter_app. f_equal.
  destruct (detectedHands st); reflexivity.
Qed.

End Frames.

(** X16.  A frame asks for the next frame once, as the last thing it does;
    before the video is ready it does nothing else; once it is ready the
    frame draws the camera image once, first, and calls the callback once for
    each detected hand that is above the threshold and shows both tips, and
    not at all when there is no callback. *)
Theorem drawFrame_counts :
  forall (core : Core float) (w h : float) (has_callback : bool) (st : Webcam),
    let frame := drawFrame w h has_callback st in
    length (List.filter is_requestAnimationFrame frame) = 1%nat
    /\ last frame = Some requestAnimationFrame
    /\ (if webcamReady st then head frame = Some (drawImage 0 0 w h)
        else frame = [requestAnimationFrame])
    /\ length (List.filter is_drawImage frame) = (if webcamReady st then 1 else 0)%nat
    /\ length (List.filter is_callback frame)
       = (if webcamReady st && has_callback
          then length (List.filter qualifies (detectedHands st)) else 0)%nat.
Proof.
  intros core w h has_callback st frame. subst frame.
  split.
  { rewrite drawFrame_filter. destruct (webcamReady st); [|reflexivity].
    rewrite drawHands_none; [reflexivity|]. now intros []. }
  split; [unfold drawFrame; apply last_snoc|].
  split; [unfold drawFrame; destruct (webcamReady st); reflexivity|].
  split.
  { rewrite drawFrame_filter. destruct (webcamReady st); [|reflexivity].
    rewrite drawHands_none; [reflexivity|]. now intros []. }
  rewrite drawFrame_filter. destruct (webcamReady st); [|reflexivity].
  cbn [List.filter is_callback app andb]. rewrite app_nil_r.
  rewrite (count_concat_map is_callback (fun hand => has_callback && qualifies hand)).
  - destruct has_callback; [reflexivity|]. cbn [andb].
    now induction (detectedHands st).
  - intros hand. apply drawHand_callbacks.
Qed.

(** ** The page, event by event *)

Section PageFacts.
Context {core : Core float}.

Lemma drawFrame_setup_free (f : Effect -> bool) (w h : float) (has_callback : bool)
    (st : Webcam) :
  (forall e, draws_hand e = true -> f e = false) ->
  (forall x0 y0 w0 h0, f (drawImage x0 y0 w0 h0) = false) ->
  f requestAnimationFrame = false ->
  List.filter f (drawFrame w h has_callback st) = [].
Proof.
  intros Hhand Himage Hframe. rewrite drawFrame_filter, drawHands_none by assumption.
  cbn. rewrite Himage, Hframe. now destruct (webcamReady st).
Qed.

Lemma drawFrame_image (w h : float) (has_callback : bool) (st : Webcam) :
  List.filter is_drawImage (drawFrame w h has_callback st) <> [] -> webcamReady st = true.
Proof.
  rewrite drawFrame_filter. destruct (webcamReady st); [reflexivity|].
  intros Hne. now contradiction Hne.
Qed.


Lemma startDrawLoop_filter (f : Effect -> bool) (w h : float) (has_callback : bool)
    (st : Webcam) :
  (forall e, draws_hand e = true -> f e = false) ->
  (forall x0 y0 w0 h0, f (drawImage x0 y0 w0 h0) = false) ->
  f requestAnimationFrame = false ->
  (forall message, f (console_log message) = false) ->
  List.filter f (startDrawLoop w h has_callback st).2
  = if negb (webcamDrawLoopStarted st) && bool_decide (is_Some (webcamVideo st))
       && negb (handposeModel st) && f ml5_handPose
    then [ml5_handPose] else [].
Proof.
  intros Hhand Himage Hframe Hlog. unfold startDrawLoop, setupHandPose.
  destruct (webcamDrawLoopStarted st); [reflexivity|].
  cbn [negb andb snd webcamVideo handposeModel].
  rewrite List.filter_app, drawFrame_setup_free, app_nil_r by assumption.
  destruct (bool_decide _); [|reflexivity].
  destruct (handposeModel st); cbn [negb andb List.filter]; rewrite Hlog; [reflexivity|].
  now destruct (f ml5_handPose).
Qed.

Lemma run_app (events events' : list Event) (page : Page) :
  run (events ++ events') page
  = let '(page1, first) := run events page in
    let '(page2, rest) := run events' page1 in
    (page2, first ++ rest).
Proof.
  revert page. induction events as [|e events IH]; intros page; cbn [app run].
  - now destruct (run events' page).
  - destruct (deliver e page) as [page0 e0]. rewrite IH.
    destruct (run events page0) as [page1 e1].
    destruct (run events' page1) as [page2 e2].
    now rewrite app_assoc.
Qed.

(** While there is no video a call asks for the camera and waits. *)
Lemma deliver_tick_waits (w h : float) (has_callback : bool) (page : Page) :
  webcamVideo (vars page) = None ->
  deliver (Tick w h has_callback) page
  = ({| vars := vars page; loop := loop page;
        waiting := waiting page ++ [(w, h, has_callback)]; stage := stage page |},
     [getUserMedia]).
Proof.
  intros Hvideo. cbn [deliver]. unfold _canvas_call. rewrite Hvideo. unfold ran.
  cbn [existsb is_ml5_handPose orb]. now destruct (webcamDrawLoopStarted (vars page)).
Qed.

(** Once the loop runs a call does nothing. *)
Lemma deliver_tick_started (w h : float) (has_callback : bool) (page : Page) (video : Video) :
  webcamVideo (vars page) = Some video -> webcamDrawLoopStarted (vars page) = true ->
  deliver (Tick w h has_callback) page = (page, []).
Proof.
  intros Hvideo Hstarted. cbn [deliver]. unfold _canvas_call, startDrawLoop, ran.
  rewrite Hvideo, Hstarted. cbn. now destruct page.
Qed.

Lemma run_ticks_wait (calls : list (float * float * bool)) (page : Page) :
  webcamVideo (vars page) = None ->
  run (map (fun '(w, h, has_callback) => Tick w h has_callback) calls) page
  = ({| vars := vars page; loop := loop page;
        waiting := waiting page ++ calls; stage := stage page |},
     repeat getUserMedia (length calls)).
Proof.
  revert page. induction calls as [|[[w h] has_callback] calls IH]; intros page Hvideo.
  - cbn. rewrite app_nil_r. now destruct page.
  - cbn [map run]. rewrite deliver_tick_waits by assumption.
    rewrite IH by assumption. cbn. now rewrite <- app_assoc.
Qed.

Lemma run_ticks_started (calls : list (float * float * bool)) (page : Page) (video : Video) :
  webcamVideo (vars page) = Some video -> webcamDrawLoopStarted (vars page) = true ->
  run (map (fun '(w, h, has_callback) => Tick w h has_callback) calls) page = (page, []).
Proof.
  intros Hvideo Hstarted. induction calls as [|[[w h] has_callback] calls IH]; [reflexivity|].
  cbn [map run]. rewrite (deliver_tick_started w h has_callback page video) by assumption.
  now rewrite IH.
Qed.

(** A call that is denied before anything else happens leaves the page as
    it was. *)
Lemma run_denied_in_turn (errs : list string) (w h : float) (has_callback : bool)
    (page : Page) :
  webcamVideo (vars page) = None -> waiting page = [] ->
  run (concat (map (fun err => in_turn w h has_callback (Denied err)) errs)) page
  = (page, concat (map (fun _ => fallback w h) errs)).
Proof.
  intros Hvideo Hwaiting. induction errs as [|err errs IH]; [reflexivity|].
  cbn [map concat]. rewrite run_app. unfold in_turn at 1. cbn [run].
  rewrite deliver_tick_waits by assumption.
  cbn [deliver waiting]. rewrite Hwaiting. cbn [app lookup list_lookup _canvas_resume].
  unfold ran. cbn [existsb is_ml5_handPose orb vars delete list_delete loop stage].
  replace (negb (webcamDrawLoopStarted (vars page)) && webcamDrawLoopStarted (vars page))
    with false by now destruct (webcamDrawLoopStarted (vars page)).
  replace {| vars := vars page; loop := loop page; waiting := []; stage := stage page |}
    with page by (destruct page; cbn in *; congruence).
  rewrite IH. reflexivity.
Qed.

(** The calls that wait are granted one after another: each makes a video,
    the first that finds no loop starts it and asks for the model. *)
Lemma run_granted (calls : list (float * float * bool * MediaStream)) (page : Page) :
  waiting page = map fst calls ->
  handposeModel (vars page) = false ->
  let result := run (map (fun call => CameraSettles 0 (Granted call.2)) calls) page in
  waiting result.1 = []
  /\ List.filter is_getUserMedia result.2 = []
  /\ length (List.filter is_createElement result.2) = length calls
  /\ length (List.filter is_ml5_handPose result.2)
     = (if webcamDrawLoopStarted (vars page) then 0 else Nat.min 1 (length calls))
  /\ webcamStream (vars result.1)
     = match last (map snd calls) with
       | Some stream => Some stream
       | None => webcamStream (vars page)
       end.
Proof.
  revert page. induction calls as [|[[[w h] has_callback] stream] calls IH];
    intros page Hwaiting Hmodel.
  - cbn. repeat split; auto. now destruct (webcamDrawLoopStarted (vars page)).
  - cbn [map run fst snd]. cbn [deliver]. rewrite Hwaiting.
    cbn [map fst lookup list_lookup delete list_delete _canvas_resume].
    set (st := {| webcamVideo := _ |}).
    pose proof (startDrawLoop_filter is_getUserMedia w h has_callback st) as Hasked.
    pose proof (startDrawLoop_filter is_createElement w h has_callback st) as Hmade.
    pose proof (startDrawLoop_filter is_ml5_handPose w h has_callback st) as Hloaded.
    assert (Hstate :
      webcamStream (startDrawLoop w h has_callback st).1 = Some stream
      /\ handposeModel (startDrawLoop w h has_callback st).1 = false
      /\ webcamDrawLoopStarted (startDrawLoop w h has_callback st).1 = true).
    { unfold startDrawLoop. subst st. cbn [webcamDrawLoopStarted].
      destruct (webcamDrawLoopStarted (vars page)) eqn:Hstarted; cbn; auto. }
    destruct (startDrawLoop w h has_callback st) as [st1 effects].
    cbn [fst snd] in *. destruct Hstate as (Hstream & Hmodel1 & Hstarted1).
    set (page1 := ran _ _ _ _ _ _ _).
    specialize (IH page1 eq_refl Hmodel1). cbn zeta in IH.
    destruct IH as (Hw & Hg & Hc & Hm & Hs).
    destruct (run _ page1) as [page2 rest]. cbn [fst snd] in *.
    subst page1. unfold ran in Hm, Hs. cbn [vars] in Hm, Hs.
    rewrite Hstarted1 in Hm. rewrite Hstream in Hs.
    rewrite !List.filter_app, !length_app, Hg, Hc, Hm.
    rewrite Hasked, Hmade, Hloaded by (try reflexivity; now intros []).
    subst st. cbn [webcamDrawLoopStarted webcamVideo handposeModel] .
    rewrite Hmodel, !andb_false_r.
    split; [exact Hw|]. split; [reflexivity|]. split; [reflexivity|].
    split.
    + rewrite bool_decide_eq_true_2 by eauto.
      destruct (webcamDrawLoopStarted (vars page)); cbn; lia.
    + rewrite Hs. cbn [map snd]. rewrite last_cons.
      now destruct (last (map snd calls)).
Qed.

(** The calls that wait are denied one after another: each draws the
    fallback, and the page is as it was. *)
Lemma run_denied (calls : list (float * float * bool * string)) (page : Page) :
  waiting page = map fst calls ->
  let result := run (map (fun call => CameraSettles 0 (Denied call.2)) calls) page in
  result.1 = {| vars := vars page; loop := loop page; waiting := []; stage := stage page |}
  /\ List.filter is_getUserMedia result.2 = []
  /\ length (List.filter is_fallback_message result.2) = length calls.
Proof.
  revert page. induction calls as [|[[[w h] has_callback] err] calls IH];
    intros page Hwaiting.
  - cbn. repeat split. destruct page; cbn in *; congruence.
  - cbn [map run fst snd]. cbn [deliver]. rewrite Hwaiting.
    cbn [map fst lookup list_lookup delete list_delete _canvas_resume].
    set (page1 := ran _ _ _ _ _ _ _).
    specialize (IH page1 eq_refl). cbn zeta in IH. destruct IH as (Hpage & Hasked & Hdrawn).
    destruct (run _ page1) as [page2 rest]. cbn [fst snd] in *.
    subst page1. unfold ran in Hpage. cbn [vars loop stage existsb is_ml5_handPose orb] in Hpage.
    rewrite andb_negb_l in Hpage.
    split; [exact Hpage|]. cbn. rewrite Hasked, Hdrawn. split; reflexivity.
Qed.

(** One event keeps the page consistent, asks for at most the one model and
    starts at most the one detection that are still to come, makes no video
    that no camera was asked for, never takes the video's readiness back, and
    draws the camera image only if a video is ready. *)
Lemma deliver_step (e : Event) (page : Page) :
  consistent page ->
  consistent (deliver e page).1
  /\ (length (List.filter is_ml5_handPose (deliver e page).2)
      + match stage (deliver e page).1 with NotAsked => 1 | _ => 0 end
      <= match stage page with NotAsked => 1 | _ => 0 end)%nat
  /\ (length (List.filter is_detectStart (deliver e page).2)
      + match stage (deliver e page).1 with Detecting => 0 | _ => 1 end
      <= match stage page with Detecting => 0 | _ => 1 end)%nat
  /\ (length (List.filter is_createElement (deliver e page).2)
      + length (waiting (deliver e page).1)
      <= length (List.filter is_getUserMedia (deliver e page).2)
         + length (waiting page))%nat
  /\ (webcamReady (vars page) = true -> webcamReady (vars (deliver e page).1) = true)
  /\ (List.filter is_drawImage (deliver e page).2 <> []
      -> webcamReady (vars (deliver e page).1) = true).
Proof.
  destruct page as [[video stream ready started hands model] frame calls reached].
  unfold consistent. cbn [vars loop waiting stage webcamVideo webcamStream webcamReady
                          webcamDrawLoopStarted detectedHands handposeModel].
  intros (Hready & Hloop & Hvideo & Hstage & Hmodel & Hhands & Hstream).
  assert (Hnone : video = None -> started = false /\ ready = false /\ model = false
                                  /\ reached = NotAsked).
  { intros ->. assert (Hs : started = false).
    { destruct started; [|reflexivity]. destruct Hvideo as [Hv _].
      destruct (Hv eq_refl) as [? [=]]. }
    subst started. split; [reflexivity|]. split.
    - destruct ready; [|reflexivity]. destruct (Hready eq_refl) as [? [=]].
    - assert (Hr : reached = NotAsked).
      { destruct reached; [reflexivity|..]; destruct Hstage as [_ Hs];
          discriminate Hs; discriminate. }
      subst reached. split; [|reflexivity].
      destruct model; [|reflexivity]. destruct Hmodel as [Hm _].
      destruct (Hm eq_refl); discriminate. }
  destruct e as [w h has_callback | i camera | | | | results |].
  - (* a call *)
    destruct video as [v|].
    + assert (Hs : started = true) by (apply Hvideo; eauto).
      subst started. cbn. repeat split; auto; try tauto; try lia.
    + destruct (Hnone eq_refl) as (-> & -> & -> & ->). cbn.
      rewrite length_app. cbn.
      repeat split; auto; try tauto; try lia; try (intros Hne; now contradiction Hne).
  - (* a camera request settles *)
    cbn [deliver waiting]. destruct (calls !! i) as [[[w h] has_callback]|] eqn:Hcall.
    2:{ cbn. repeat split; auto; try tauto; try lia; try (intros Hne; now contradiction Hne). }
    pose proof (lookup_lt_Some _ _ _ Hcall) as Hlt.
    pose proof (length_delete calls i (ltac:(eauto))) as Hdel.
    destruct camera as [granted | err].
    + destruct started.
      * cbn. repeat split; eauto; cbn; try tauto; try lia; try discriminate.
      * assert (Hv : video = None).
        { destruct video; [|reflexivity]. destruct Hvideo as [_ Hv].
          discriminate Hv; eauto. }
        destruct (Hnone Hv) as (_ & -> & -> & ->). cbn.
        repeat split; eauto; cbn; try tauto; try lia; try discriminate.
        now intros [|].
    + cbn. rewrite andb_negb_l. cbn.
      repeat split; auto; try tauto; try lia; try (intros Hne; now contradiction Hne).
  - (* the video has its metadata *)
    cbn. destruct video as [v|]; cbn; repeat split; auto; try tauto; try lia; eauto.
  - (* the model is loaded *)
    cbn. destruct reached; cbn; repeat split; auto; try tauto; try lia; try discriminate;
      try (intros _; apply Hstage; discriminate).
    intros Hne. discriminate (Hhands Hne).
  - (* the model is ready *)
    cbn. destruct reached; cbn; repeat split; auto; try tauto; try lia; try discriminate;
      try (intros Hne; now contradiction Hne).
    intros _. apply Hstage. discriminate.
  - (* the model reports hands *)
    cbn. destruct reached; cbn; repeat split; auto; try tauto; try lia.
  - (* an animation frame *)
    cbn -[drawFrame]. destruct frame as [[[w h] has_callback]|]; cbn -[drawFrame].
    + rewrite !drawFrame_setup_free by (try reflexivity; now intros []).
      repeat split; auto; try tauto; try lia; try apply drawFrame_image.
    + repeat split; auto; try tauto; try lia; try (intros Hne; now contradiction Hne).
Qed.

End PageFacts.

Section RunFacts.
Context {core : Core float}.

Lemma run_steps (events : list Event) (page : Page) :
  consistent page ->
  consistent (run events page).1
  /\ (length (List.filter is_ml5_handPose (run events page).2)
      + match stage (run events page).1 with NotAsked => 1 | _ => 0 end
      <= match stage page with NotAsked => 1 | _ => 0 end)%nat
  /\ (length (List.filter is_detectStart (run events page).2)
      + match stage (run events page).1 with Detecting => 0 | _ => 1 end
      <= match stage page with Detecting => 0 | _ => 1 end)%nat
  /\ (length (List.filter is_createElement (run events page).2)
      + length (waiting (run events page).1)
      <= length (List.filter is_getUserMedia (run events page).2)
         + length (waiting page))%nat
  /\ (webcamReady (vars page) = true -> webcamReady (vars (run events page).1) = true)
  /\ (List.filter is_drawImage (run events page).2 <> []
      -> webcamReady (vars (run events page).1) = true).
Proof.
  revert page. induction events as [|e events IH]; intros page Hpage.
  - cbn. split; [exact Hpage|]. split; [lia|]. split; [lia|]. split; [lia|].
    split; [auto|]. intros Hne. exfalso. now apply Hne.
  - cbn [run].
    pose proof (deliver_step e page Hpage) as (Hc1 & Hm1 & Hd1 & Hv1 & Hr1 & Hi1).
    destruct (deliver e page) as [page1 first]. cbn [fst snd] in *.
    pose proof (IH page1 Hc1) as (Hc2 & Hm2 & Hd2 & Hv2 & Hr2 & Hi2).
    destruct (run events page1) as [page2 rest]. cbn [fst snd] in *.
    rewrite !List.filter_app, !length_app.
    split; [exact Hc2|]. split; [lia|]. split; [lia|]. split; [lia|]. split; [auto|].
    intros Hne. destruct (List.filter is_drawImage rest) eqn:Erest.
    + rewrite app_nil_r in Hne. auto.
    + apply Hi2. discriminate.
Qed.

End RunFacts.

(** X1.  [_canvas] is async and the paint driver does not wait for it, so
    calls overlap, and the comment at its head (only request webcam and
    create video once) holds for neither.  When [n] calls are made before the
    camera answers the first, [getUserMedia] is called [n] times; when the
    camera then grants them all, a video element is made [n] times, each
    taking the place of the one before, so that the stream of the last
    answer is the one kept; the draw loop and the model are started by the
    first answer alone.  So with two calls at 640 by 480. *)
Theorem canvas_calls_overlap :
  (forall (core : Core float) (calls : list (float * float * bool * MediaStream)),
      let result :=
        run (map (fun '(w, h, has_callback) => Tick w h has_callback) (map fst calls)
             ++ map (fun call => CameraSettles 0 (Granted call.2)) calls) initial in
      length (List.filter is_getUserMedia result.2) = length calls
      /\ length (List.filter is_createElement result.2) = length calls
      /\ length (List.filter is_ml5_handPose result.2) = Nat.min 1 (length calls)
      /\ webcamStream (vars result.1) = last (map snd calls)
      /\ waiting result.1 = [])
  /\ run (core := stub_core)
       [Tick 640 480 false; Tick 640 480 false;
        CameraSettles 0 (Granted 1%nat); CameraSettles 0 (Granted 2%nat)] initial
     = ({| vars := acquired 2%nat; loop := Some (640%float, 480%float, false);
           waiting := []; stage := Loading |},
        [getUserMedia; getUserMedia;
         createElement "video"; addEventListener "loadedmetadata";
         console_log "Setting up handpose model..."; ml5_handPose;
         requestAnimationFrame;
         createElement "video"; addEventListener "loadedmetadata"]).
Proof.
  split; [|reflexivity].
  intros core calls result. subst result.
  rewrite run_app, run_ticks_wait by reflexivity.
  cbn [initial vars loop waiting stage app].
  set (page := {| vars := module_scope |}).
  pose proof (run_granted calls page eq_refl eq_refl) as (Hw & Hg & Hc & Hm & Hs).
  cbn zeta in Hw, Hg, Hc, Hm, Hs.
  destruct (run _ page) as [page2 rest]. cbn [fst snd] in *.
  rewrite !List.filter_app, !length_app, Hg, Hc, Hm, Hs, length_map.
  assert (Hrepeat : forall n,
    List.filter is_getUserMedia (repeat getUserMedia n) = repeat getUserMedia n
    /\ List.filter is_createElement (repeat getUserMedia n) = []
    /\ List.filter is_ml5_handPose (repeat getUserMedia n) = []).
  { induction n as [|n (IH1 & IH2 & IH3)]; [repeat split|].
    cbn. rewrite IH1. auto. }
  destruct (Hrepeat (length calls)) as (-> & -> & ->).
  rewrite repeat_length. subst page. cbn [length vars module_scope webcamDrawLoopStarted
                                             webcamStream].
  split; [lia|]. split; [lia|]. split; [lia|]. split; [|exact Hw].
  now destruct (last (map snd calls)).
Qed.

(** X18.  Denied calls that overlap fare as denied calls in turn do (C8):
    when [n] calls are made before the camera has answered the first, and
    the camera then denies them all, [getUserMedia] has been called [n]
    times and the fallback is drawn [n] times, and the module's variables
    are as they were at the start. *)
Theorem canvas_denied_overlap :
  forall (core : Core float) (calls : list (float * float * bool * string)),
    let result :=
      run (map (fun '(w, h, has_callback) => Tick w h has_callback) (map fst calls)
           ++ map (fun call => CameraSettles 0 (Denied call.2)) calls) initial in
    result.1 = initial
    /\ length (List.filter is_getUserMedia result.2) = length calls
    /\ length (List.filter is_fallback_message result.2) = length calls.
Proof.
  intros core calls result. subst result.
  rewrite run_app, run_ticks_wait by reflexivity.
  cbn [initial vars loop waiting stage app].
  set (page := {| vars := module_scope |}).
  pose proof (run_denied calls page eq_refl) as (Hpage & Hasked & Hdrawn).
  cbn zeta in Hpage, Hasked, Hdrawn.
  destruct (run _ page) as [page2 rest]. cbn [fst snd] in *.
  rewrite !List.filter_app, !length_app, Hasked, Hdrawn, length_map.
  assert (Hrepeat : forall n,
    List.filter is_getUserMedia (repeat getUserMedia n) = repeat getUserMedia n
    /\ List.filter is_fallback_message (repeat getUserMedia n) = []).
  { induction n as [|n [IH1 IH2]]; [split; reflexivity|]. cbn. rewrite IH1. auto. }
  destruct (Hrepeat (length calls)) as [-> ->].
  rewrite repeat_length. cbn [length]. split; [exact Hpage|]. split; lia.
Qed.

(** X15.  Calls that do not overlap, the camera answering each before
    anything else happens: each denied call asks for the camera and draws the
    fallback; the call that is granted makes the video, starts the draw loop
    and asks for the model, which is still loading when it returns; and no
    later call does anything.  A denial is retried, and overcome, on the next
    tick. *)
Theorem denied_then_granted_in_turn :
  forall (core : Core float) (errs : list string) (stream : MediaStream)
         (later : list (float * float * bool)) (w h : float) (has_callback : bool),
    run (concat (map (fun err => in_turn w h has_callback (Denied err)) errs)
         ++ in_turn w h has_callback (Granted stream)
         ++ map (fun '(w', h', has_callback') => Tick w' h' has_callback') later) initial
    = ({| vars := acquired stream; loop := Some (w, h, has_callback);
          waiting := []; stage := Loading |},
       concat (map (fun _ => fallback w h) errs) ++ acquisition).
Proof.
  intros core errs stream later w h has_callback.
  rewrite run_app, run_denied_in_turn by reflexivity.
  rewrite run_app.
  change (run (in_turn w h has_callback (Granted stream)) initial)
    with ({| vars := acquired stream; loop := Some (w, h, has_callback);
             waiting := []; stage := Loading |}, acquisition).
  cbv iota beta.
  rewrite (run_ticks_started later _
             {| srcObject := stream; autoplay := true; playsInline := true |})
    by reflexivity.
  reflexivity.
Qed.

(** X17.  Whatever happens on the page, in whatever order, calls of
    [_canvas] overlapping or not: the variables stay consistent (the loop has
    started exactly when there is a video, and exactly then a frame is
    pending and the model has been asked for; [handposeModel] is set only
    once its promise has resolved; the video is ready only if there is one;
    hands are only reported by a model that detects; the stream is the
    video's), the model is asked for at most once and detection started at
    most once, no more videos are made than cameras were asked for and have
    answered, and the camera image is drawn only when there is a video and
    it is ready. *)
Theorem run_consistent :
  forall (core : Core float) (events : list Event),
    consistent (run events initial).1
    /\ (length (List.filter is_ml5_handPose (run events initial).2) <= 1)%nat
    /\ (length (List.filter is_detectStart (run events initial).2) <= 1)%nat
    /\ (length (List.filter is_createElement (run events initial).2)
        + length (waiting (run events initial).1)
        <= length (List.filter is_getUserMedia (run events initial).2))%nat
    /\ (List.filter is_drawImage (run events initial).2 = []
        \/ (webcamReady (vars (run events initial).1) = true
            /\ is_Some (webcamVideo (vars (run events initial).1)))).
Proof.
  intros core events.
  assert (Hinitial : consistent initial).
  { unfold consistent; cbn. repeat split; try discriminate; try tauto.
    - intros [? [=]].
    - intros [? [=]].
    - now intros [|]. }
  pose proof (run_steps events initial Hinitial) as (Hc & Hm & Hd & Hv & _ & Hi).
  cbn [initial vars waiting stage length] in Hv, Hm, Hd.
  split; [exact Hc|]. split; [lia|]. split; [lia|]. split; [lia|].
  destruct (List.filter is_drawImage (run events initial).2) eqn:E; [now left|].
  right. assert (Hready : webcamReady (vars (run events initial).1) = true)
    by (apply Hi; discriminate).
  split; [exact Hready|]. destruct Hc as [Hvideo _]. now apply Hvideo.
Qed.
